(** * Field merging and fixed-point formula evaluation

    A shallow embedding of the core of the rule-table renderer:
    [ScenarioBuilder._merge_fields] and [ScenarioBuilder._compute_values]
    (src/render_html/render.py) and [TemplateRenderer._compute_values]
    (src/render_json/render_json_example.py), with the properties their
    specification states about them. *)

From Stdlib Require Import ZArith Ascii String DecimalString.
From stdpp Require Import gmap strings list fin_maps.

Local Open Scope string_scope.
Local Open Scope list_scope.
#[local] Set Warnings "-register-all".

(** ** Values

    The values of a context are what [json.load] produces and what a formula
    computes: [None], booleans, integers, strings, lists and string-keyed
    dictionaries.  A dictionary is kept as an association list with distinct
    keys.  Python floats are not represented: numbers are the integers. *)

Inductive value : Type :=
  | VNone
  | VBool (b : bool)
  | VInt (z : Z)
  | VStr (s : string)
  | VList (items : list value)
  | VDict (entries : list (string * value)).

Fixpoint assoc {A : Type} (k : string) (d : list (string * A)) : option A :=
  match d with
  | [] => None
  | (k', v) :: rest => if String.eqb k k' then Some v else assoc k rest
  end.

(** Python's [==] on these values: [True == 1] and [False == 0] hold, lists
    compare element by element, dictionaries entry by entry whatever their
    order. *)
Fixpoint py_eq (a b : value) {struct a} : bool :=
  match a, b with
  | VNone, VNone => true
  | VBool x, VBool y => Bool.eqb x y
  | VBool x, VInt y => Z.eqb (Z.b2z x) y
  | VInt x, VBool y => Z.eqb x (Z.b2z y)
  | VInt x, VInt y => Z.eqb x y
  | VStr x, VStr y => String.eqb x y
  | VList xs, VList ys =>
      (fix items (xs ys : list value) {struct xs} : bool :=
         match xs, ys with
         | [], [] => true
         | x :: xs', y :: ys' => py_eq x y && items xs' ys'
         | _, _ => false
         end) xs ys
  | VDict xs, VDict ys =>
      Nat.eqb (length xs) (length ys) &&
      (fix entries (xs : list (string * value)) {struct xs} : bool :=
         match xs with
         | [] => true
         | (k, x) :: xs' =>
             match assoc k ys with
             | Some y => py_eq x y
             | None => false
             end && entries xs'
         end) xs
  | _, _ => false
  end.

(** Python's [!=]. *)
Definition py_ne (a b : value) : bool := negb (py_eq a b).

(** ** Exceptions and results *)

(** A raised exception: the name of its class and its arguments. *)
Record exn : Type := Exn { exn_class : string; exn_args : list value }.

(** [d[k]] on a dictionary without the key [k]. *)
Definition KeyError (k : string) : exn := Exn "KeyError" [VStr k].

Inductive result (A : Type) : Type :=
  | Ok (a : A)
  | Raise (e : exn).
Arguments Ok {A} a.
Arguments Raise {A} e.

#[global] Instance result_ret : MRet result := fun _ a => Ok a.
#[global] Instance result_bind : MBind result := fun _ _ k m =>
  match m with
  | Ok a => k a
  | Raise e => Raise e
  end.
#[global] Instance result_fmap : FMap result := fun _ _ g m =>
  match m with
  | Ok a => Ok (g a)
  | Raise e => Raise e
  end.

(** ** Fields, configurations, contexts *)

(** A field definition is a JSON object.  Its ["id"] entry, a string in the
    data model, is kept apart from the other entries; [field_id] is [None] for
    an object without that key. *)
Record field : Type := Field {
  field_id : option string;
  field_attrs : gmap string value;
}.

(** The evaluation context, and the mapping of external inputs. *)
Abbreviation context := (gmap string value).

(** [field.get(key)] *)
Definition get (f : field) (key : string) : value :=
  default VNone (field_attrs f !! key).

(** [field.get(key, dflt)] *)
Definition get_or (f : field) (key : string) (dflt : value) : value :=
  default dflt (field_attrs f !! key).

(** [key in field], for a key other than ["id"] *)
Definition has_key (f : field) (key : string) : bool :=
  bool_decide (is_Some (field_attrs f !! key)).

(** [field["id"]] *)
Definition getitem_id (f : field) : result string :=
  match field_id f with
  | Some i => Ok i
  | None => Raise (KeyError "id")
  end.

(** [field[key] = v], for a key other than ["id"] *)
Definition setitem (f : field) (key : string) (v : value) : field :=
  Field (field_id f) (<[key := v]> (field_attrs f)).

(** [ctx.get(key)] *)
Definition ctx_get (ctx : context) (key : string) : value :=
  default VNone (ctx !! key).

(** [key in ctx] *)
Definition ctx_mem (ctx : context) (key : string) : bool :=
  bool_decide (is_Some (ctx !! key)).

(** The globals catalogue: [globals_cfg.get("fields", [])]. *)
Record globals_cfg : Type := GlobalsCfg {
  g_fields : list field;
}.

(** The scenario configuration, each entry read with its default:
    [.get("use_fields", [])], [.get("overrides", {})], [.get("fields", [])]. *)
Record scenario_cfg : Type := ScenarioCfg {
  use_fields : list string;
  overrides : gmap string (gmap string value);
  s_fields : list field;
}.

(** ** The formula interpreter

    [asteval.Interpreter] is a library outside the repository; the evaluators
    use three of its operations, which the embedding takes as an interface:
    creating an interpreter, updating its symbol table from a context, and
    calling it on a formula.  A call returns a value or raises, and may leave
    the symbol table changed. *)
Class Interpreter : Type := {
  symtable : Type;
  interp_new : symtable;
  interp_update : context -> symtable -> symtable;
  interp_call : value -> symtable -> result value * symtable;
}.

(** What an evaluation reports besides its context: the number of passes it
    ran and whether the last one left every value unchanged. *)
Record run : Type := Run {
  run_ctx : context;
  run_passes : nat;
  run_stable : bool;
}.

(** ** ScenarioBuilder (src/render_html/render.py) *)

Module ScenarioBuilder.

(** [gmap = {field["id"]: field for field in globals_cfg.get("fields", [])}] *)
Fixpoint build_gmap (fields : list field) (gm : gmap string field)
  : result (gmap string field) :=
  match fields with
  | [] => Ok gm
  | f :: rest =>
      i ← getitem_id f;
      build_gmap rest (<[i := f]> gm)
  end.

(** [for key in ("unit", "default"): if key in overrides: base[key] = overrides[key]] *)
Fixpoint apply_overrides (keys : list string) (ov : gmap string value)
    (base : field) : field :=
  match keys with
  | [] => base
  | key :: rest =>
      match ov !! key with
      | Some v => apply_overrides rest ov (setitem base key v)
      | None => apply_overrides rest ov base
      end
  end.

(** The loop over [use_fields]; [dict(gmap[field_id])] copies the catalogue
    entry, which as a value is the entry itself. *)
Fixpoint merge_loop (gm : gmap string field) (sc : scenario_cfg)
    (ids : list string) (merged : list field) : result (list field) :=
  match ids with
  | [] => Ok merged
  | fid :: rest =>
      match gm !! fid with
      | None => Raise (KeyError fid)
      | Some g =>
          let base := g in
          let ov := default ∅ (overrides sc !! fid) in
          let base := apply_overrides ["unit"; "default"] ov base in
          let base := setitem base "source" (VStr "user") in
          merge_loop gm sc rest (merged ++ [base])
      end
  end.

Definition merge_fields (gc : globals_cfg) (sc : scenario_cfg)
  : result (list field) :=
  gm ← build_gmap (g_fields gc) ∅;
  merged ← merge_loop gm sc (use_fields sc) [];
  Ok (merged ++ s_fields sc).

Section Evaluate.
Context `{Interpreter}.

(** The seeding loop. *)
Fixpoint seed (fields : list field) (ctx : context) : result context :=
  match fields with
  | [] => Ok ctx
  | f :: rest =>
      if py_eq (get f "source") (VStr "user") then
        i ← getitem_id f;
        if ctx_mem ctx i then seed rest ctx
        else seed rest (<[i := get f "default"]> ctx)
      else seed rest ctx
  end.

(** The inner loop of one pass: the calc fields in list order. *)
Fixpoint calc_loop (fields : list field) (engine : symtable)
    (ctx : context) (changed : bool) : result (symtable * context * bool) :=
  match fields with
  | [] => Ok (engine, ctx, changed)
  | f :: rest =>
      if py_eq (get f "source") (VStr "calc") && has_key f "formula" then
        let (r, engine') := interp_call (get f "formula") engine in
        value ← r;
        i ← getitem_id f;
        if py_ne (ctx_get ctx i) value
        then calc_loop rest engine' (<[i := value]> ctx) true
        else calc_loop rest engine' ctx changed
      else calc_loop rest engine ctx changed
  end.

(** One pass: [changed = False; engine.symtable.update(ctx)], then the inner
    loop. *)
Definition one_pass (fields : list field) (engine : symtable) (ctx : context)
  : result (symtable * context * bool) :=
  calc_loop fields (interp_update ctx engine) ctx false.

(** [for _ in range(budget)], when [done] passes have been run. *)
Fixpoint iterate (budget : nat) (fields : list field) (engine : symtable)
    (ctx : context) (done : nat) : result run :=
  match budget with
  | O => Ok (Run ctx done false)
  | S budget' =>
      '(engine', ctx', changed) ← one_pass fields engine ctx;
      if negb changed then Ok (Run ctx' (S done) true)
      else iterate budget' fields engine' ctx' (S done)
  end.

Definition compute_values_run (fields : list field) (inputs : context)
  : result run :=
  ctx ← seed fields inputs;
  iterate 8 fields interp_new ctx 0.

Definition compute_values (fields : list field) (inputs : context)
  : result context :=
  run_ctx <$> compute_values_run fields inputs.

End Evaluate.

End ScenarioBuilder.

(** ** TemplateRenderer (src/render_json/render_json_example.py) *)

Module TemplateRenderer.

(** The attributes of a renderer that [_compute_values] reads and writes. *)
Record renderer : Type := Renderer {
  r_overrides : context;
  r_values : option context;
}.

(** [TemplateRenderer(config_path, overrides=overrides)] *)
Definition init (ov : context) : renderer := Renderer ov None.

Section Evaluate.
Context `{Interpreter}.

Fixpoint seed (fields : list field) (ctx : context) : result context :=
  match fields with
  | [] => Ok ctx
  | f :: rest =>
      if py_eq (get_or f "source" (VStr "user")) (VStr "user") then
        i ← getitem_id f;
        if ctx_mem ctx i then seed rest ctx
        else seed rest (<[i := get f "default"]> ctx)
      else seed rest ctx
  end.

Fixpoint calc_loop (fields : list field) (engine : symtable)
    (ctx : context) (changed : bool) : result (symtable * context * bool) :=
  match fields with
  | [] => Ok (engine, ctx, changed)
  | f :: rest =>
      if py_eq (get f "source") (VStr "calc") && has_key f "formula" then
        let (r, engine') := interp_call (get f "formula") engine in
        res ← r;
        i ← getitem_id f;
        if py_ne (ctx_get ctx i) res
        then calc_loop rest engine' (<[i := res]> ctx) true
        else calc_loop rest engine' ctx changed
      else calc_loop rest engine ctx changed
  end.

Fixpoint iterate (budget : nat) (fields : list field) (engine : symtable)
    (ctx : context) (done : nat) : result run :=
  match budget with
  | O => Ok (Run ctx done false)
  | S budget' =>
      '(engine', ctx', changed) ←
        calc_loop fields (interp_update ctx engine) ctx false;
      if negb changed then Ok (Run ctx' (S done) true)
      else iterate budget' fields engine' ctx' (S done)
  end.

(** The method returns the context together with the renderer as it leaves
    it: [self._values] caches the first result. *)
Definition compute_values (self : renderer) (fields : list field)
  : result (context * renderer) :=
  match r_values self with
  | Some cached => Ok (cached, self)
  | None =>
      ctx ← seed fields (r_overrides self);
      r ← iterate 8 fields interp_new ctx 0;
      Ok (run_ctx r, Renderer (r_overrides self) (Some (run_ctx r)))
  end.

End Evaluate.

End TemplateRenderer.

(** ** Interpreters without side effects

    An interpreter whose symbol table is a dictionary, updated as
    [dict.update] does, and whose calls compute a result from the formula and
    the symbol table and leave the table as it is. *)
Definition pure_interp (eval : context -> value -> result value)
  : Interpreter :=
  {| symtable := context;
     interp_new := ∅;
     interp_update ctx st := ctx ∪ st;
     interp_call formula st := (eval st formula, st) |}.

(** ** A fragment of asteval

    Formulas of the shape [atom] or [atom op atom], written with single
    spaces, where an atom is [None], [True], [False], a decimal literal or a
    name, and [op] is one of [+ - * //] on integers and booleans.  Anything
    else is outside the fragment and counts as a syntax error here. *)

Inductive failure : Type :=
  | NameError (name : string)
  | ZeroDivisionError
  | TypeError
  | SyntaxError.

Definition exn_of_failure (e : failure) : exn :=
  match e with
  | NameError name => Exn "NameError" [VStr name]
  | ZeroDivisionError => Exn "ZeroDivisionError" []
  | TypeError => Exn "TypeError" []
  | SyntaxError => Exn "SyntaxError" []
  end.

Fixpoint words (s : string) : list string :=
  match s with
  | EmptyString => [""]
  | String c rest =>
      if Ascii.eqb c " "%char then "" :: words rest
      else match words rest with
           | w :: ws => String c w :: ws
           | [] => [String c ""]
           end
  end.

Definition digit_of (c : ascii) : option Z :=
  let n := Z.of_nat (Ascii.nat_of_ascii c) in
  if (48 <=? n)%Z && (n <=? 57)%Z then Some (n - 48)%Z else None.

Fixpoint digits (s : string) (acc : Z) : option Z :=
  match s with
  | EmptyString => Some acc
  | String c rest =>
      match digit_of c with
      | Some d => digits rest (10 * acc + d)%Z
      | None => None
      end
  end.

Definition is_name_start (c : ascii) : bool :=
  let n := Ascii.nat_of_ascii c in
  (Nat.leb 97 n && Nat.leb n 122) || (Nat.leb 65 n && Nat.leb n 90)
  || Nat.eqb n 95.

Definition eval_atom (st : context) (tok : string) : failure + value :=
  if String.eqb tok "None" then inr VNone
  else if String.eqb tok "True" then inr (VBool true)
  else if String.eqb tok "False" then inr (VBool false)
  else match tok with
       | EmptyString => inl SyntaxError
       | String c _ =>
           if is_name_start c then
             match st !! tok with
             | Some v => inr v
             | None => inl (NameError tok)
             end
           else match digits tok 0 with
                | Some z => inr (VInt z)
                | None => inl SyntaxError
                end
       end.

Definition as_int (v : value) : option Z :=
  match v with
  | VInt z => Some z
  | VBool b => Some (Z.b2z b)
  | _ => None
  end.

Definition eval_binop (op : string) (x y : value) : failure + value :=
  match as_int x, as_int y with
  | Some a, Some b =>
      if String.eqb op "+" then inr (VInt (a + b))
      else if String.eqb op "-" then inr (VInt (a - b))
      else if String.eqb op "*" then inr (VInt (a * b))
      else if String.eqb op "//" then
        if Z.eqb b 0 then inl ZeroDivisionError else inr (VInt (a / b))
      else inl SyntaxError
  | _, _ => if String.eqb op "+" || String.eqb op "-" || String.eqb op "*"
               || String.eqb op "//"
            then inl TypeError else inl SyntaxError
  end.

Definition eval_expr (st : context) (formula : value) : failure + value :=
  match formula with
  | VStr src =>
      match words src with
      | [a] => eval_atom st a
      | [a; op; b] =>
          match eval_atom st a with
          | inl e => inl e
          | inr x =>
              match eval_atom st b with
              | inl e => inl e
              | inr y => eval_binop op x y
              end
          end
      | _ => inl SyntaxError
      end
  | _ => inl SyntaxError
  end.

(** [Interpreter.__call__]: with [raise_errors] unset, the way the
    evaluators call it, asteval records and prints an error and the call
    returns [None]; with [raise_errors] set, the error is raised. *)
Definition asteval_call (raise_errors : bool) (st : context) (formula : value)
  : result value :=
  match eval_expr st formula with
  | inr v => Ok v
  | inl e => if raise_errors then Raise (exn_of_failure e) else Ok VNone
  end.

Definition asteval (raise_errors : bool) : Interpreter :=
  pure_interp (asteval_call raise_errors).

(** A field given by its id and its other entries. *)
Definition mk_field (i : string) (attrs : list (string * value)) : field :=
  Field (Some i) (list_to_map attrs).

Definition calc_field (i formula : string) : field :=
  mk_field i [("source", VStr "calc"); ("formula", VStr formula)].

Definition user_field (i : string) (dflt : value) : field :=
  mk_field i [("source", VStr "user"); ("default", dflt)].

(** ** Notions used to state the properties *)

(** The test that selects the fields to seed: [is_user None] is
    ScenarioBuilder's [field.get("source") == "user"], [is_user (Some d)] is
    [field.get("source", d) == "user"]. *)
Definition is_user (dflt : option value) (f : field) : bool :=
  match dflt with
  | None => py_eq (get f "source") (VStr "user")
  | Some d => py_eq (get_or f "source" d) (VStr "user")
  end.

(** Both seeding loops, by their test. *)
Fixpoint seed_with (dflt : option value) (fields : list field)
    (ctx : context) : result context :=
  match fields with
  | [] => Ok ctx
  | f :: rest =>
      if is_user dflt f then
        i ← getitem_id f;
        if ctx_mem ctx i then seed_with dflt rest ctx
        else seed_with dflt rest (<[i := get f "default"]> ctx)
      else seed_with dflt rest ctx
  end.

(** The default the seeding loop gives to a key absent from the context: the
    one of the first selected field with that id. *)
Fixpoint first_default (dflt : option value) (fields : list field)
    (k : string) : option value :=
  match fields with
  | [] => None
  | f :: rest =>
      if is_user dflt f && bool_decide (field_id f = Some k)
      then Some (get f "default")
      else first_default dflt rest k
  end.

(** The test that selects the fields a pass evaluates:
    [field.get("source") == "calc" and "formula" in field]. *)
Definition is_calc (f : field) : bool :=
  py_eq (get f "source") (VStr "calc") && has_key f "formula".


(** [reaches fields ctx0 k engine ctx]: an evaluation that seeded the context
    [ctx0] has run [k] passes, each of which changed a value, and is about to
    start the next one with the interpreter [engine] and the context [ctx]. *)
Inductive reaches `{Interpreter} (fields : list field) (ctx0 : context)
  : nat -> symtable -> context -> Prop :=
  | reaches_start : reaches fields ctx0 0 interp_new ctx0
  | reaches_pass k engine ctx engine' ctx' :
      reaches fields ctx0 k engine ctx ->
      ScenarioBuilder.one_pass fields engine ctx = Ok (engine', ctx', true) ->
      reaches fields ctx0 (S k) engine' ctx'.

(** The same for TemplateRenderer, whose pass is written out in its loop:
    the symbol table is updated from the context and the calc fields are
    evaluated in list order, starting with [changed = False]. *)
Inductive renderer_reaches `{Interpreter} (fields : list field)
    (ctx0 : context) : nat -> symtable -> context -> Prop :=
  | renderer_reaches_start : renderer_reaches fields ctx0 0 interp_new ctx0
  | renderer_reaches_pass k engine ctx engine' ctx' :
      renderer_reaches fields ctx0 k engine ctx ->
      TemplateRenderer.calc_loop fields (interp_update ctx engine) ctx false
      = Ok (engine', ctx', true) ->
      renderer_reaches fields ctx0 (S k) engine' ctx'.


(** The field that the loop over [use_fields] appends for the catalogue
    entry [g] and the override map [ov] of its id. *)
Definition sourced_field (g : field) (ov : gmap string value) : field :=
  setitem (ScenarioBuilder.apply_overrides ["unit"; "default"] ov g)
          "source" (VStr "user").


(** ** Objects and references

    The embedding above takes dictionaries and lists as values.  Whether a
    function changes an object that its caller holds is a matter of references:
    this second embedding of the same two functions keeps every dictionary
    and list as an object of a store, and a container holds references to the
    containers in it.  Objects that a function creates and never hands out
    (the catalogue index [gmap], the [[]] and [{}] defaults of [.get]) stay
    values.  Ids are strings, as in the data model. *)

Module Store.

Definition loc : Type := positive.

Inductive pyval : Type :=
  | PNone
  | PBool (b : bool)
  | PInt (z : Z)
  | PStr (s : string)
  | PRef (l : loc).

Inductive obj : Type :=
  | ODict (entries : gmap string pyval)
  | OList (items : list pyval).

Abbreviation heap := (gmap loc obj).

Definition TypeError : exn := Exn "TypeError" [].

(** A computation on the store: it returns or raises, and leaves a store
    either way. *)
Definition M (A : Type) : Type := heap -> result A * heap.

Definition ret {A} (a : A) : M A := fun h => (Ok a, h).
Definition raise {A} (e : exn) : M A := fun h => (Raise e, h).
Definition bind {A B} (m : M A) (k : A -> M B) : M B := fun h =>
  match m h with
  | (Ok a, h') => k a h'
  | (Raise e, h') => (Raise e, h')
  end.

Notation "'let*' x := m 'in' k" := (bind m (fun x => k))
  (at level 10, x name, m at level 100, k at level 200).
Notation "'exec' m 'in' k" := (bind m (fun _ => k))
  (at level 10, m at level 100, k at level 200).

(** A new object. *)
Definition new (o : obj) : M loc := fun h =>
  let l := fresh (dom h) in (Ok l, <[l := o]> h).

(** The entries of the dictionary that [v] refers to. *)
Definition dict_entries (v : pyval) : M (gmap string pyval) := fun h =>
  match v with
  | PRef l =>
      match h !! l with
      | Some (ODict m) => (Ok m, h)
      | _ => (Raise TypeError, h)
      end
  | _ => (Raise TypeError, h)
  end.

(** The items of the list that [v] refers to. *)
Definition list_items (v : pyval) : M (list pyval) := fun h =>
  match v with
  | PRef l =>
      match h !! l with
      | Some (OList xs) => (Ok xs, h)
      | _ => (Raise TypeError, h)
      end
  | _ => (Raise TypeError, h)
  end.

(** [d.get(key)] and [d.get(key, dflt)] *)
Definition dict_get (d : pyval) (key : string) (dflt : pyval) : M pyval :=
  let* m := dict_entries d in ret (default dflt (m !! key)).

(** [d[key]] *)
Definition dict_getitem (d : pyval) (key : string) : M pyval :=
  let* m := dict_entries d in
  match m !! key with
  | Some v => ret v
  | None => raise (KeyError key)
  end.

(** [d[key] = v] on the dictionary at [l] *)
Definition dict_setitem (l : loc) (key : string) (v : pyval) : M unit :=
  let* m := dict_entries (PRef l) in
  fun h => (Ok tt, <[l := ODict (<[key := v]> m)]> h).

(** [xs.extend(ys)] on the list at [l]; [xs.append(y)] is [extend] of [[y]] *)
Definition list_extend (l : loc) (ys : list pyval) : M unit :=
  let* xs := list_items (PRef l) in
  fun h => (Ok tt, <[l := OList (xs ++ ys)]> h).

(** [cfg.get(key, [])], iterated: the items of the list, none when the key
    is absent. *)
Definition cfg_list (cfg : pyval) (key : string) : M (list pyval) :=
  let* m := dict_entries cfg in
  match m !! key with
  | Some v => list_items v
  | None => ret []
  end.

(** [cfg.get(key, {})], read: the entries of the dictionary, none when the
    key is absent. *)
Definition cfg_dict (cfg : pyval) (key : string) : M (gmap string pyval) :=
  let* m := dict_entries cfg in
  match m !! key with
  | Some v => dict_entries v
  | None => ret ∅
  end.

(** A value used as an id. *)
Definition as_id (v : pyval) : M string :=
  match v with
  | PStr s => ret s
  | _ => raise TypeError
  end.

(** [a == b] for a string [b] *)
Definition eq_str (a : pyval) (b : string) : bool :=
  match a with
  | PStr s => String.eqb s b
  | _ => false
  end.

(** [a != b]: scalars by value, containers by their contents, to the depth
    [fuel]. *)
Fixpoint differs (fuel : nat) (h : heap) (a b : pyval) : bool :=
  match a, b with
  | PNone, PNone => false
  | PBool x, PBool y => negb (Bool.eqb x y)
  | PBool x, PInt y => negb (Z.eqb (Z.b2z x) y)
  | PInt x, PBool y => negb (Z.eqb x (Z.b2z y))
  | PInt x, PInt y => negb (Z.eqb x y)
  | PStr x, PStr y => negb (String.eqb x y)
  | PRef l1, PRef l2 =>
      if Pos.eqb l1 l2 then false
      else match fuel with
           | O => true
           | S fuel' =>
               match h !! l1, h !! l2 with
               | Some (OList xs), Some (OList ys) =>
                   negb (Nat.eqb (length xs) (length ys)) ||
                   existsb (fun p => differs fuel' h (fst p) (snd p))
                           (zip xs ys)
               | Some (ODict m1), Some (ODict m2) =>
                   negb (Nat.eqb (size m1) (size m2)) ||
                   existsb (fun p => match m2 !! fst p with
                                     | Some w => differs fuel' h (snd p) w
                                     | None => true
                                     end)
                           (map_to_list m1)
               | _, _ => true
               end
           end
  | _, _ => true
  end.

(** [a != b] in the store [h]; a value without cycles is no deeper than the
    store has objects. *)
Definition py_ne (h : heap) (a b : pyval) : bool := differs (size h) h a b.

(** *** _merge_fields *)

(** [gmap = {field["id"]: field for field in ...}] *)
Fixpoint build_gmap (fields : list pyval) (gm : gmap string pyval)
  : M (gmap string pyval) :=
  match fields with
  | [] => ret gm
  | f :: rest =>
      let* i := dict_getitem f "id" in
      let* i := as_id i in
      build_gmap rest (<[i := f]> gm)
  end.

(** [for key in keys: if key in overrides: base[key] = overrides[key]] *)
Fixpoint apply_overrides (keys : list string) (ov : gmap string pyval)
    (base : loc) : M unit :=
  match keys with
  | [] => ret tt
  | key :: rest =>
      match ov !! key with
      | Some v => exec dict_setitem base key v in apply_overrides rest ov base
      | None => apply_overrides rest ov base
      end
  end.

(** The loop over [use_fields]. *)
Fixpoint merge_loop (gm : gmap string pyval) (scenario_cfg : pyval)
    (merged : loc) (ids : list pyval) : M unit :=
  match ids with
  | [] => ret tt
  | field_id :: rest =>
      let* field_id := as_id field_id in
      match gm !! field_id with
      | None => raise (KeyError field_id)
      | Some g =>
          let* entries := dict_entries g in
          let* base := new (ODict entries) in
          let* ovs := cfg_dict scenario_cfg "overrides" in
          let* ov := match ovs !! field_id with
                | Some o => dict_entries o
                | None => ret ∅
                end in
          exec apply_overrides ["unit"; "default"] ov base in
          exec dict_setitem base "source" (PStr "user") in
          exec list_extend merged [PRef base] in
          merge_loop gm scenario_cfg merged rest
      end
  end.

Definition merge_fields (globals_cfg scenario_cfg : pyval) : M loc :=
  let* gfields := cfg_list globals_cfg "fields" in
  let* gm := build_gmap gfields ∅ in
  let* merged := new (OList []) in
  let* ids := cfg_list scenario_cfg "use_fields" in
  exec merge_loop gm scenario_cfg merged ids in
  let* sfields := cfg_list scenario_cfg "fields" in
  exec list_extend merged sfields in
  ret merged.

(** *** _compute_values *)

(** The interpreter, whose calls work on the store. *)
Class Interpreter : Type := {
  symtable : Type;
  interp_new : symtable;
  interp_update : gmap string pyval -> symtable -> symtable;
  interp_call : pyval -> symtable -> heap -> result pyval * symtable * heap;
}.

Section Evaluate.
Context `{Interpreter}.

(** The seeding loop. *)
Fixpoint seed (fields : list pyval) (ctx : loc) : M unit :=
  match fields with
  | [] => ret tt
  | f :: rest =>
      let* source := dict_get f "source" PNone in
      if eq_str source "user" then
        let* i := dict_getitem f "id" in
        let* i := as_id i in
        let* entries := dict_entries (PRef ctx) in
        match entries !! i with
        | Some _ => seed rest ctx
        | None =>
            let* dflt := dict_get f "default" PNone in
            exec dict_setitem ctx i dflt in
            seed rest ctx
        end
      else seed rest ctx
  end.

(** The inner loop of one pass. *)
Fixpoint calc_loop (fields : list pyval) (ctx : loc) (engine : symtable)
    (changed : bool) : M (symtable * bool) :=
  match fields with
  | [] => ret (engine, changed)
  | f :: rest =>
      let* source := dict_get f "source" PNone in
      let* entries := dict_entries f in
      if eq_str source "calc" && bool_decide (is_Some (entries !! "formula"))
      then
        let* formula := dict_getitem f "formula" in
        let* r := (fun h => let '(r, engine', h') := interp_call formula engine h
                       in (Ok (r, engine'), h')) in
        let (r, engine') := r : result pyval * symtable in
        match r with
        | Raise e => raise e
        | Ok value =>
            let* i := dict_getitem f "id" in
            let* i := as_id i in
            let* old := dict_get (PRef ctx) i PNone in
            let* ne := (fun h => (Ok (py_ne h old value), h)) in
            if ne : bool
            then exec dict_setitem ctx i value in calc_loop rest ctx engine' true
            else calc_loop rest ctx engine' changed
        end
      else calc_loop rest ctx engine changed
  end.

(** [for _ in range(budget)] *)
Fixpoint iterate (budget : nat) (fields : list pyval) (ctx : loc)
    (engine : symtable) : M unit :=
  match budget with
  | O => ret tt
  | S budget' =>
      let* entries := dict_entries (PRef ctx) in
      let* r := calc_loop fields ctx (interp_update entries engine) false in
      let (engine', changed) := r : symtable * bool in
      if negb changed then ret tt
      else iterate budget' fields ctx engine'
  end.

Definition compute_values (fields inputs : pyval) : M loc :=
  let* entries := dict_entries inputs in
  let* ctx := new (ODict entries) in
  let* items := list_items fields in
  exec seed items ctx in
  exec iterate 8 items ctx interp_new in
  ret ctx.

End Evaluate.

End Store.


(** Every object of the store [h] is in the store [h'], as it was. *)
Definition preserved (h h' : Store.heap) : Prop :=
  forall l o, h !! l = Some o -> h' !! l = Some o.

(** The computation [m], run in any store that has the objects of [h0] as
    they are in [h0], leaves them so, and what it returns satisfies [P]. *)
Definition frames {A} (h0 : Store.heap) (m : Store.M A) (P : A -> Prop)
  : Prop :=
  forall h, preserved h0 h ->
    preserved h0 (snd (m h)) /\ forall a, fst (m h) = Ok a -> P a.

(** A fragment of asteval on the store: a formula that is a name evaluates
    to the value of the name, and to [None] when the name is undefined. *)
Definition name_interp : Store.Interpreter :=
  {| Store.symtable := gmap string Store.pyval;
     Store.interp_new := ∅;
     Store.interp_update ctx st := ctx ∪ st;
     Store.interp_call formula st h :=
       match formula with
       | Store.PStr name => (Ok (default Store.PNone (st !! name)), st, h)
       | _ => (Ok Store.PNone, st, h)
       end |}.


(** The name [xs] of a formula [xs.append(0)]. *)
Fixpoint append_target (src : string) : option string :=
  if String.eqb src ".append(0)" then Some ""
  else match src with
       | EmptyString => None
       | String c rest => String c <$> append_target rest
       end.

(** The fragment extended with a method call: the formula [xs.append(0)], for
    a name [xs] that the symbol table binds to a list, appends 0 to that list
    and evaluates to [None], as [list.append] does. *)
Definition append_interp : Store.Interpreter :=
  {| Store.symtable := gmap string Store.pyval;
     Store.interp_new := ∅;
     Store.interp_update ctx st := ctx ∪ st;
     Store.interp_call formula st h :=
       match formula with
       | Store.PStr src =>
           match append_target src with
           | Some name =>
               match st !! name with
               | Some (Store.PRef l) =>
                   match h !! l with
                   | Some (Store.OList xs) =>
                       (Ok Store.PNone, st,
                        <[l := Store.OList (xs ++ [Store.PInt 0])]> h)
                   | _ => (Ok Store.PNone, st, h)
                   end
               | _ => (Ok Store.PNone, st, h)
               end
           | None => (Ok (default Store.PNone (st !! src)), st, h)
           end
       | _ => (Ok Store.PNone, st, h)
       end |}.

(** A store with a field list at 1 (a calc field [y] of formula
    [xs.append(0)] at 2) and an inputs mapping at 3 whose entry [xs] is the
    list at 4. *)
Definition aliasing_store : Store.heap :=
  list_to_map
    [(1%positive, Store.OList [Store.PRef 2%positive]);
     (2%positive, Store.ODict (list_to_map
        [("id", Store.PStr "y"); ("source", Store.PStr "calc");
         ("formula", Store.PStr "xs.append(0)")]));
     (3%positive, Store.ODict (list_to_map [("xs", Store.PRef 4%positive)]));
     (4%positive, Store.OList [Store.PInt 1])].

(** A store with a field list at 1 (a user field [x] at 2, a calc field [y]
    of formula [x] at 3), an inputs mapping at 4, a catalogue at 5 with its
    list of fields at 6, and a scenario at 7 with its [use_fields] at 8, its
    [overrides] at 9 and the override of [x] at 10. *)
Definition example_store : Store.heap :=
  list_to_map
    [(1%positive, Store.OList [Store.PRef 2%positive; Store.PRef 3%positive]);
     (2%positive, Store.ODict (list_to_map
        [("id", Store.PStr "x"); ("source", Store.PStr "user");
         ("default", Store.PInt 5)]));
     (3%positive, Store.ODict (list_to_map
        [("id", Store.PStr "y"); ("source", Store.PStr "calc");
         ("formula", Store.PStr "x")]));
     (4%positive, Store.ODict (list_to_map [("x", Store.PInt 7)]));
     (5%positive, Store.ODict (list_to_map [("fields", Store.PRef 6%positive)]));
     (6%positive, Store.OList [Store.PRef 2%positive]);
     (7%positive, Store.ODict (list_to_map
        [("use_fields", Store.PRef 8%positive); ("overrides", Store.PRef 9%positive)]));
     (8%positive, Store.OList [Store.PStr "x"]);
     (9%positive, Store.ODict (list_to_map [("x", Store.PRef 10%positive)]));
     (10%positive, Store.ODict (list_to_map [("default", Store.PInt 9)]))].

(** ** Presentation of a scenario (src/render_html/render.py)

    The rest of [ScenarioBuilder]: the label and the unit of a field, and
    [build], which merges, evaluates and prepares one output per field. *)

(** The truth value of a value, as [if] and [or] take it. *)
Definition truthy (v : value) : bool :=
  match v with
  | VNone => false
  | VBool b => b
  | VInt z => negb (Z.eqb z 0)
  | VStr s => negb (String.eqb s "")
  | VList items => negb (Nat.eqb (length items) 0)
  | VDict entries => negb (Nat.eqb (length entries) 0)
  end.

(** [s.replace("_", " ")] *)
Fixpoint replace_underscores (s : string) : string :=
  match s with
  | EmptyString => EmptyString
  | String c rest =>
      String (if Ascii.eqb c "_"%char then " "%char else c)
             (replace_underscores rest)
  end.

(** [str.title], on ASCII: a letter that follows a letter is put in lower
    case, any other letter in upper case.  A character that is no ASCII
    letter is kept and counts as uncased. *)
Definition is_upper (c : ascii) : bool :=
  let n := Ascii.nat_of_ascii c in Nat.leb 65 n && Nat.leb n 90.

Definition is_lower (c : ascii) : bool :=
  let n := Ascii.nat_of_ascii c in Nat.leb 97 n && Nat.leb n 122.

Definition to_upper (c : ascii) : ascii :=
  if is_lower c then Ascii.ascii_of_nat (Ascii.nat_of_ascii c - 32) else c.

Definition to_lower (c : ascii) : ascii :=
  if is_upper c then Ascii.ascii_of_nat (Ascii.nat_of_ascii c + 32) else c.

Fixpoint title_from (cased : bool) (s : string) : string :=
  match s with
  | EmptyString => EmptyString
  | String c rest =>
      String (if cased then to_lower c else to_upper c)
             (title_from (is_lower c || is_upper c) rest)
  end.

Definition str_title (s : string) : string := title_from false s.

(** Every character of [s] is an ASCII character. *)
Definition is_ascii (s : string) : bool :=
  forallb (fun c => Nat.ltb (Ascii.nat_of_ascii c) 128)
          (list_ascii_of_string s).

Definition DEFAULT_TITLE : string := "Bảng so sánh phương án tái tài trợ".

(** [type(v).__name__] *)
Definition type_name (v : value) : string :=
  match v with
  | VNone => "NoneType"
  | VBool _ => "bool"
  | VInt _ => "int"
  | VStr _ => "str"
  | VList _ => "list"
  | VDict _ => "dict"
  end.

(** The characters of a string in UTF-8: a byte with the bytes
    [10xxxxxx] that continue it. *)
Definition is_continuation (c : ascii) : bool :=
  let n := Ascii.nat_of_ascii c in Nat.leb 128 n && Nat.leb n 191.

Fixpoint utf8_chars (s : string) : list string :=
  match s with
  | EmptyString => []
  | String c rest =>
      let continued := match rest with
                       | String c' _ => is_continuation c'
                       | EmptyString => false
                       end in
      match utf8_chars rest with
      | ch :: chs =>
          if continued then String c ch :: chs
          else String c EmptyString :: ch :: chs
      | [] => [String c EmptyString]
      end
  end.

(** What [for x in v] goes through. *)
Definition iter_value (v : value) : result (list value) :=
  match v with
  | VList items => Ok items
  | VStr s => Ok (VStr <$> utf8_chars s)
  | VDict entries => Ok ((fun kv => VStr (fst kv)) <$> entries)
  | _ =>
      Raise (Exn "TypeError"
               [VStr ("'" ++ type_name v ++ "' object is not iterable")])
  end.

(** The scenario configuration as [build] reads it: the entries of the merge,
    and [.get("field_labels", {})], [.get("scenario_id")], the ["title"]
    entry when there is one, and the ["choices"] entry when there is one. *)
Record scenario_file : Type := ScenarioFile {
  sf_merge : scenario_cfg;
  sf_field_labels : gmap string value;
  sf_scenario_id : value;
  sf_title : option value;
  sf_choices : option value;
}.

Record FieldOutput : Type := MkFieldOutput {
  fo_id : string;
  fo_label : value;
  fo_type : value;
  fo_unit : value;
  fo_source : value;
  fo_value : value;
}.

Record ScenarioData : Type := MkScenarioData {
  sd_scenario_id : value;
  sd_title : value;
  sd_choices : list value;
  sd_fields : list FieldOutput;
  sd_values : context;
}.

(** [ScenarioBuilder._resolve_label] *)
Definition resolve_label (f : field) (gc : globals_cfg) (sc : scenario_file)
  : result value :=
  if truthy (get f "label") then Ok (get f "label")
  else
    i ← getitem_id f;
    match sf_field_labels sc !! i with
    | Some l => Ok l
    | None =>
        gm ← ScenarioBuilder.build_gmap (g_fields gc) ∅;
        match gm !! i with
        | Some g =>
            if truthy (get g "label") then Ok (get g "label")
            else Ok (VStr (str_title (replace_underscores i)))
        | None => Ok (VStr (str_title (replace_underscores i)))
        end
    end.

(** [ScenarioBuilder._resolve_unit], [units] being [self.units] *)
Definition resolve_unit (units : context) (f : field) : result value :=
  i ← getitem_id f;
  match units !! i with
  | Some u => Ok u
  | None => Ok (get f "unit")
  end.

(** [ScenarioBuilder._normalise_value] *)
Definition normalise_value (f : field) (v : value) (unit : value) : value := v.

Section Build.
Context `{Interpreter}.

(** The loop of [build] over the merged fields. *)
Fixpoint prepare_fields (units : context) (gc : globals_cfg)
    (sc : scenario_file) (values : context) (fields : list field)
  : result (list FieldOutput) :=
  match fields with
  | [] => Ok []
  | f :: rest =>
      unit ← resolve_unit units f;
      label ← resolve_label f gc sc;
      i ← getitem_id f;
      prepared ← prepare_fields units gc sc values rest;
      Ok (MkFieldOutput i label (get f "type") unit (get f "source")
            (normalise_value f (ctx_get values i) unit) :: prepared)
  end.

(** [ScenarioBuilder.build] on a new builder, the way
    [prepare_scenario_data] calls it: the four caches are [None], so that
    every [or] takes its right operand.  [gc] and [sc] are what [_load_json]
    reads; [inputs] and [units] are [self.inputs] and [self.units].  The
    fields are prepared first, and [list(scenario_cfg.get("choices", []))]
    is evaluated when the result is made. *)
Definition build (inputs units : context) (gc : globals_cfg)
    (sc : scenario_file) : result ScenarioData :=
  fields ← ScenarioBuilder.merge_fields gc (sf_merge sc);
  values ← ScenarioBuilder.compute_values fields inputs;
  prepared ← prepare_fields units gc sc values fields;
  choices ← iter_value (default (VList []) (sf_choices sc));
  Ok (MkScenarioData (sf_scenario_id sc)
        (default (VStr DEFAULT_TITLE) (sf_title sc))
        choices prepared values).

End Build.

(** ** The payload of a template (src/render_json/render_json_example.py)

    The rest of [TemplateRenderer]: the formatting of a value and the
    building of cells, rows, tables and inputs from the layout of a template
    configuration.  Python's floats are not values of the embedding: the
    operations that [_format_value] applies to them are an interface. *)
Class Floats : Type := {
  float : Type;
  (** [float(n)] for an integer; [None] stands for [OverflowError] *)
  float_of_int : Z -> option float;
  (** [float(s)] for a string; [None] stands for [ValueError] *)
  float_of_str : string -> option float;
  (** [round(x, 2)] *)
  round2 : float -> float;
  (** [x.is_integer()] *)
  is_integer : float -> bool;
  (** [x] is a NaN; [x] is an infinity *)
  is_nan : float -> bool;
  is_inf : float -> bool;
  (** [int(x)], for an [x] that is neither *)
  int_of_float : float -> Z;
  (** the text that the format [.2f] gives *)
  format2 : float -> string;
  (** [int(s)] for a string; [None] stands for [ValueError] *)
  int_of_str : string -> option Z;
}.

(** The outcome of a conversion under [except (TypeError, ValueError)]:
    converted, refused with one of the two errors, or failed with
    [OverflowError], which the handler lets through. *)
Inductive conv (A : Type) : Type :=
  | Converted (a : A)
  | Refused
  | Overflow.
Arguments Converted {A} a.
Arguments Refused {A}.
Arguments Overflow {A}.

Definition OverflowError : exn :=
  Exn "OverflowError" [VStr "int too large to convert to float"].

(** [int(x)] for an infinite float *)
Definition InfinityError : exn :=
  Exn "OverflowError" [VStr "cannot convert float infinity to integer"].

(** [TypeError] for a list or a dictionary used as a key. *)
Definition unhashable (v : value) : exn :=
  Exn "TypeError"
      [VStr match v with
            | VList _ => "unhashable type: 'list'"
            | _ => "unhashable type: 'dict'"
            end].

Definition hashable (v : value) : bool :=
  match v with
  | VList _ | VDict _ => false
  | _ => true
  end.

Definition is_None (v : value) : bool :=
  match v with
  | VNone => true
  | _ => false
  end.

(** [a or b] *)
Definition py_or (a b : value) : value := if truthy a then a else b.

(** [d.get(key)] and [d[key]] on a JSON object. *)
Definition dict_get (d : list (string * value)) (key : string) : value :=
  default VNone (assoc key d).

Definition dict_getitem (d : list (string * value)) (key : string)
  : result value :=
  match assoc key d with
  | Some v => Ok v
  | None => Raise (KeyError key)
  end.

(** [values.get(key)] for a key that is any value: the keys of the context
    are strings. *)
Definition values_get (values : context) (key : value) : result value :=
  match key with
  | VStr k => Ok (ctx_get values k)
  | VList _ | VDict _ => Raise (unhashable key)
  | _ => Ok VNone
  end.

(** A row of the layout: its entries other than ["cells"] and ["children"],
    the items of [.get("cells", {})], each a cell configuration under its
    column key, and the rows of [.get("children")], none when that entry is
    absent, [None] or empty. *)
Inductive row_cfg : Type :=
  RowCfg (row_attrs : list (string * value))
         (row_cells : list (string * list (string * value)))
         (row_children : list row_cfg).

(** A table of the layout: its entries other than ["col_defs"] and
    ["rows"], and those two lists, empty when absent. *)
Record table_cfg : Type := TableCfg {
  t_attrs : list (string * value);
  t_col_defs : list value;
  t_rows : list row_cfg;
}.

(** The template configuration as [build_payload] reads it:
    [.get("title")], [.get("currency")], [.get("fields", [])],
    [.get("inputs", [])], the ["notes"] entry when there is one, and of
    [.get("layout", {})] the tables and [.get("notes")]. *)
Record template_cfg : Type := TemplateCfg {
  c_title : value;
  c_currency : value;
  c_fields : list field;
  c_inputs : list (list (string * value));
  c_notes : option value;
  c_tables : list table_cfg;
  c_layout_notes : value;
}.

Module TemplatePayload.

Section Payload.
Context `{Floats}.

(** What [_format_value] takes and returns: a value, or a float. *)
Inductive fvalue : Type :=
  | FValue (v : value)
  | FFloat (x : float).

(** [float(value)] *)
Definition to_float (v : fvalue) : conv float :=
  match v with
  | FFloat x => Converted x
  | FValue (VBool b) =>
      match float_of_int (Z.b2z b) with
      | Some x => Converted x
      | None => Overflow
      end
  | FValue (VInt z) =>
      match float_of_int z with
      | Some x => Converted x
      | None => Overflow
      end
  | FValue (VStr s) =>
      match float_of_str s with
      | Some x => Converted x
      | None => Refused
      end
  | FValue VNone | FValue (VList _) | FValue (VDict _) => Refused
  end.

(** [int(value)]: a NaN is refused with [ValueError], an infinity fails with
    [OverflowError] *)
Definition to_int (v : fvalue) : conv Z :=
  match v with
  | FFloat x =>
      if is_nan x then Refused
      else if is_inf x then Overflow
      else Converted (int_of_float x)
  | FValue (VBool b) => Converted (Z.b2z b)
  | FValue (VInt z) => Converted z
  | FValue (VStr s) =>
      match int_of_str s with
      | Some z => Converted z
      | None => Refused
      end
  | FValue VNone | FValue (VList _) | FValue (VDict _) => Refused
  end.

(** [value is None] *)
Definition is_None_f (v : fvalue) : bool :=
  match v with
  | FValue v => is_None v
  | FFloat _ => false
  end.

(** [TemplateRenderer._format_value] *)
Definition format_value (v : fvalue) (fmt : value) : result fvalue :=
  if is_None_f v || is_None fmt then Ok v
  else if py_eq fmt (VStr "money") then
    match to_float v with
    | Refused => Ok v
    | Overflow => Raise OverflowError
    | Converted num =>
        let num := round2 num in
        if is_integer num then Ok (FValue (VInt (int_of_float num)))
        else Ok (FFloat num)
    end
  else if py_eq fmt (VStr "percent") then
    match to_float v with
    | Refused => Ok v
    | Overflow => Raise OverflowError
    | Converted num => Ok (FValue (VStr (format2 num ++ "%")))
    end
  else if py_eq fmt (VStr "percent_per_year") then
    match to_float v with
    | Refused => Ok v
    | Overflow => Raise OverflowError
    | Converted num => Ok (FValue (VStr (format2 num ++ "%/năm")))
    end
  else if py_eq fmt (VStr "integer") then
    match to_int v with
    | Converted z => Ok (FValue (VInt z))
    | Refused => Ok v
    | Overflow => Raise InfinityError
    end
  else Ok v.

(** [TemplateRenderer._resolve_extra_label]; [FValue VNone] is [None] *)
Definition resolve_extra_label (row_attrs : list (string * value))
    (values : context) : result fvalue :=
  match dict_get row_attrs "extra_label" with
  | VNone => Ok (FValue VNone)
  | VDict extra =>
      match assoc "field" extra with
      | Some fld =>
          v ← values_get values fld;
          format_value (FValue v) (dict_get extra "format")
      | None => Ok (FValue (dict_get extra "text"))
      end
  | extra => Ok (FValue extra)
  end.

Record cell : Type := Cell {
  cell_value : fvalue;
  cell_editable : value;
}.

(** [TemplateRenderer._build_cell] *)
Definition build_cell (cell_cfg : list (string * value)) (values : context)
  : result cell :=
  raw ← match assoc "field" cell_cfg with
        | Some fld => values_get values fld
        | None => Ok (dict_get cell_cfg "value")
        end;
  formatted ← format_value (FValue raw) (dict_get cell_cfg "format");
  Ok (Cell formatted (default (VBool false) (assoc "editable" cell_cfg))).

(** The loop of [_build_row] over the items of the cells. *)
Fixpoint build_cells (cells : list (string * list (string * value)))
    (values : context) : result (list (string * cell)) :=
  match cells with
  | [] => Ok []
  | (col_key, cell_cfg) :: rest =>
      c ← build_cell cell_cfg values;
      cs ← build_cells rest values;
      Ok ((col_key, c) :: cs)
  end.

(** A row of the payload; an entry that the dictionary may lack is an
    option. *)
Inductive row : Type :=
  Row (r_id : value) (r_label : value) (r_type : option value)
      (r_extra_label : option fvalue) (r_cells : list (string * cell))
      (r_children : option (list row)).

(** [TemplateRenderer._build_row] *)
Fixpoint build_row (cfg : row_cfg) (values : context) : result row :=
  match cfg with
  | RowCfg attrs cells children =>
      i ← dict_getitem attrs "id";
      let label := default (VStr "") (assoc "label" attrs) in
      let type := assoc "type" attrs in
      extra ← resolve_extra_label attrs values;
      let extra_label := match extra with
                         | FValue VNone => None
                         | _ => Some extra
                         end in
      cs ← build_cells cells values;
      kids ← match children with
             | [] => Ok None
             | _ =>
                 Some <$>
                 (fix rows (l : list row_cfg) : result (list row) :=
                    match l with
                    | [] => Ok []
                    | c :: l' =>
                        r ← build_row c values;
                        rs ← rows l';
                        Ok (r :: rs)
                    end) children
             end;
      Ok (Row i label type extra_label cs kids)
  end.

(** The loop of [_build_tables] over the rows of a table. *)
Fixpoint build_rows (rows : list row_cfg) (values : context)
  : result (list row) :=
  match rows with
  | [] => Ok []
  | cfg :: rest =>
      r ← build_row cfg values;
      rs ← build_rows rest values;
      Ok (r :: rs)
  end.

Record table : Type := Table {
  tb_id : value;
  tb_title : value;
  tb_rows : list row;
  tb_col_defs : option (list value);
  tb_note : option value;
}.

(** [self.table_ids is None or table_cfg.get("id") in self.table_ids] *)
Definition selected (table_ids : option (gset string)) (i : value)
  : result bool :=
  match table_ids with
  | None => Ok true
  | Some ids =>
      match i with
      | VStr s => Ok (bool_decide (s ∈ ids))
      | VList _ | VDict _ => Raise (unhashable i)
      | _ => Ok false
      end
  end.

(** [TemplateRenderer._build_tables], [table_ids] being [self.table_ids] *)
Fixpoint build_tables (table_ids : option (gset string))
    (tables : list table_cfg) (values : context) : result (list table) :=
  match tables with
  | [] => Ok []
  | t :: rest =>
      keep ← selected table_ids (dict_get (t_attrs t) "id");
      if keep : bool then
        i ← dict_getitem (t_attrs t) "id";
        let title := default (VStr "") (assoc "title" (t_attrs t)) in
        rows ← build_rows (t_rows t) values;
        let col_defs := match t_col_defs t with
                        | [] => None
                        | defs => Some defs
                        end in
        tbs ← build_tables table_ids rest values;
        Ok (Table i title rows col_defs (assoc "note" (t_attrs t)) :: tbs)
      else build_tables table_ids rest values
  end.

(** [inputs[key] = x] on a dictionary kept in insertion order *)
Fixpoint dict_set (d : list (value * fvalue)) (key : value) (x : fvalue)
  : list (value * fvalue) :=
  match d with
  | [] => [(key, x)]
  | (k, y) :: rest =>
      if py_eq k key then (k, x) :: rest else (k, y) :: dict_set rest key x
  end.

(** The loop of [_build_inputs]. *)
Fixpoint build_inputs_loop (items : list (list (string * value)))
    (values : context) (inputs : list (value * fvalue))
  : result (list (value * fvalue)) :=
  match items with
  | [] => Ok inputs
  | item :: rest =>
      let key := py_or (dict_get item "key") (dict_get item "id") in
      let field_id := py_or (dict_get item "field") (dict_get item "id") in
      v ← values_get values field_id;
      x ← format_value (FValue v) (dict_get item "format");
      if hashable key
      then build_inputs_loop rest values (dict_set inputs key x)
      else Raise (unhashable key)
  end.

(** [TemplateRenderer._build_inputs] *)
Definition build_inputs (config : template_cfg) (values : context)
  : result (list (value * fvalue)) :=
  build_inputs_loop (c_inputs config) values [].

Record payload : Type := Payload {
  p_title : value;
  p_currency : value;
  p_inputs : list (value * fvalue);
  p_tables : list table;
  p_notes : value;
}.

Context `{Interpreter}.

(** [TemplateRenderer.build_payload]: [config] is what [_load_config]
    returns, [table_ids] is [self.table_ids]; the renderer is returned as
    the call leaves it. *)
Definition build_payload (self : TemplateRenderer.renderer)
    (table_ids : option (gset string)) (config : template_cfg)
  : result (payload * TemplateRenderer.renderer) :=
  '(values, self') ← TemplateRenderer.compute_values self (c_fields config);
  inputs ← build_inputs config values;
  tables ← build_tables table_ids (c_tables config) values;
  Ok (Payload (c_title config) (c_currency config) inputs tables
        (py_or (c_layout_notes config) (default (VList []) (c_notes config))),
      self').

End Payload.

End TemplatePayload.

(** The ids of a row of the layout and of the rows below it, with the column
    keys of their cells, as a tree; and the same of a row of the payload. *)
Inductive skeleton : Type :=
  Skeleton (sk_id : option value) (sk_columns : list string)
           (sk_children : list skeleton).

Fixpoint cfg_skeleton (cfg : row_cfg) : skeleton :=
  match cfg with
  | RowCfg attrs cells children =>
      Skeleton (assoc "id" attrs) (map fst cells) (map cfg_skeleton children)
  end.

Fixpoint row_skeleton `{Floats} (r : TemplatePayload.row) : skeleton :=
  match r with
  | TemplatePayload.Row i _ _ _ cells children =>
      Skeleton (Some i) (map fst cells)
               match children with
               | Some rows => map row_skeleton rows
               | None => []
               end
  end.

(** The tables that a filter on ids keeps: those whose id is a string of the
    set. *)
Definition kept (ids : gset string) (t : table_cfg) : bool :=
  match dict_get (t_attrs t) "id" with
  | VStr s => bool_decide (s ∈ ids)
  | _ => false
  end.

(** [str(n)] for an integer *)
Definition str_of_int (z : Z) : string := NilZero.string_of_int (Z.to_int z).

(** An instance for the examples: floats with two decimal places, kept as
    their number of hundredths.  An integer converts when it is below
    [2 ^ 1024] in absolute value, a string when it is a decimal literal
    without sign or point. *)
Definition hundredths : Floats :=
  {| float := Z;
     float_of_int z :=
       if (Z.log2 (Z.abs z) <? 1024)%Z then Some (100 * z)%Z else None;
     float_of_str s :=
       match s with
       | EmptyString => None
       | _ => Z.mul 100 <$> digits s 0
       end;
     round2 x := x;
     is_integer x := (x mod 100 =? 0)%Z;
     is_nan x := false;
     is_inf x := false;
     int_of_float x := (x ÷ 100)%Z;
     format2 x :=
       ((if (x <? 0)%Z then "-" else "")
        ++ str_of_int (Z.abs x / 100) ++ "."
        ++ (if (Z.abs x mod 100 <? 10)%Z then "0" else "")
        ++ str_of_int (Z.abs x mod 100))%string;
     int_of_str s :=
       match s with
       | EmptyString => None
       | _ => digits s 0
       end |}.

(** ** Overrides of the command line (src/render_json/render_json_example.py)

    [_auto_cast] and [_parse_overrides].  The functions of Python's library
    that they call on strings, besides [float] and [int], are an
    interface. *)

(** The values of Python that a text of the command line can stand for:
    what [json.loads] and [_auto_cast] return. *)
Inductive jvalue `{Floats} : Type :=
  | JNone
  | JBool (b : bool)
  | JInt (z : Z)
  | JFloat (x : float)
  | JStr (s : string)
  | JList (items : list jvalue)
  | JDict (entries : list (string * jvalue)).

(** How a call of [json.loads] ends under [except json.JSONDecodeError]: with
    a value, with the error that the handler catches, or with another
    exception, which it lets through ([RecursionError] for a text nested too
    deep, the plain [ValueError] of an integer with too many digits). *)
Inductive loads `{Floats} : Type :=
  | Loaded (v : jvalue)
  | JSONDecodeError
  | LoadsError (e : exn).

Class Library `{Floats} : Type := {
  (** [json.loads(s)] *)
  json_loads : string -> loads;
  (** [s.strip()] *)
  strip : string -> string;
  (** [repr(s)] *)
  repr : string -> string;
}.

(** [s.lower()], on ASCII: this is enough to tell whether the result is
    "true" or "false", since no other character becomes one of their
    letters. *)
Fixpoint str_lower (s : string) : string :=
  match s with
  | EmptyString => EmptyString
  | String c rest => String (to_lower c) (str_lower rest)
  end.

(** [c in s] for a character [c] *)
Fixpoint contains (c : ascii) (s : string) : bool :=
  match s with
  | EmptyString => false
  | String c' rest => Ascii.eqb c' c || contains c rest
  end.

(** The two parts of [s.split(c, 1)] for an [s] that contains [c]: what is
    before the first [c] and what is after it. *)
Fixpoint split_once (c : ascii) (s : string) : string * string :=
  match s with
  | EmptyString => (EmptyString, EmptyString)
  | String c' rest =>
      if Ascii.eqb c' c then (EmptyString, rest)
      else let (before, after) := split_once c rest in
           (String c' before, after)
  end.

Module Overrides.

Section Overrides.
Context `{Library}.

(** The first [try] of [_auto_cast]: [float(value)] for a text with a ".",
    [int(value)] otherwise; [None] stands for [ValueError]. *)
Definition read_number (value : string) : option jvalue :=
  if contains "."%char value then JFloat <$> float_of_str value
  else JInt <$> int_of_str value.

(** [_auto_cast] *)
Definition auto_cast (value : string) : result jvalue :=
  let lowered := str_lower value in
  if String.eqb lowered "true" || String.eqb lowered "false"
  then Ok (JBool (String.eqb lowered "true"))
  else
    match read_number value with
    | Some number => Ok number
    | None =>
        match json_loads value with
        | Loaded v => Ok v
        | JSONDecodeError => Ok (JStr value)
        | LoadsError e => Raise e
        end
    end.

Definition ValueError (item : string) : exn :=
  Exn "ValueError"
      [VStr ("Override must be in key=value format (got " ++ repr item ++ ")")].

(** The loop of [_parse_overrides]. *)
Fixpoint parse_loop (pairs : list string) (overrides : gmap string jvalue)
  : result (gmap string jvalue) :=
  match pairs with
  | [] => Ok overrides
  | item :: rest =>
      if negb (contains "="%char item) then Raise (ValueError item)
      else
        let (key, raw_value) := split_once "="%char item in
        v ← auto_cast (strip raw_value);
        parse_loop rest (<[strip key := v]> overrides)
  end.

(** [_parse_overrides] *)
Definition parse_overrides (pairs : list string)
  : result (gmap string jvalue) :=
  parse_loop pairs ∅.

End Overrides.

End Overrides.

(** For the examples: the ASCII part of [str.strip], a [repr] for strings
    without quotes or escapes, and a [json.loads] that refuses every text. *)
Definition is_space (c : ascii) : bool :=
  let n := Ascii.nat_of_ascii c in
  (Nat.leb 9 n && Nat.leb n 13) || (Nat.leb 28 n && Nat.leb n 32).

Fixpoint lstrip (s : string) : string :=
  match s with
  | EmptyString => EmptyString
  | String c rest => if is_space c then lstrip rest else s
  end.

Fixpoint rstrip (s : string) : string :=
  match s with
  | EmptyString => EmptyString
  | String c rest =>
      match rstrip rest with
      | EmptyString => if is_space c then EmptyString else String c EmptyString
      | kept => String c kept
      end
  end.

Definition ascii_library : Library (H := hundredths) :=
  {| json_loads _ := JSONDecodeError;
     strip s := rstrip (lstrip s);
     repr s := ("'" ++ s ++ "'")%string |}.

(** The ["extra_label"] entry of a row of the payload, when it has one. *)
Definition row_extra_label `{Floats} (r : TemplatePayload.row)
  : option TemplatePayload.fvalue :=
  match r with
  | TemplatePayload.Row _ _ _ extra _ _ => extra
  end.

(** ** The HTML preview (src/render_json/render_to_html.py)

    The functions that turn a payload into HTML.  [str] of a float and of a
    list or dictionary are an interface. *)
Class Printer `{Floats} : Type := {
  (** [str(x)] for a float *)
  str_float : float -> string;
  (** [str(v)] for a list or a dictionary *)
  str_container : value -> string;
}.

(** The double quote, as a string. *)
Definition dq : string := String (Ascii.ascii_of_nat 34) EmptyString.

(** [html.escape(s)] *)
Fixpoint html_escape (s : string) : string :=
  match s with
  | EmptyString => EmptyString
  | String c rest =>
      ((if Ascii.eqb c "&" then "&amp;"
        else if Ascii.eqb c "<" then "&lt;"
        else if Ascii.eqb c ">" then "&gt;"
        else if Ascii.eqb c (Ascii.ascii_of_nat 34) then "&quot;"
        else if Ascii.eqb c "'" then "&#x27;"
        else String c EmptyString) ++ html_escape rest)%string
  end.

(** [sep.join(parts)] *)
Fixpoint join (sep : string) (parts : list string) : string :=
  match parts with
  | [] => EmptyString
  | [p] => p
  | p :: rest => (p ++ sep ++ join sep rest)%string
  end.

(** [v.attr] for a value without that attribute *)
Definition AttributeError (v : value) (attr : string) : exn :=
  Exn "AttributeError"
      [VStr ("'" ++ type_name v ++ "' object has no attribute '" ++ attr
             ++ "'")].

(** [html.escape(v)] for any value: it calls [v.replace] *)
Definition escape_value (v : value) : result string :=
  match v with
  | VStr s => Ok (html_escape s)
  | _ => Raise (AttributeError v "replace")
  end.

Module HtmlPreview.

Section HtmlPreview.
Context `{Printer}.
Import TemplatePayload.

(** [str(x)] *)
Definition py_str (x : fvalue) : string :=
  match x with
  | FValue VNone => "None"
  | FValue (VBool b) => if b then "True" else "False"
  | FValue (VInt z) => str_of_int z
  | FValue (VStr s) => s
  | FValue v => str_container v
  | FFloat f => str_float f
  end.

(** [_render_cell]; [None] is the empty dictionary that stands for a
    missing cell. *)
Definition render_cell (cell_cfg : option cell) : string :=
  let value := match cell_cfg with
               | Some c => cell_value c
               | None => FValue VNone
               end in
  let display := match value with
                 | FValue VNone => EmptyString
                 | _ => html_escape (py_str value)
                 end in
  let editable := match cell_cfg with
                  | Some c => cell_editable c
                  | None => VBool false
                  end in
  let classes := ["value-cell"]
                 ++ (if negb (truthy editable) then ["readonly"] else []) in
  ("<td class=" ++ dq ++ join " " classes ++ dq ++ ">" ++ display
   ++ "</td>")%string.

(** [cells.get(key, {})] for a key that is any value *)
Definition cell_for (cells : list (string * cell)) (key : value)
  : result (option cell) :=
  match key with
  | VStr k => Ok (assoc k cells)
  | VList _ | VDict _ => Raise (unhashable key)
  | _ => Ok None
  end.

(** [col.get(key, dflt)] for a column definition that is any value *)
Definition col_get (col : value) (key : string) (dflt : value)
  : result value :=
  match col with
  | VDict entries => Ok (default dflt (assoc key entries))
  | _ => Raise (AttributeError col "get")
  end.

(** The loop of [_render_row] over the column definitions. *)
Fixpoint render_cells (cells : list (string * cell)) (col_defs : list value)
  : result (list string) :=
  match col_defs with
  | [] => Ok []
  | col :: rest =>
      key ← col_get col "key" (VStr "");
      cell_cfg ← cell_for cells key;
      htmls ← render_cells cells rest;
      Ok (render_cell cell_cfg :: htmls)
  end.

(** The [row_html] of [_render_row]: the row itself, without its
    children. *)
Definition row_html (r : row) (col_defs : list value) (depth : nat)
  : result string :=
  match r with
  | Row _ label type extra cells _ =>
      let row_type := default VNone type in
      let classes :=
        ["row"]
        ++ (if py_eq row_type (VStr "label") then ["row-label"] else [])
        ++ (if py_eq row_type (VStr "total") then ["row-total"] else []) in
      let indent_px := (depth * 18)%nat in
      label_html ← escape_value label;
      let label_parts :=
        [label_html]
        ++ match extra with
           | Some x =>
               [("<span class='extra-label'>" ++ html_escape (py_str x)
                 ++ "</span>")%string]
           | None => []
           end in
      cells_html ← match col_defs with
                   | [] => Ok [render_cell (assoc "main" cells)]
                   | _ => render_cells cells col_defs
                   end;
      Ok ("<tr class=" ++ dq ++ join " " classes ++ dq ++ ">"
          ++ "<th style='padding-left:" ++ str_of_int (Z.of_nat indent_px)
          ++ "px'>" ++ join " " label_parts ++ "</th>"
          ++ join "" cells_html ++ "</tr>")%string
  end.

(** [_render_row]; [col_defs] is empty when the table has none. *)
Fixpoint render_row (r : row) (col_defs : list value) (depth : nat)
  : result string :=
  match r with
  | Row _ _ _ _ _ children =>
      own ← row_html r col_defs depth;
      children_html ←
        match children with
        | Some rows =>
            (fix loop (l : list row) (children_html : string)
               : result string :=
               match l with
               | [] => Ok children_html
               | child :: l' =>
                   h ← render_row child col_defs (S depth);
                   loop l' (children_html ++ h)%string
               end) rows EmptyString
        | None => Ok EmptyString
        end;
      Ok (own ++ children_html)%string
  end.

(** [_render_table_headers] *)
Fixpoint header_cells (col_defs : list value) : result (list string) :=
  match col_defs with
  | [] => Ok []
  | col :: rest =>
      title ← col_get col "title" (VStr "");
      title ← escape_value title;
      subtitle ← col_get col "subtitle" VNone;
      subtitle_html ← (if truthy subtitle
                       then s ← escape_value subtitle;
                            Ok ("<div class='subtitle'>" ++ s ++ "</div>")%string
                       else Ok EmptyString);
      cells ← header_cells rest;
      Ok (("<th><div>" ++ title ++ subtitle_html ++ "</div></th>")%string
          :: cells)
  end.

Definition render_table_headers (col_defs : list value) : result string :=
  match col_defs with
  | [] =>
      Ok "<thead><tr><th class='col-label'>Hạng mục</th><th>Giá trị</th></tr></thead>"
  | _ =>
      cells ← header_cells col_defs;
      Ok ("<thead><tr>"
          ++ join "" ("<th class='col-label'>Hạng mục</th>" :: cells)
          ++ "</tr></thead>")%string
  end.

(** The rows of [_render_table], each at depth 0. *)
Fixpoint render_rows (rows : list row) (col_defs : list value)
  : result (list string) :=
  match rows with
  | [] => Ok []
  | r :: rest =>
      h ← render_row r col_defs 0;
      hs ← render_rows rest col_defs;
      Ok (h :: hs)
  end.

(** [_render_table] *)
Definition render_table (t : table) : result string :=
  let col_defs := default [] (tb_col_defs t) in
  headers_html ← render_table_headers col_defs;
  body_rows ← join "" <$> render_rows (tb_rows t) col_defs;
  note_html ← (if truthy (default VNone (tb_note t))
               then n ← escape_value (default VNone (tb_note t));
                    Ok ("<div class='table-note'>" ++ n ++ "</div>")%string
               else Ok EmptyString);
  title ← escape_value (tb_title t);
  Ok ("<section class='table-block'>" ++ "<h2>" ++ title ++ "</h2>"
      ++ "<table class='data-table'>" ++ headers_html
      ++ "<tbody>" ++ body_rows ++ "</tbody>" ++ "</table>" ++ note_html
      ++ "</section>")%string.

End HtmlPreview.

End HtmlPreview.

(** The rows of a tree of payload rows, each with its depth, parents before
    their children. *)
Fixpoint preorder `{Floats} (r : TemplatePayload.row) (depth : nat)
  : list (TemplatePayload.row * nat) :=
  match r with
  | TemplatePayload.Row _ _ _ _ _ children =>
      (r, depth)
      :: match children with
         | Some rows =>
             (fix below (l : list TemplatePayload.row) :=
                match l with
                | [] => []
                | child :: l' => preorder child (S depth) ++ below l'
                end) rows
         | None => []
         end
  end.

(** The [row_html] of a list of rows with their depths, one after the
    other. *)
Fixpoint rows_html `{Printer} (col_defs : list value)
    (rows : list (TemplatePayload.row * nat)) : result string :=
  match rows with
  | [] => Ok EmptyString
  | (r, depth) :: rest =>
      h ← HtmlPreview.row_html r col_defs depth;
      hs ← rows_html col_defs rest;
      Ok (h ++ hs)%string
  end.

(** None of the characters with which markup begins or ends is in [s]. *)
Definition markup_free (s : string) : Prop :=
  contains "<" s = false /\ contains ">" s = false /\
  contains (Ascii.ascii_of_nat 34) s = false /\ contains "'" s = false.

Module HtmlDocument.

Section HtmlDocument.
Context `{Printer}.
Import TemplatePayload.

(** [_render_inputs] *)
Definition render_inputs (inputs : list (value * fvalue)) : string :=
  match inputs with
  | [] => EmptyString
  | _ =>
      let rows :=
        (fun kv : value * fvalue =>
           ("<tr><th>" ++ html_escape (HtmlPreview.py_str (FValue (fst kv)))
            ++ "</th><td>" ++ html_escape (HtmlPreview.py_str (snd kv))
            ++ "</td></tr>")%string) <$> inputs in
      ("<section class='inputs'>" ++ "<h2>Thông số đầu vào</h2>"
       ++ "<table class='simple-table'>" ++ "<tbody>" ++ join "" rows
       ++ "</tbody>" ++ "</table>" ++ "</section>")%string
  end.

(** The items of [_render_notes]. *)
Fixpoint note_items (notes : list value) : result (list string) :=
  match notes with
  | [] => Ok []
  | note :: rest =>
      n ← escape_value note;
      items ← note_items rest;
      Ok (("<li>" ++ n ++ "</li>")%string :: items)
  end.

(** [_render_notes] *)
Definition render_notes (notes : value) : result string :=
  if negb (truthy notes) then Ok EmptyString
  else
    l ← iter_value notes;
    items ← note_items l;
    Ok ("<section class='notes'><h2>Ghi chú</h2><ul>" ++ join "" items
        ++ "</ul></section>")%string.

(** The loop of [_render_payload] over the tables. *)
Fixpoint render_tables (tables : list table) : result (list string) :=
  match tables with
  | [] => Ok []
  | t :: rest =>
      h ← HtmlPreview.render_table t;
      hs ← render_tables rest;
      Ok (h :: hs)
  end.

(** [_render_payload] on a payload of [build_payload]: it has the entries
    "title", "currency", "inputs", "tables" and "notes", and no "data", for
    which [_render_data_snapshot] returns the empty string. *)
Definition render_payload (p : payload) : result string :=
  title ← escape_value (p_title p);
  currency ← escape_value (p_currency p);
  let header := ("<header><h1>" ++ title ++ "</h1>"
                 ++ "<div class='currency'>Đơn vị: " ++ currency ++ "</div>"
                 ++ "</header>")%string in
  let inputs_html := render_inputs (p_inputs p) in
  let data_html := EmptyString in
  tables ← render_tables (p_tables p);
  notes ← render_notes (p_notes p);
  Ok (join ""
        (List.filter (fun s => negb (String.eqb s ""))
           ([header; inputs_html; data_html] ++ tables ++ [notes]))).

End HtmlDocument.

End HtmlDocument.

(** For the examples: the text of a float of [hundredths], and no more of
    the text of a list or dictionary than its brackets. *)
Definition hundredths_printer : Printer (H := hundredths) :=
  Build_Printer hundredths
    (fun x : Z =>
       ((if (x <? 0)%Z then "-" else "")
        ++ str_of_int (Z.abs x / 100) ++ "."
        ++ (if (Z.abs x mod 10 =? 0)%Z
            then str_of_int (Z.abs x mod 100 / 10)
            else (if (Z.abs x mod 100 <? 10)%Z then "0" else "")
                 ++ str_of_int (Z.abs x mod 100)))%string)
    (fun v => match v with
              | VList _ => "[...]"
              | _ => "{...}"
              end).

(** The last field of a list that has the id [k]. *)
Fixpoint last_with_id (fields : list field) (k : string) : option field :=
  match fields with
  | [] => None
  | f :: rest =>
      match last_with_id rest k with
      | Some g => Some g
      | None => if bool_decide (field_id f = Some k) then Some f else None
      end
  end.

(** * Properties *)

Import ScenarioBuilder.

(** ** Comparisons *)

Lemma py_eq_None_l (v : value) : py_eq VNone v = true <-> v = VNone.
Proof. destruct v; simpl; split; intros E; try done. Qed.


Lemma py_ne_None_l (v : value) : py_ne VNone v = true <-> v <> VNone.
Proof.
  unfold py_ne. rewrite negb_true_iff, <- not_true_iff_false.
  by rewrite py_eq_None_l.
Qed.

Lemma ctx_mem_true (ctx : context) (k : string) :
  ctx_mem ctx k = true <-> is_Some (ctx !! k).
Proof. unfold ctx_mem. by rewrite bool_decide_eq_true. Qed.

Lemma ctx_mem_false (ctx : context) (k : string) :
  ctx_mem ctx k = false <-> ctx !! k = None.
Proof.
  unfold ctx_mem. rewrite bool_decide_eq_false. symmetry. apply eq_None_not_Some.
Qed.

(** ** Seeding *)

Lemma seed_is_seed_with (fields : list field) (ctx : context) :
  seed fields ctx = seed_with None fields ctx.
Proof.
  revert ctx. induction fields as [|f rest IH]; intros ctx; simpl; [done|].
  destruct (py_eq _ _); [|apply IH].
  destruct (getitem_id f); simpl; [|done].
  destruct (ctx_mem ctx a); apply IH.
Qed.

Lemma TR_seed_is_seed_with (fields : list field) (ctx : context) :
  TemplateRenderer.seed fields ctx = seed_with (Some (VStr "user")) fields ctx.
Proof.
  revert ctx. induction fields as [|f rest IH]; intros ctx; simpl; [done|].
  destruct (py_eq _ _); [|apply IH].
  destruct (getitem_id f); simpl; [|done].
  destruct (ctx_mem ctx a); apply IH.
Qed.

Lemma seed_with_keeps dflt fields ctx ctx' k v :
  seed_with dflt fields ctx = Ok ctx' ->
  ctx !! k = Some v -> ctx' !! k = Some v.
Proof.
  revert ctx. induction fields as [|f rest IH]; intros ctx Hs Hk; simpl in Hs.
  - by injection Hs as <-.
  - destruct (is_user dflt f); [|by eapply IH].
    destruct (getitem_id f) as [i|]; simpl in Hs; [|done].
    destruct (ctx_mem ctx i) eqn:Hm; [by eapply IH|].
    eapply IH; [exact Hs|].
    apply ctx_mem_false in Hm.
    rewrite lookup_insert_ne; [done|]. intros ->. congruence.
Qed.

Lemma seed_with_origin dflt fields ctx ctx' k v :
  seed_with dflt fields ctx = Ok ctx' ->
  ctx !! k = None -> ctx' !! k = Some v ->
  exists f, f ∈ fields /\ is_user dflt f = true /\ field_id f = Some k
            /\ v = get f "default".
Proof.
  revert ctx. induction fields as [|f rest IH]; intros ctx Hs Hk Hv; simpl in Hs.
  - injection Hs as <-. congruence.
  - destruct (is_user dflt f) eqn:Hu.
    2:{ destruct (IH _ Hs Hk Hv) as (g & ? & ?). exists g. split; [by right|done]. }
    unfold getitem_id in Hs. destruct (field_id f) as [i|] eqn:Hi; simpl in Hs; [|done].
    destruct (ctx_mem ctx i) eqn:Hm.
    { destruct (IH _ Hs Hk Hv) as (g & ? & ?). exists g. split; [by right|done]. }
    destruct (decide (i = k)) as [->|Hne].
    + exists f. split; [by left|]. repeat split; try done.
      pose proof (seed_with_keeps _ _ _ _ k (get f "default") Hs) as Hkeep.
      rewrite lookup_insert_eq in Hkeep. specialize (Hkeep eq_refl). congruence.
    + rewrite <- (lookup_insert_ne ctx i k (get f "default")) in Hk by done.
      destruct (IH _ Hs Hk Hv) as (g & ? & ?). exists g. split; [by right|done].
Qed.

Lemma seed_with_lookup dflt fields ctx :
  (forall f, f ∈ fields -> is_user dflt f = true -> is_Some (field_id f)) ->
  exists ctx', seed_with dflt fields ctx = Ok ctx' /\
    forall k, ctx' !! k = match ctx !! k with
                          | Some v => Some v
                          | None => first_default dflt fields k
                          end.
Proof.
  revert ctx. induction fields as [|f rest IH]; intros ctx Hid; simpl.
  - exists ctx. split; [done|]. intros k. by destruct (ctx !! k).
  - assert (Hrest : forall g, g ∈ rest -> is_user dflt g = true -> is_Some (field_id g)).
    { intros g Hg. apply Hid. by right. }
    destruct (is_user dflt f) eqn:Hu; simpl; [|by apply IH].
    destruct (Hid f (list_elem_of_here _ _) Hu) as [i Hi].
    unfold getitem_id. rewrite Hi. simpl.
    destruct (ctx_mem ctx i) eqn:Hm.
    + destruct (IH ctx Hrest) as (ctx' & Hs & Hl). exists ctx'. split; [done|].
      intros k. rewrite Hl. destruct (ctx !! k) eqn:Hk; [done|].
      case_bool_decide as Hik; [|done].
      injection Hik as ->. apply ctx_mem_true in Hm. destruct Hm. congruence.
    + destruct (IH (<[i := get f "default"]> ctx) Hrest) as (ctx' & Hs & Hl).
      exists ctx'. split; [done|].
      intros k. rewrite Hl. apply ctx_mem_false in Hm.
      destruct (decide (i = k)) as [->|Hne].
      * rewrite lookup_insert_eq, Hm. by rewrite bool_decide_eq_true_2.
      * rewrite lookup_insert_ne by done.
        destruct (ctx !! k); [done|].
        rewrite bool_decide_eq_false_2; [done|congruence].
Qed.

(** ** Passes *)

Section Passes.
Context `{Interpreter}.

Lemma calc_loop_cons_skip f rest st ctx ch :
  is_calc f = false ->
  calc_loop (f :: rest) st ctx ch = calc_loop rest st ctx ch.
Proof. unfold is_calc. intros Hf. simpl. by rewrite Hf. Qed.

Lemma calc_loop_skip pre rest st ctx ch :
  Forall (fun g => is_calc g = false) pre ->
  calc_loop (pre ++ rest) st ctx ch = calc_loop rest st ctx ch.
Proof.
  induction 1 as [|g pre Hg _ IH]; [done|].
  rewrite <- app_comm_cons, calc_loop_cons_skip by done. apply IH.
Qed.

Lemma calc_loop_app pre rest st ctx ch :
  calc_loop (pre ++ rest) st ctx ch =
  '(st', ctx', ch') ← calc_loop pre st ctx ch; calc_loop rest st' ctx' ch'.
Proof.
  revert st ctx ch. induction pre as [|g pre IH]; intros st ctx ch; [done|].
  rewrite <- app_comm_cons. simpl.
  destruct (py_eq _ _ && has_key g "formula"); [|apply IH].
  destruct (interp_call _ st) as [[v|e] st']; simpl; [|done].
  destruct (getitem_id g) as [i|e]; simpl; [|done].
  destruct (py_ne _ v); apply IH.
Qed.

Lemma calc_loop_no_calc fields st ctx ch :
  Forall (fun g => py_eq (get g "source") (VStr "calc") = false) fields ->
  calc_loop fields st ctx ch = Ok (st, ctx, ch).
Proof.
  intros Hn. rewrite <- (app_nil_r fields), calc_loop_skip; [done|].
  eapply Forall_impl; [exact Hn|]. intros g Hg. unfold is_calc. by rewrite Hg.
Qed.

End Passes.

(** ** The claims about seeding *)

Lemma seed_with_first_default dflt fields ctx ctx' k :
  seed_with dflt fields ctx = Ok ctx' ->
  ctx' !! k = match ctx !! k with
              | Some v => Some v
              | None => first_default dflt fields k
              end.
Proof.
  revert ctx. induction fields as [|f rest IH]; intros ctx Hs;
    cbn [seed_with first_default] in *.
  - injection Hs as <-. by destruct (ctx !! k).
  - destruct (is_user dflt f) eqn:Hu; cbn [andb]; [|by apply IH].
    unfold getitem_id in Hs.
    destruct (field_id f) as [i|] eqn:Hi; cbn [mbind result_bind] in Hs;
      [|done].
    destruct (ctx_mem ctx i) eqn:Hm.
    + rewrite (IH _ Hs). apply ctx_mem_true in Hm as [w Hw].
      destruct (decide (i = k)) as [->|Hne]; [by rewrite Hw|].
      rewrite bool_decide_eq_false_2; [done|congruence].
    + rewrite (IH _ Hs). apply ctx_mem_false in Hm.
      destruct (decide (i = k)) as [->|Hne].
      * by rewrite lookup_insert_eq, Hm, bool_decide_eq_true_2.
      * rewrite lookup_insert_ne by done.
        rewrite bool_decide_eq_false_2; [done|congruence].
Qed.

(** C9. Inputs have priority over defaults.  Whenever the seeding loop of
    either evaluator ends, every id of the inputs mapping still has the value
    the inputs gave it; and an id that the inputs lacked holds the default of
    the first field of the list, in its order, that the evaluator takes for a
    user field and that carries this id, whatever user fields of the same id
    come later; it is absent from the context when there is no such field.  A
    default is thus written only for a user field whose id is not yet a key
    of the context. *)
Theorem seeding_keeps_inputs (fields : list field) (inputs ctx : context) :
  (ScenarioBuilder.seed fields inputs = Ok ctx ->
   (forall k v, inputs !! k = Some v -> ctx !! k = Some v) /\
   (forall k, inputs !! k = None ->
              ctx !! k = first_default None fields k)) /\
  (TemplateRenderer.seed fields inputs = Ok ctx ->
   (forall k v, inputs !! k = Some v -> ctx !! k = Some v) /\
   (forall k, inputs !! k = None ->
              ctx !! k = first_default (Some (VStr "user")) fields k)).
Proof.
  split.
  - rewrite seed_is_seed_with. intros Hs. split.
    + intros k v. by apply (seed_with_keeps None fields inputs ctx).
    + intros k Hk. by rewrite (seed_with_first_default _ _ _ _ k Hs), Hk.
  - rewrite TR_seed_is_seed_with. intros Hs. split.
    + intros k v.
      by apply (seed_with_keeps (Some (VStr "user")) fields inputs ctx).
    + intros k Hk. by rewrite (seed_with_first_default _ _ _ _ k Hs), Hk.
Qed.

Lemma seeding_keeps_inputs_witness :
  ScenarioBuilder.seed
    [user_field "rate" (VInt 5); user_field "months" (VInt 12);
     user_field "months" (VInt 24)]
    {["rate" := VInt 7]}
  = Ok {["rate" := VInt 7; "months" := VInt 12]} /\
  ({["rate" := VInt 7; "months" := VInt 12]} : context) !! "rate"
  = Some (VInt 7) /\
  ({["rate" := VInt 7; "months" := VInt 12]} : context) !! "months"
  = Some (VInt 12).
Proof.
  assert (Hs : ScenarioBuilder.seed
                 [user_field "rate" (VInt 5); user_field "months" (VInt 12);
                  user_field "months" (VInt 24)]
                 {["rate" := VInt 7]}
               = Ok {["rate" := VInt 7; "months" := VInt 12]})
    by (vm_compute; reflexivity).
  split; [exact Hs|].
  destruct (proj1 (seeding_keeps_inputs _ _ _) Hs) as [Hkeep Hnew].
  split.
  - apply (Hkeep "rate" (VInt 7)). vm_compute; reflexivity.
  - rewrite (Hnew "months"); vm_compute; reflexivity.
Defined.

(** C5. Without calculated fields the evaluation is the seeding.  For a field
    list in which no field has source "calc" (and in which every user field
    carries an id, as the data model requires), the evaluation runs a single
    pass, which changes nothing, and returns the inputs extended, for every id
    the inputs lack, with the default of the first user field of that id. *)
Theorem no_calc_single_pass `{Interpreter} (fields : list field)
    (inputs : context) :
  Forall (fun f => py_eq (get f "source") (VStr "calc") = false) fields ->
  (forall f, f ∈ fields -> py_eq (get f "source") (VStr "user") = true ->
             is_Some (field_id f)) ->
  exists ctx,
    ScenarioBuilder.compute_values_run fields inputs = Ok (Run ctx 1 true) /\
    ScenarioBuilder.compute_values fields inputs = Ok ctx /\
    forall k, ctx !! k = match inputs !! k with
                         | Some v => Some v
                         | None => first_default None fields k
                         end.
Proof.
  intros Hcalc Hid.
  destruct (seed_with_lookup None fields inputs Hid) as (ctx & Hs & Hl).
  exists ctx. rewrite <- seed_is_seed_with in Hs.
  assert (Hrun : compute_values_run fields inputs = Ok (Run ctx 1 true)).
  { unfold compute_values_run. rewrite Hs. simpl.
    unfold one_pass. by rewrite calc_loop_no_calc. }
  split; [exact Hrun|]. split; [|exact Hl].
  unfold compute_values. by rewrite Hrun.
Qed.

Lemma no_calc_single_pass_witness :
  exists ctx,
    ScenarioBuilder.compute_values_run (H := asteval false)
      [user_field "rate" (VInt 5); user_field "months" (VInt 12)]
      {["rate" := VInt 7]} = Ok (Run ctx 1 true) /\
    ctx !! "rate" = Some (VInt 7) /\ ctx !! "months" = Some (VInt 12).
Proof.
  destruct (no_calc_single_pass (H := asteval false)
              [user_field "rate" (VInt 5); user_field "months" (VInt 12)]
              {["rate" := VInt 7]}) as (ctx & Hrun & _ & Hl).
  - repeat constructor.
  - intros f Hin _.
    repeat (apply elem_of_cons in Hin as [->|Hin]; [by eexists|]).
    by apply elem_of_nil in Hin.
  - exists ctx. split; [exact Hrun|]. by rewrite !Hl.
Defined.

(** ** The two loops *)

Section TwoEvaluators.
Context `{Interpreter}.

Lemma TR_calc_loop_eq fields engine ctx changed :
  TemplateRenderer.calc_loop fields engine ctx changed
  = ScenarioBuilder.calc_loop fields engine ctx changed.
Proof.
  revert engine ctx changed.
  induction fields as [|f rest IH]; intros engine ctx changed; simpl; [done|].
  destruct (py_eq _ _ && has_key f "formula"); [|apply IH].
  destruct (interp_call _ engine) as [[v|e] engine']; simpl; [|done].
  destruct (getitem_id f) as [i|e]; simpl; [|done].
  destruct (py_ne _ v); apply IH.
Qed.

Lemma TR_iterate_eq budget fields engine ctx n :
  TemplateRenderer.iterate budget fields engine ctx n
  = ScenarioBuilder.iterate budget fields engine ctx n.
Proof.
  revert engine ctx n.
  induction budget as [|budget IH]; intros engine ctx n; simpl; [done|].
  unfold one_pass. rewrite TR_calc_loop_eq.
  destruct (calc_loop fields _ ctx false) as [[[engine' ctx'] changed]|e];
    simpl; [|done].
  destruct changed; simpl; [apply IH|done].
Qed.

Lemma is_user_explicit_source d f :
  has_key f "source" = true -> is_user (Some d) f = is_user None f.
Proof.
  unfold has_key, is_user, get_or, get. rewrite bool_decide_eq_true.
  by intros [v ->].
Qed.

Lemma seed_with_explicit_source d fields ctx :
  Forall (fun f => has_key f "source" = true) fields ->
  seed_with (Some d) fields ctx = seed_with None fields ctx.
Proof.
  intros Hall. revert ctx.
  induction Hall as [|f rest Hf _ IH]; intros ctx; cbn [seed_with]; [done|].
  rewrite (is_user_explicit_source d f Hf).
  destruct (is_user None f); [|apply IH].
  destruct (getitem_id f) as [i|e]; simpl; [|done].
  destruct (ctx_mem ctx i); apply IH.
Qed.

Lemma renderer_reaches_iff fields ctx0 k engine ctx :
  renderer_reaches fields ctx0 k engine ctx <-> reaches fields ctx0 k engine ctx.
Proof.
  split; induction 1 as [|k engine ctx engine' ctx' _ IH Hp]; try constructor.
  - apply (reaches_pass _ _ _ engine ctx); [exact IH|].
    unfold one_pass. by rewrite <- TR_calc_loop_eq.
  - apply (renderer_reaches_pass _ _ _ engine ctx); [exact IH|].
    by rewrite TR_calc_loop_eq.
Qed.

End TwoEvaluators.

(** ** The iteration *)

Section Iteration.
Context `{Interpreter}.
Variable fields : list field.
Variable ctx0 : context.

Lemma iterate_from_reached k engine ctx budget :
  reaches fields ctx0 k engine ctx ->
  iterate (k + budget) fields interp_new ctx0 0 = iterate budget fields engine ctx k.
Proof.
  intros Hr. revert budget.
  induction Hr as [|k engine ctx engine' ctx' _ IH Hp]; intros budget; [done|].
  replace (S k + budget) with (k + S budget) by lia.
  rewrite IH. simpl. by rewrite Hp.
Qed.

Lemma iterate_spec budget done engine ctx :
  reaches fields ctx0 done engine ctx ->
  match iterate budget fields engine ctx done with
  | Ok r =>
      done <= run_passes r <= done + budget /\
      (run_stable r = false -> run_passes r = done + budget) /\
      (0 < budget ->
       done < run_passes r /\
       exists engine1 ctx1 engine2,
         reaches fields ctx0 (pred (run_passes r)) engine1 ctx1 /\
         one_pass fields engine1 ctx1
         = Ok (engine2, run_ctx r, negb (run_stable r)))
  | Raise e =>
      exists k engine1 ctx1,
        done <= k < done + budget /\
        reaches fields ctx0 k engine1 ctx1 /\
        one_pass fields engine1 ctx1 = Raise e
  end.
Proof.
  revert done engine ctx.
  induction budget as [|budget IH]; intros done engine ctx Hr; simpl.
  - repeat split; try lia.
  - destruct (one_pass fields engine ctx) as [[[engine' ctx'] changed]|e] eqn:Hp;
      simpl.
    2:{ exists done, engine, ctx. repeat split; try done; lia. }
    destruct changed; simpl.
    + pose proof (reaches_pass _ _ _ _ _ _ _ Hr Hp) as Hr'.
      specialize (IH (S done) engine' ctx' Hr').
      destruct budget as [|budget].
      * simpl in *. repeat split; try lia.
        exists engine, ctx, engine'. by split.
      * destruct (iterate (S budget) fields engine' ctx' (S done)) as [r|e].
        -- destruct IH as (Hb & Hst & Hex). destruct Hex as [Hlt Hex]; [lia|].
           repeat split; try lia; try done.
           intros Hf. specialize (Hst Hf). lia.
        -- destruct IH as (k & engine1 & ctx1 & Hk & Hr1 & Hp1).
           exists k, engine1, ctx1. repeat split; try done; lia.
    + repeat split; try lia; try done.
      exists engine, ctx, engine'. by split.
Qed.

End Iteration.


(** ** Errors of the interpreter *)

(** C1, amended.  Neither evaluator handles an error of the interpreter: in
    ScenarioBuilder and in TemplateRenderer alike, whenever a call of the
    interpreter on the formula of a calc field raises, at whatever pass and
    field, that very exception ends the evaluation and reaches the caller as
    it is.  The interpreter as both evaluators create it raises nothing for a
    formula that fails: its call returns [None], and the loop of either
    evaluator goes on with [None] as the value of the field, which it writes
    when the context holds another value for the field. *)
Theorem interpreter_error_propagates :
  (forall `{Interpreter} fields inputs ctx0 k engine ctx pre f post
          engine1 ctx1 changed1 e engine2,
     ScenarioBuilder.seed fields inputs = Ok ctx0 ->
     reaches fields ctx0 k engine ctx -> k < 8 ->
     fields = pre ++ f :: post ->
     ScenarioBuilder.calc_loop pre (interp_update ctx engine) ctx false
     = Ok (engine1, ctx1, changed1) ->
     is_calc f = true ->
     interp_call (get f "formula") engine1 = (Raise e, engine2) ->
     ScenarioBuilder.compute_values fields inputs = Raise e) /\
  (forall `{Interpreter} fields inputs ctx0 k engine ctx pre f post
          engine1 ctx1 changed1 e engine2,
     TemplateRenderer.seed fields inputs = Ok ctx0 ->
     renderer_reaches fields ctx0 k engine ctx -> k < 8 ->
     fields = pre ++ f :: post ->
     TemplateRenderer.calc_loop pre (interp_update ctx engine) ctx false
     = Ok (engine1, ctx1, changed1) ->
     is_calc f = true ->
     interp_call (get f "formula") engine1 = (Raise e, engine2) ->
     TemplateRenderer.compute_values (TemplateRenderer.init inputs) fields
     = Raise e) /\
  (forall formula st,
     interp_call (Interpreter := asteval false) formula st
     = (Ok match eval_expr st formula with
           | inr v => v
           | inl _ => VNone
           end, st)) /\
  (forall f i rest st ctx changed err,
     is_calc f = true -> field_id f = Some i ->
     eval_expr st (get f "formula") = inl err ->
     ScenarioBuilder.calc_loop (H := asteval false) (f :: rest) st ctx changed
     = ScenarioBuilder.calc_loop (H := asteval false) rest st
         (if py_ne (ctx_get ctx i) VNone then <[i := VNone]> ctx else ctx)
         (py_ne (ctx_get ctx i) VNone || changed) /\
     TemplateRenderer.calc_loop (H := asteval false) (f :: rest) st ctx changed
     = TemplateRenderer.calc_loop (H := asteval false) rest st
         (if py_ne (ctx_get ctx i) VNone then <[i := VNone]> ctx else ctx)
         (py_ne (ctx_get ctx i) VNone || changed)).
Proof.
  split; [|split; [|split]].
  - intros I fields inputs ctx0 k engine ctx pre f post engine1 ctx1 changed1
      e engine2 Hs Hr Hk -> Hpre Hf Hcall.
    unfold compute_values, compute_values_run. rewrite Hs.
    change (Ok ctx0 ≫= _)
      with (iterate 8 (pre ++ f :: post) interp_new ctx0 0).
    replace 8 with (k + S (7 - k)) by lia.
    rewrite (iterate_from_reached _ _ _ _ _ _ Hr).
    simpl. unfold one_pass. rewrite calc_loop_app, Hpre. simpl.
    unfold is_calc in Hf. rewrite Hf, Hcall. done.
  - intros I fields inputs ctx0 k engine ctx pre f post engine1 ctx1 changed1
      e engine2 Hs Hr Hk -> Hpre Hf Hcall.
    unfold TemplateRenderer.compute_values.
    cbn [TemplateRenderer.init TemplateRenderer.r_values
         TemplateRenderer.r_overrides].
    rewrite Hs. change (Ok ctx0 ≫= ?g) with (g ctx0). cbv beta.
    rewrite TR_iterate_eq.
    apply renderer_reaches_iff in Hr. rewrite TR_calc_loop_eq in Hpre.
    replace 8 with (k + S (7 - k)) by lia.
    rewrite (iterate_from_reached _ _ _ _ _ _ Hr).
    simpl. unfold one_pass. rewrite calc_loop_app, Hpre. simpl.
    unfold is_calc in Hf. rewrite Hf, Hcall. done.
  - intros formula st. cbn [interp_call asteval pure_interp].
    unfold asteval_call. by destruct (eval_expr st formula).
  - intros f i rest st ctx changed err Hf Hi Herr.
    unfold is_calc in Hf.
    assert (Hcall : interp_call (Interpreter := asteval false)
                      (get f "formula") st = (Ok VNone, st)).
    { cbn [interp_call asteval pure_interp]. unfold asteval_call.
      by rewrite Herr. }
    assert (Hid : getitem_id f = Ok i) by (unfold getitem_id; by rewrite Hi).
    split.
    + cbn [calc_loop]. rewrite Hf, Hcall. cbn [mbind result_bind].
      rewrite Hid. cbn [mbind result_bind].
      by destruct (py_ne (ctx_get ctx i) VNone).
    + cbn [TemplateRenderer.calc_loop]. rewrite Hf, Hcall.
      cbn [mbind result_bind]. rewrite Hid. cbn [mbind result_bind].
      by destruct (py_ne (ctx_get ctx i) VNone).
Qed.

Lemma interpreter_error_propagates_witness :
  (ScenarioBuilder.compute_values (H := asteval true)
     [user_field "n" (VInt 0); calc_field "q" "1 // n"] ∅
   = Raise (Exn "ZeroDivisionError" []) /\
   TemplateRenderer.compute_values (H := asteval true)
     (TemplateRenderer.init ∅)
     [user_field "n" (VInt 0); calc_field "q" "1 // n"]
   = Raise (Exn "ZeroDivisionError" [])) /\
  ScenarioBuilder.calc_loop (H := asteval false)
    [calc_field "q" "1 // n"] {["n" := VInt 0]}
    {["n" := VInt 0; "q" := VInt 3]} false
  = ScenarioBuilder.calc_loop (H := asteval false) []
      {["n" := VInt 0]} {["n" := VInt 0; "q" := VNone]} true /\
  TemplateRenderer.calc_loop (H := asteval false)
    [calc_field "q" "1 // n"] {["n" := VInt 0]}
    {["n" := VInt 0; "q" := VInt 3]} false
  = TemplateRenderer.calc_loop (H := asteval false) []
      {["n" := VInt 0]} {["n" := VInt 0; "q" := VNone]} true.
Proof.
  destruct interpreter_error_propagates as (Hsb & Htr & _ & Hnone).
  split; [split|].
  - apply (Hsb (asteval true)
             [user_field "n" (VInt 0); calc_field "q" "1 // n"] ∅
             {["n" := VInt 0]} 0 interp_new {["n" := VInt 0]}
             [user_field "n" (VInt 0)] (calc_field "q" "1 // n") []
             {["n" := VInt 0]} {["n" := VInt 0]} false
             (Exn "ZeroDivisionError" []) {["n" := VInt 0]});
      [vm_compute; reflexivity|constructor|lia|reflexivity
      |vm_compute; reflexivity..].
  - apply (Htr (asteval true)
             [user_field "n" (VInt 0); calc_field "q" "1 // n"] ∅
             {["n" := VInt 0]} 0 interp_new {["n" := VInt 0]}
             [user_field "n" (VInt 0)] (calc_field "q" "1 // n") []
             {["n" := VInt 0]} {["n" := VInt 0]} false
             (Exn "ZeroDivisionError" []) {["n" := VInt 0]});
      [vm_compute; reflexivity|constructor|lia|reflexivity
      |vm_compute; reflexivity..].
  - destruct (Hnone (calc_field "q" "1 // n") "q" [] {["n" := VInt 0]}
                {["n" := VInt 0; "q" := VInt 3]} false ZeroDivisionError)
      as [H1 H2]; [vm_compute; reflexivity..|].
    split.
    + refine (eq_trans H1 _). vm_compute; reflexivity.
    + refine (eq_trans H2 _). vm_compute; reflexivity.
Defined.

(** C1 as stated fails.  The interpreter, called the way both evaluators call
    it, reports an undefined variable or a division by zero and returns
    [None]: the evaluation raises nothing and returns a context, in which the
    field is absent since [None] equals what [ctx.get] gives for it. *)
Lemma formula_errors_do_not_fail :
  ScenarioBuilder.compute_values (H := asteval false)
    [calc_field "a" "b + 1"] ∅ = Ok ∅ /\
  ScenarioBuilder.compute_values (H := asteval false)
    [user_field "n" (VInt 0); calc_field "q" "1 // n"] ∅
  = Ok {["n" := VInt 0]} /\
  fst <$> TemplateRenderer.compute_values (H := asteval false)
    (TemplateRenderer.init ∅) [calc_field "a" "b + 1"] = Ok ∅ /\
  fst <$> TemplateRenderer.compute_values (H := asteval false)
    (TemplateRenderer.init ∅)
    [user_field "n" (VInt 0); calc_field "q" "1 // n"]
  = Ok {["n" := VInt 0]}.
Proof. repeat split; vm_compute; reflexivity. Qed.

(** ** The comparison of a pass *)

(** C2, amended.  For a calc field whose id is not yet a key of the context,
    [ctx.get] gives [None]: in both evaluators the computed value is written,
    and the pass marked as changed, exactly when the value differs from
    [None]; a first value of [None] leaves the id absent and the mark as it
    was. *)
Theorem first_evaluation_writes_unless_None `{Interpreter} (f : field)
    (i : string) (engine : symtable) (ctx : context) (changed : bool)
    (v : value) (engine' : symtable) :
  is_calc f = true -> field_id f = Some i -> ctx !! i = None ->
  interp_call (get f "formula") engine = (Ok v, engine') ->
  (v <> VNone ->
   ScenarioBuilder.calc_loop [f] engine ctx changed
   = Ok (engine', <[i := v]> ctx, true) /\
   TemplateRenderer.calc_loop [f] engine ctx changed
   = Ok (engine', <[i := v]> ctx, true)) /\
  (v = VNone ->
   ScenarioBuilder.calc_loop [f] engine ctx changed
   = Ok (engine', ctx, changed) /\
   TemplateRenderer.calc_loop [f] engine ctx changed
   = Ok (engine', ctx, changed)).
Proof.
  unfold is_calc. intros Hf Hi Hctx Hcall. simpl.
  rewrite Hf, Hcall. unfold getitem_id. rewrite Hi. simpl.
  unfold ctx_get. rewrite Hctx. simpl. split.
  - intros Hv. apply py_ne_None_l in Hv. by rewrite Hv.
  - intros ->. by split.
Qed.

Lemma first_evaluation_writes_unless_None_witness :
  ScenarioBuilder.calc_loop (H := asteval false) [calc_field "a" "1 + 1"]
    ∅ ∅ false
  = Ok (∅, {["a" := VInt 2]}, true) /\
  TemplateRenderer.calc_loop (H := asteval false) [calc_field "a" "1 + 1"]
    ∅ ∅ false
  = Ok (∅, {["a" := VInt 2]}, true).
Proof.
  apply (first_evaluation_writes_unless_None (H := asteval false)
           (calc_field "a" "1 + 1") "a" ∅ ∅ false (VInt 2) ∅).
  - vm_compute; reflexivity.
  - reflexivity.
  - vm_compute; reflexivity.
  - vm_compute; reflexivity.
  - discriminate.
Defined.

(** C2 as stated fails: the first evaluation of a calc field absent from the
    context, when it produces [None], writes nothing and does not mark the
    pass as changed, in either evaluator. *)
Lemma first_None_is_not_written :
  is_calc (calc_field "a" "None") = true /\
  (∅ : context) !! "a" = None /\
  interp_call (Interpreter := asteval false)
    (get (calc_field "a" "None") "formula") ∅ = (Ok VNone, ∅) /\
  ScenarioBuilder.calc_loop (H := asteval false) [calc_field "a" "None"]
    ∅ ∅ false
  = Ok (∅, ∅, false) /\
  ScenarioBuilder.calc_loop (H := asteval false) [calc_field "a" "None"]
    ∅ ∅ false
  <> Ok (∅, <["a" := VNone]> ∅, true) /\
  TemplateRenderer.calc_loop (H := asteval false) [calc_field "a" "None"]
    ∅ ∅ false
  = Ok (∅, ∅, false) /\
  ScenarioBuilder.compute_values_run (H := asteval false)
    [calc_field "a" "None"] ∅
  = Ok (Run ∅ 1 true).
Proof.
  repeat split; try (vm_compute; reflexivity). vm_compute. discriminate.
Qed.

(** ** Merging *)

Lemma build_gmap_ok fields gm :
  (forall g, g ∈ fields -> is_Some (field_id g)) ->
  exists gm', build_gmap fields gm = Ok gm'.
Proof.
  revert gm. induction fields as [|f rest IH]; intros gm Hid; simpl; [by eexists|].
  destruct (Hid f (list_elem_of_here _ _)) as [i Hi].
  unfold getitem_id. rewrite Hi. simpl. apply IH.
  intros g Hg. apply Hid. by right.
Qed.

Lemma build_gmap_raise fields gm e :
  build_gmap fields gm = Raise e -> e = KeyError "id".
Proof.
  revert gm. induction fields as [|f rest IH]; intros gm; simpl; [done|].
  unfold getitem_id. destruct (field_id f); simpl; [apply IH|congruence].
Qed.

Lemma build_gmap_lookup fields gm gm' k g :
  build_gmap fields gm = Ok gm' -> gm' !! k = Some g ->
  (g ∈ fields /\ field_id g = Some k) \/ gm !! k = Some g.
Proof.
  revert gm. induction fields as [|f rest IH]; intros gm Hb Hk; simpl in Hb.
  - injection Hb as <-. by right.
  - unfold getitem_id in Hb. destruct (field_id f) as [i|] eqn:Hi; simpl in Hb; [|done].
    destruct (IH _ Hb Hk) as [[Hin Hid]|Hl].
    + left. split; [by right|done].
    + destruct (decide (i = k)) as [->|Hne].
      * rewrite lookup_insert_eq in Hl. injection Hl as <-. left. split; [by left|done].
      * rewrite lookup_insert_ne in Hl by done. by right.
Qed.

Lemma build_gmap_known fields gm gm' k :
  build_gmap fields gm = Ok gm' ->
  is_Some (gm' !! k) <->
  is_Some (gm !! k) \/ exists g, g ∈ fields /\ field_id g = Some k.
Proof.
  revert gm. induction fields as [|f rest IH]; intros gm Hb; simpl in Hb.
  - injection Hb as <-. split; [by left|]. intros [?|(g & Hg & _)]; [done|].
    by apply elem_of_nil in Hg.
  - unfold getitem_id in Hb. destruct (field_id f) as [i|] eqn:Hi; simpl in Hb; [|done].
    rewrite (IH _ Hb). split.
    + intros [Hl|(g & Hg & Hid)].
      * destruct (decide (i = k)) as [->|Hne].
        -- right. exists f. split; [by left|done].
        -- rewrite lookup_insert_ne in Hl by done. by left.
      * right. exists g. split; [by right|done].
    + intros [Hl|(g & Hg & Hid)].
      * left. destruct (decide (i = k)) as [->|Hne].
        -- rewrite lookup_insert_eq. by eexists.
        -- by rewrite lookup_insert_ne.
      * apply elem_of_cons in Hg as [->|Hg].
        -- left. rewrite Hi in Hid. injection Hid as ->.
           rewrite lookup_insert_eq. by eexists.
        -- right. by exists g.
Qed.

Lemma sourced_field_id g ov : field_id (sourced_field g ov) = field_id g.
Proof.
  unfold sourced_field. simpl.
  destruct (ov !! "unit"), (ov !! "default"); reflexivity.
Qed.

Lemma sourced_field_attrs g ov key :
  field_attrs (sourced_field g ov) !! key =
  if decide (key = "source") then Some (VStr "user")
  else if decide (key = "unit" \/ key = "default")
       then match ov !! key with
            | Some v => Some v
            | None => field_attrs g !! key
            end
       else field_attrs g !! key.
Proof.
  unfold sourced_field. simpl.
  destruct (decide (key = "source")) as [->|Hs]; [by rewrite lookup_insert_eq|].
  rewrite lookup_insert_ne by done.
  destruct (decide (key = "unit" \/ key = "default")) as [[->| ->]|Hn].
  - destruct (ov !! "unit") as [u|], (ov !! "default") as [d|]; simpl;
      rewrite ?lookup_insert_ne by done; by rewrite ?lookup_insert_eq.
  - destruct (ov !! "unit") as [u|], (ov !! "default") as [d|]; simpl;
      rewrite ?lookup_insert_eq; try done; by rewrite ?lookup_insert_ne by done.
  - assert (key <> "unit" /\ key <> "default") as [Hu Hd] by tauto.
    destruct (ov !! "unit") as [u|], (ov !! "default") as [d|]; simpl;
      by rewrite ?lookup_insert_ne by done.
Qed.

Lemma merge_loop_ok gm sc ids merged :
  (forall fid, fid ∈ ids -> is_Some (gm !! fid)) ->
  exists sourced,
    merge_loop gm sc ids merged = Ok (merged ++ sourced) /\
    Forall2 (fun fid m => exists g, gm !! fid = Some g /\
               m = sourced_field g (default ∅ (overrides sc !! fid)))
            ids sourced.
Proof.
  revert merged. induction ids as [|fid rest IH]; intros merged Hk;
    cbn [merge_loop].
  - exists []. by rewrite app_nil_r.
  - destruct (Hk fid (list_elem_of_here _ _)) as [g Hg]. rewrite Hg.
    destruct (IH (merged ++ [sourced_field g (default ∅ (overrides sc !! fid))]))
      as (sourced & Hm & Hall).
    { intros i Hi. apply Hk. by right. }
    exists (sourced_field g (default ∅ (overrides sc !! fid)) :: sourced).
    split.
    + unfold sourced_field in *. rewrite Hm. by rewrite <- app_assoc.
    + constructor; [by exists g|done].
Qed.

Lemma merge_loop_unknown gm sc ids fid :
  fid ∈ ids -> gm !! fid = None ->
  exists pre k post,
    ids = pre ++ k :: post /\ gm !! k = None /\
    (forall i, i ∈ pre -> is_Some (gm !! i)) /\
    forall merged, merge_loop gm sc ids merged = Raise (KeyError k).
Proof.
  induction ids as [|i rest IH]; intros Hin Hnone.
  - by apply elem_of_nil in Hin.
  - destruct (gm !! i) as [g|] eqn:Hg.
    + apply elem_of_cons in Hin as [->|Hin]; [congruence|].
      destruct (IH Hin Hnone) as (pre & k & post & -> & Hk & Hpre & Hm).
      exists (i :: pre), k, post. repeat split; try done.
      * intros j Hj. apply elem_of_cons in Hj as [->|Hj]; [by eexists|by apply Hpre].
      * intros merged. simpl. rewrite Hg. apply Hm.
    + exists [], i, rest. repeat split; try done.
      * intros j Hj. by apply elem_of_nil in Hj.
      * intros merged. simpl. by rewrite Hg.
Qed.

(** C3. The merged list.  When every catalogue field has an id and every id of
    [use_fields] is the id of a catalogue field, the merge returns, for the
    ids of [use_fields] in their order, one field each, followed by the
    scenario's own fields as they are; nothing is deduplicated.  The field for
    an id is a catalogue field of that id with its entries kept, except that
    "source" is "user" and that "unit" and "default" are the override's where
    the override map of the id has them. *)
Theorem merge_fields_spec (gc : globals_cfg) (sc : scenario_cfg) :
  (forall g, g ∈ g_fields gc -> is_Some (field_id g)) ->
  (forall fid, fid ∈ use_fields sc ->
     exists g, g ∈ g_fields gc /\ field_id g = Some fid) ->
  exists sourced,
    ScenarioBuilder.merge_fields gc sc = Ok (sourced ++ s_fields sc) /\
    Forall2
      (fun fid m =>
         exists g, g ∈ g_fields gc /\ field_id g = Some fid /\
           field_id m = Some fid /\
           forall key,
             field_attrs m !! key =
             if decide (key = "source") then Some (VStr "user")
             else if decide (key = "unit" \/ key = "default")
                  then match default ∅ (overrides sc !! fid) !! key with
                       | Some v => Some v
                       | None => field_attrs g !! key
                       end
                  else field_attrs g !! key)
      (use_fields sc) sourced.
Proof.
  intros Hid Huse. unfold merge_fields.
  destruct (build_gmap_ok (g_fields gc) ∅ Hid) as [gm Hgm]. rewrite Hgm.
  destruct (merge_loop_ok gm sc (use_fields sc) []) as (sourced & Hm & Hall).
  { intros fid Hfid. apply (build_gmap_known _ _ _ fid Hgm). right.
    by apply Huse. }
  exists sourced. simpl. rewrite Hm. simpl. split; [done|].
  eapply Forall2_impl; [exact Hall|].
  intros fid m (g & Hg & ->).
  destruct (build_gmap_lookup _ _ _ _ _ Hgm Hg) as [[Hin Hgid]|Hempty].
  2:{ by rewrite lookup_empty in Hempty. }
  exists g. split; [done|]. split; [done|].
  split; [by rewrite sourced_field_id|].
  intros key. apply sourced_field_attrs.
Qed.

Lemma merge_fields_spec_witness :
  exists m,
    ScenarioBuilder.merge_fields
      (GlobalsCfg [mk_field "rate" [("unit", VStr "%"); ("default", VInt 5)]])
      (ScenarioCfg ["rate"] {["rate" := {["default" := VInt 7]}]} [])
    = Ok [m] /\
    field_attrs m !! "unit" = Some (VStr "%") /\
    field_attrs m !! "default" = Some (VInt 7) /\
    field_attrs m !! "source" = Some (VStr "user").
Proof.
  destruct (merge_fields_spec
              (GlobalsCfg [mk_field "rate" [("unit", VStr "%"); ("default", VInt 5)]])
              (ScenarioCfg ["rate"] {["rate" := {["default" := VInt 7]}]} []))
    as (sourced & Hm & Hall).
  - intros g Hg. apply list_elem_of_singleton in Hg as ->. by eexists.
  - intros fid Hfid. apply list_elem_of_singleton in Hfid as ->.
    eexists. split; [apply list_elem_of_here|reflexivity].
  - simpl in Hall.
    apply Forall2_cons_inv_l in Hall as (m & rest & Hhd & Hnil & ->).
    apply Forall2_nil_inv_l in Hnil as ->.
    destruct Hhd as (g & Hg & _ & _ & Hattrs).
    apply list_elem_of_singleton in Hg as ->.
    exists m. split; [exact Hm|].
    rewrite !Hattrs. repeat split; vm_compute; reflexivity.
Defined.

(** C4. An unknown id makes the merge fail.  When some id of [use_fields] is
    the id of no catalogue field, the merge returns no list: it raises
    [KeyError], the unknown-field error of the specification; and when every
    catalogue field has an id, the key of the error is the first id of
    [use_fields] that the catalogue lacks. *)
Theorem merge_fields_unknown_id (gc : globals_cfg) (sc : scenario_cfg)
    (fid : string) :
  fid ∈ use_fields sc ->
  (forall g, g ∈ g_fields gc -> field_id g <> Some fid) ->
  exists k,
    ScenarioBuilder.merge_fields gc sc = Raise (KeyError k) /\
    ((forall g, g ∈ g_fields gc -> is_Some (field_id g)) ->
     exists pre post,
       use_fields sc = pre ++ k :: post /\
       (forall g, g ∈ g_fields gc -> field_id g <> Some k) /\
       forall i, i ∈ pre -> exists g, g ∈ g_fields gc /\ field_id g = Some i).
Proof.
  intros Hin Hunknown. unfold merge_fields.
  destruct (build_gmap (g_fields gc) ∅) as [gm|e] eqn:Hgm.
  - assert (Hnone : gm !! fid = None).
    { apply eq_None_not_Some. intros Hs.
      apply (build_gmap_known _ _ _ fid Hgm) in Hs as [Hs|(g & Hg & Hgid)].
      - rewrite lookup_empty in Hs. by destruct Hs.
      - by apply (Hunknown g). }
    destruct (merge_loop_unknown gm sc _ _ Hin Hnone)
      as (pre & k & post & Huse & Hk & Hpre & Hm).
    exists k. simpl. rewrite Hm. simpl. split; [done|].
    intros _. exists pre, post. split; [done|]. split.
    + intros g Hg Hgid. assert (is_Some (gm !! k)) as [? ?]; [|congruence].
      apply (build_gmap_known _ _ _ k Hgm). right. by exists g.
    + intros i Hi. apply Hpre in Hi.
      apply (build_gmap_known _ _ _ i Hgm) in Hi as [Hi|Hi]; [|done].
      rewrite lookup_empty in Hi. by destruct Hi.
  - pose proof (build_gmap_raise _ _ _ Hgm) as ->. exists "id". simpl.
    split; [done|].
    intros Hid. destruct (build_gmap_ok (g_fields gc) ∅ Hid) as [gm Hgm'].
    congruence.
Qed.

Lemma merge_fields_unknown_id_witness :
  exists k,
    ScenarioBuilder.merge_fields
      (GlobalsCfg [mk_field "rate" [("unit", VStr "%"); ("default", VInt 5)]])
      (ScenarioCfg ["rate"; "term"] ∅ [user_field "months" (VInt 12)])
    = Raise (KeyError k).
Proof.
  destruct (merge_fields_unknown_id
              (GlobalsCfg [mk_field "rate" [("unit", VStr "%"); ("default", VInt 5)]])
              (ScenarioCfg ["rate"; "term"] ∅ [user_field "months" (VInt 12)])
              "term") as (k & Hm & _).
  - simpl. apply list_elem_of_In. simpl. tauto.
  - intros g Hg. apply list_elem_of_singleton in Hg as ->. discriminate.
  - by exists k.
Defined.

(** ** The two evaluators *)

(** C10. The two evaluators.  On a field list in which every field carries a
    "source" entry, a fresh TemplateRenderer whose overrides are the inputs
    computes what ScenarioBuilder computes, error for error and context for
    context.  For a field without a "source" entry whose id is not yet in the
    context, TemplateRenderer's seeding writes the field's default and
    ScenarioBuilder's leaves the context as it is; and on such a field the
    two results do differ. *)
Theorem evaluators_agree_on_explicit_source `{Interpreter} :
  (forall fields inputs,
     Forall (fun f => has_key f "source" = true) fields ->
     fst <$> TemplateRenderer.compute_values (TemplateRenderer.init inputs)
               fields
     = ScenarioBuilder.compute_values fields inputs) /\
  (forall f i ctx,
     field_attrs f !! "source" = None -> field_id f = Some i ->
     ctx !! i = None ->
     TemplateRenderer.seed [f] ctx = Ok (<[i := get f "default"]> ctx) /\
     ScenarioBuilder.seed [f] ctx = Ok ctx) /\
  (fst <$> TemplateRenderer.compute_values (TemplateRenderer.init ∅)
             [mk_field "x" [("default", VInt 1)]]
   = Ok {["x" := VInt 1]} /\
   ScenarioBuilder.compute_values [mk_field "x" [("default", VInt 1)]] ∅
   = Ok ∅).
Proof.
  split; [|split].
  - intros fields inputs Hall.
    unfold TemplateRenderer.compute_values, compute_values, compute_values_run.
    cbn [TemplateRenderer.init TemplateRenderer.r_values
         TemplateRenderer.r_overrides].
    rewrite TR_seed_is_seed_with, seed_is_seed_with.
    rewrite (seed_with_explicit_source _ _ _ Hall).
    destruct (seed_with None fields inputs) as [ctx0|e]; [|done].
    change (Ok ctx0 ≫= ?k) with (k ctx0). cbv beta.
    rewrite TR_iterate_eq.
    by destruct (iterate 8 fields interp_new ctx0 0).
  - intros f i ctx Hsrc Hid Hctx. simpl.
    unfold get_or, get, getitem_id. rewrite Hsrc, Hid. simpl.
    apply ctx_mem_false in Hctx. by rewrite Hctx.
  - split; vm_compute; reflexivity.
Qed.

Lemma evaluators_agree_on_explicit_source_witness :
  fst <$> TemplateRenderer.compute_values (H := asteval false)
            (TemplateRenderer.init {["months" := VInt 6]})
            [user_field "principal" (VInt 1200); user_field "months" (VInt 12);
             calc_field "monthly" "principal // months"]
  = ScenarioBuilder.compute_values (H := asteval false)
      [user_field "principal" (VInt 1200); user_field "months" (VInt 12);
       calc_field "monthly" "principal // months"]
      {["months" := VInt 6]}.
Proof.
  apply (proj1 (evaluators_agree_on_explicit_source (H := asteval false))).
  repeat constructor.
Defined.

(** ** Fixed points *)

Section ContextGrowth.
Context `{Interpreter}.

Lemma calc_loop_keys fields engine ctx changed engine' ctx' changed' k :
  calc_loop fields engine ctx changed = Ok (engine', ctx', changed') ->
  is_Some (ctx !! k) -> is_Some (ctx' !! k).
Proof.
  revert engine ctx changed.
  induction fields as [|f rest IH]; intros engine ctx changed Hl Hk;
    simpl in Hl.
  - by injection Hl as _ <- _.
  - destruct (py_eq _ _ && has_key f "formula"); [|by eapply IH].
    destruct (interp_call _ engine) as [[v|e] engine1]; simpl in Hl; [|done].
    destruct (getitem_id f) as [i|e]; simpl in Hl; [|done].
    destruct (py_ne _ v); [|by eapply IH].
    eapply IH; [exact Hl|].
    rewrite lookup_insert_is_Some. destruct (decide (i = k)); auto.
Qed.

Lemma calc_loop_changed fields engine ctx engine' ctx' changed' :
  calc_loop fields engine ctx true = Ok (engine', ctx', changed') ->
  changed' = true.
Proof.
  revert engine ctx.
  induction fields as [|f rest IH]; intros engine ctx Hl; simpl in Hl.
  - by injection Hl as _ _ <-.
  - destruct (py_eq _ _ && has_key f "formula"); [|by eapply IH].
    destruct (interp_call _ engine) as [[v|e] engine1]; simpl in Hl; [|done].
    destruct (getitem_id f) as [i|e]; simpl in Hl; [|done].
    destruct (py_ne _ v); by eapply IH.
Qed.

Lemma calc_loop_unchanged fields engine ctx changed engine' ctx' :
  calc_loop fields engine ctx changed = Ok (engine', ctx', false) ->
  ctx' = ctx.
Proof.
  revert engine ctx changed.
  induction fields as [|f rest IH]; intros engine ctx changed Hl; simpl in Hl.
  - by injection Hl as _ <- _.
  - destruct (py_eq _ _ && has_key f "formula"); [|by eapply IH].
    destruct (interp_call _ engine) as [[v|e] engine1]; simpl in Hl; [|done].
    destruct (getitem_id f) as [i|e]; simpl in Hl; [|done].
    destruct (py_ne _ v); [|by eapply IH].
    by apply calc_loop_changed in Hl.
Qed.

End ContextGrowth.

Lemma seed_with_ids dflt fields ctx ctx' f :
  seed_with dflt fields ctx = Ok ctx' ->
  f ∈ fields -> is_user dflt f = true ->
  exists i, field_id f = Some i /\ is_Some (ctx' !! i).
Proof.
  revert ctx. induction fields as [|g rest IH]; intros ctx Hs Hin Hu.
  - by apply elem_of_nil in Hin.
  - cbn [seed_with] in Hs. apply elem_of_cons in Hin as [->|Hin].
    + rewrite Hu in Hs. unfold getitem_id in Hs.
      destruct (field_id g) as [i|]; simpl in Hs; [|done].
      exists i. split; [done|].
      destruct (ctx_mem ctx i) eqn:Hm.
      * apply ctx_mem_true in Hm as [v Hv]. exists v.
        by apply (seed_with_keeps _ _ _ _ _ _ Hs).
      * exists (get g "default").
        apply (seed_with_keeps _ _ _ _ _ _ Hs). by rewrite lookup_insert_eq.
    + destruct (is_user dflt g); [|by eapply IH].
      destruct (getitem_id g) as [i|]; simpl in Hs; [|done].
      destruct (ctx_mem ctx i); by eapply IH.
Qed.

Lemma seed_with_fixed dflt fields ctx :
  (forall f, f ∈ fields -> is_user dflt f = true ->
     exists i, field_id f = Some i /\ is_Some (ctx !! i)) ->
  seed_with dflt fields ctx = Ok ctx.
Proof.
  induction fields as [|g rest IH]; intros Hid; cbn [seed_with]; [done|].
  assert (Hrest : seed_with dflt rest ctx = Ok ctx).
  { apply IH. intros f Hf. apply Hid. by right. }
  destruct (is_user dflt g) eqn:Hu; [|done].
  destruct (Hid g (list_elem_of_here _ _) Hu) as (i & Hi & Hk).
  unfold getitem_id. rewrite Hi. simpl.
  apply ctx_mem_true in Hk. by rewrite Hk.
Qed.

Section PureInterpreter.
Variable eval : context -> value -> result value.
Variable fields : list field.

Lemma calc_loop_pure_engine fs (engine : context) ctx changed engine' ctx'
    changed' :
  calc_loop (H := pure_interp eval) fs engine ctx changed
  = Ok (engine', ctx', changed') ->
  engine' = engine.
Proof.
  revert ctx changed.
  induction fs as [|f rest IH]; intros ctx changed Hl; simpl in Hl.
  - by injection Hl as <- _ _.
  - destruct (py_eq _ _ && has_key f "formula"); [|by eapply IH].
    destruct (eval engine (get f "formula")) as [v|e]; simpl in Hl; [|done].
    destruct (getitem_id f) as [i|e]; simpl in Hl; [|done].
    destruct (py_ne _ v); by eapply IH.
Qed.

Lemma union_absorb (ctx engine : context) :
  (forall k, is_Some (engine !! k) -> is_Some (ctx !! k)) ->
  ctx ∪ engine = ctx.
Proof.
  intros Hsub. apply map_eq. intros k.
  destruct (ctx !! k) as [v|] eqn:Hk.
  - by apply lookup_union_Some_l.
  - rewrite lookup_union_r by done.
    apply eq_None_not_Some. intros Hs. apply Hsub in Hs.
    rewrite Hk in Hs. by destruct Hs.
Qed.

Lemma reaches_keys ctx0 n (engine : context) ctx :
  reaches (H := pure_interp eval) fields ctx0 n engine ctx ->
  (forall k, is_Some (engine !! k) -> is_Some (ctx !! k)) /\
  (forall k, is_Some (ctx0 !! k) -> is_Some (ctx !! k)).
Proof.
  induction 1 as [|n engine ctx engine' ctx' _ [IHe IH0] Hp].
  - split; [|done]. intros k Hk. simpl in Hk. rewrite lookup_empty in Hk.
    by destruct Hk.
  - unfold one_pass in Hp.
    pose proof (calc_loop_pure_engine _ _ _ _ _ _ _ Hp) as ->.
    simpl in Hp |- *. split.
    + intros k Hk.
      apply (calc_loop_keys (H := pure_interp eval) _ _ _ _ _ _ _ k Hp).
      apply lookup_union_is_Some in Hk as [Hk|Hk]; auto.
    + intros k Hk.
      apply (calc_loop_keys (H := pure_interp eval) _ _ _ _ _ _ _ k Hp). auto.
Qed.

End PureInterpreter.

(** C7, amended.  An evaluation that reached a fixed point is idempotent.
    With an interpreter whose calls compute from the formula and the symbol
    table alone and leave the table as it is, whenever an evaluation ends on a
    pass that changed nothing, evaluating the same fields again with the
    returned context as inputs returns that context. *)
Theorem stable_evaluation_is_idempotent
    (eval : context -> value -> result value) (fields : list field)
    (inputs : context) (r : run) :
  ScenarioBuilder.compute_values_run (H := pure_interp eval) fields inputs
  = Ok r ->
  run_stable r = true ->
  ScenarioBuilder.compute_values (H := pure_interp eval) fields (run_ctx r)
  = Ok (run_ctx r).
Proof.
  intros Hrun Hstable. unfold compute_values_run in Hrun.
  destruct (seed fields inputs) as [ctx0|e] eqn:Hs; [|done].
  change (Ok ctx0 ≫= _)
    with (iterate (H := pure_interp eval) 8 fields interp_new ctx0 0) in Hrun.
  pose proof (iterate_spec (H := pure_interp eval) fields ctx0 8 0 interp_new
                ctx0 (reaches_start (H := pure_interp eval) fields ctx0))
    as Hit.
  rewrite Hrun in Hit. destruct Hit as (_ & _ & Hex).
  destruct Hex as [_ (engine1 & ctx1 & engine2 & Hreach & Hpass)]; [lia|].
  rewrite Hstable in Hpass. simpl in Hpass.
  destruct (reaches_keys eval fields ctx0 _ engine1 ctx1 Hreach) as [Hsub Hgrow].
  unfold one_pass in Hpass.
  pose proof (calc_loop_unchanged (H := pure_interp eval) _ _ _ _ _ _ Hpass)
    as Hsame.
  simpl in Hpass. rewrite <- Hsame in Hpass, Hsub, Hgrow.
  rewrite (union_absorb _ _ Hsub) in Hpass.
  assert (Hseed : seed fields (run_ctx r) = Ok (run_ctx r)).
  { rewrite seed_is_seed_with. apply seed_with_fixed. intros f Hf Hu.
    rewrite seed_is_seed_with in Hs.
    destruct (seed_with_ids _ _ _ _ f Hs Hf Hu) as (i & Hi & Hk).
    exists i. split; [done|]. by apply Hgrow. }
  unfold compute_values, compute_values_run. rewrite Hseed.
  change (Ok (run_ctx r) ≫= _)
    with (iterate (H := pure_interp eval) 8 fields ∅ (run_ctx r) 0).
  cbn [iterate]. unfold one_pass. simpl interp_update.
  rewrite (right_id_L ∅ (∪)). simpl in Hpass. rewrite Hpass. reflexivity.
Qed.

Lemma stable_evaluation_is_idempotent_witness :
  ScenarioBuilder.compute_values (H := pure_interp (asteval_call false))
    [user_field "principal" (VInt 1200); user_field "months" (VInt 12);
     calc_field "monthly" "principal // months"]
    {["principal" := VInt 1200; "months" := VInt 12; "monthly" := VInt 100]}
  = Ok {["principal" := VInt 1200; "months" := VInt 12;
         "monthly" := VInt 100]}.
Proof.
  pose proof (stable_evaluation_is_idempotent (asteval_call false)
                [user_field "principal" (VInt 1200);
                 user_field "months" (VInt 12);
                 calc_field "monthly" "principal // months"]
                ∅
                (Run {["principal" := VInt 1200; "months" := VInt 12;
                       "monthly" := VInt 100]} 2 true)) as Hidem.
  cbn [run_ctx run_stable] in Hidem. apply Hidem.
  - vm_compute; reflexivity.
  - reflexivity.
Defined.

(** C7 as stated fails.  An evaluation that uses up its 8 passes returns a
    context that is no fixed point: evaluating again from it runs 8 more
    passes and returns another context. *)
Lemma evaluation_is_not_idempotent :
  ScenarioBuilder.compute_values (H := asteval false)
    [calc_field "a" "a + 1"] {["a" := VInt 0]}
  = Ok {["a" := VInt 8]} /\
  ScenarioBuilder.compute_values (H := asteval false)
    [calc_field "a" "a + 1"] {["a" := VInt 8]}
  = Ok {["a" := VInt 16]} /\
  ScenarioBuilder.compute_values (H := asteval false)
    [calc_field "a" "a + 1"] {["a" := VInt 8]}
  <> Ok {["a" := VInt 8]}.
Proof.
  repeat split; try (vm_compute; reflexivity).
  vm_compute. intros E. discriminate E.
Qed.

(** ** Side effects *)

Section Frame.
Variable h0 : Store.heap.

Lemma preserved_refl (h : Store.heap) : preserved h h.
Proof. by intros l o. Qed.

Lemma preserved_write h l o :
  h0 !! l = None -> preserved h0 h -> preserved h0 (<[l := o]> h).
Proof.
  intros Hl Hp l' o' Hl'. rewrite lookup_insert_ne; [by apply Hp|].
  intros ->. congruence.
Qed.

Lemma frames_ret {A} (a : A) (P : A -> Prop) :
  P a -> frames h0 (Store.ret a) P.
Proof. intros Ha h Hp. split; [done|]. simpl. by intros ? [= <-]. Qed.

Lemma frames_raise {A} e (P : A -> Prop) : frames h0 (Store.raise e) P.
Proof. intros h Hp. by split. Qed.

Lemma frames_bind {A B} (m : Store.M A) (k : A -> Store.M B) P Q :
  frames h0 m P -> (forall a, P a -> frames h0 (k a) Q) ->
  frames h0 (Store.bind m k) Q.
Proof.
  intros Hm Hk h Hp. unfold Store.bind.
  destruct (Hm h Hp) as [Hp' Ha].
  destruct (m h) as [[a|e] h']; simpl in *; [|by split].
  by apply (Hk a (Ha a eq_refl)).
Qed.

Lemma frames_weaken {A} (m : Store.M A) (P Q : A -> Prop) :
  frames h0 m P -> (forall a, P a -> Q a) -> frames h0 m Q.
Proof.
  intros Hm HPQ h Hp. destruct (Hm h Hp) as [Hp' Ha]. split; [done|].
  intros a E. by apply HPQ, Ha.
Qed.

Lemma frames_new o : frames h0 (Store.new o) (fun l => h0 !! l = None).
Proof.
  intros h Hp. unfold Store.new. simpl.
  assert (Hfresh : h0 !! fresh (dom h) = None).
  { apply eq_None_not_Some. intros [o' Ho']. apply Hp in Ho'.
    apply (is_fresh (dom h)). apply elem_of_dom. by eexists. }
  split; [by apply preserved_write|]. by intros a [= <-].
Qed.

Lemma frames_dict_entries v :
  frames h0 (Store.dict_entries v) (fun _ => True).
Proof.
  intros h Hp. unfold Store.dict_entries.
  destruct v; try by split.
  destruct (h !! l) as [[m|xs]|]; by split.
Qed.

Lemma frames_list_items v :
  frames h0 (Store.list_items v) (fun _ => True).
Proof.
  intros h Hp. unfold Store.list_items.
  destruct v; try by split.
  destruct (h !! l) as [[m|xs]|]; by split.
Qed.

Lemma frames_dict_get d key dflt :
  frames h0 (Store.dict_get d key dflt) (fun _ => True).
Proof.
  eapply frames_bind; [apply frames_dict_entries|].
  intros m _. by apply frames_ret.
Qed.

Lemma frames_dict_getitem d key :
  frames h0 (Store.dict_getitem d key) (fun _ => True).
Proof.
  eapply frames_bind; [apply frames_dict_entries|].
  intros m _. destruct (m !! key); [by apply frames_ret|apply frames_raise].
Qed.

Lemma frames_as_id v : frames h0 (Store.as_id v) (fun _ => True).
Proof. destruct v; try apply frames_raise. by apply frames_ret. Qed.

Lemma frames_cfg_list cfg key :
  frames h0 (Store.cfg_list cfg key) (fun _ => True).
Proof.
  eapply frames_bind; [apply frames_dict_entries|].
  intros m _. destruct (m !! key); [apply frames_list_items|by apply frames_ret].
Qed.

Lemma frames_cfg_dict cfg key :
  frames h0 (Store.cfg_dict cfg key) (fun _ => True).
Proof.
  eapply frames_bind; [apply frames_dict_entries|].
  intros m _. destruct (m !! key); [apply frames_dict_entries|by apply frames_ret].
Qed.

Lemma frames_dict_setitem l key v :
  h0 !! l = None -> frames h0 (Store.dict_setitem l key v) (fun _ => True).
Proof.
  intros Hl. eapply frames_bind; [apply frames_dict_entries|].
  intros m _ h Hp. split; [by apply preserved_write|done].
Qed.

Lemma frames_list_extend l ys :
  h0 !! l = None -> frames h0 (Store.list_extend l ys) (fun _ => True).
Proof.
  intros Hl. eapply frames_bind; [apply frames_list_items|].
  intros xs _ h Hp. split; [by apply preserved_write|done].
Qed.

Lemma frames_build_gmap fields gm :
  frames h0 (Store.build_gmap fields gm) (fun _ => True).
Proof.
  revert gm. induction fields as [|f rest IH]; intros gm; simpl.
  - by apply frames_ret.
  - eapply frames_bind; [apply frames_dict_getitem|]. intros i _.
    eapply frames_bind; [apply frames_as_id|]. intros s _. apply IH.
Qed.

Lemma frames_apply_overrides keys ov base :
  h0 !! base = None ->
  frames h0 (Store.apply_overrides keys ov base) (fun _ => True).
Proof.
  intros Hb. induction keys as [|key rest IH]; simpl.
  - by apply frames_ret.
  - destruct (ov !! key); [|done].
    eapply frames_bind; [by apply frames_dict_setitem|]. by intros _ _.
Qed.

Lemma frames_merge_loop gm scenario_cfg merged ids :
  h0 !! merged = None ->
  frames h0 (Store.merge_loop gm scenario_cfg merged ids) (fun _ => True).
Proof.
  intros Hm. induction ids as [|i rest IH]; cbn [Store.merge_loop].
  - by apply frames_ret.
  - eapply frames_bind; [apply frames_as_id|]. intros fid _.
    destruct (gm !! fid) as [g|]; [|apply frames_raise].
    eapply frames_bind; [apply frames_dict_entries|]. intros entries _.
    eapply frames_bind; [apply frames_new|]. intros base Hbase.
    eapply frames_bind; [apply frames_cfg_dict|]. intros ovs _.
    eapply frames_bind.
    { instantiate (1 := fun _ => True).
      destruct (ovs !! fid); [apply frames_dict_entries|by apply frames_ret]. }
    intros ov _.
    eapply frames_bind; [apply frames_apply_overrides, Hbase|]. intros _ _.
    eapply frames_bind; [apply frames_dict_setitem, Hbase|]. intros _ _.
    eapply frames_bind; [apply frames_list_extend, Hm|]. intros _ _.
    apply IH.
Qed.

Lemma frames_merge_fields globals_cfg scenario_cfg :
  frames h0 (Store.merge_fields globals_cfg scenario_cfg)
         (fun l => h0 !! l = None).
Proof.
  unfold Store.merge_fields.
  eapply frames_bind; [apply frames_cfg_list|]. intros gfields _.
  eapply frames_bind; [apply frames_build_gmap|]. intros gm _.
  eapply frames_bind; [apply frames_new|]. intros merged Hmerged.
  eapply frames_bind; [apply frames_cfg_list|]. intros ids _.
  eapply frames_bind; [by apply frames_merge_loop|]. intros _ _.
  eapply frames_bind; [apply frames_cfg_list|]. intros sfields _.
  eapply frames_bind; [by apply frames_list_extend|]. intros _ _.
  by apply frames_ret.
Qed.

Context `{Store.Interpreter}.
Hypothesis call_preserves :
  forall formula engine h, preserved h (snd (Store.interp_call formula engine h)).

Lemma frames_seed fields ctx :
  h0 !! ctx = None -> frames h0 (Store.seed fields ctx) (fun _ => True).
Proof.
  intros Hctx. induction fields as [|f rest IH]; simpl.
  - by apply frames_ret.
  - eapply frames_bind; [apply frames_dict_get|]. intros source _.
    destruct (Store.eq_str source "user"); [|done].
    eapply frames_bind; [apply frames_dict_getitem|]. intros i _.
    eapply frames_bind; [apply frames_as_id|]. intros s _.
    eapply frames_bind; [apply frames_dict_entries|]. intros entries _.
    destruct (entries !! s); [done|].
    eapply frames_bind; [apply frames_dict_get|]. intros dflt _.
    eapply frames_bind; [by apply frames_dict_setitem|]. by intros _ _.
Qed.

Lemma frames_calc_loop fields ctx engine changed :
  h0 !! ctx = None ->
  frames h0 (Store.calc_loop fields ctx engine changed) (fun _ => True).
Proof.
  intros Hctx. revert engine changed.
  induction fields as [|f rest IH]; intros engine changed; simpl.
  - by apply frames_ret.
  - eapply frames_bind; [apply frames_dict_get|]. intros source _.
    eapply frames_bind; [apply frames_dict_entries|]. intros entries _.
    destruct (Store.eq_str source "calc" && _); [|apply IH].
    eapply frames_bind; [apply frames_dict_getitem|]. intros formula _.
    eapply frames_bind.
    { instantiate (1 := fun _ => True). intros h Hp.
      pose proof (call_preserves formula engine h) as Hcall.
      destruct (Store.interp_call formula engine h) as [[r engine'] h'].
      simpl in *. split; [|done]. intros l o Hl. by apply Hcall, Hp. }
    intros [r engine'] _. destruct r as [value|e]; [|apply frames_raise].
    eapply frames_bind; [apply frames_dict_getitem|]. intros i _.
    eapply frames_bind; [apply frames_as_id|]. intros s _.
    eapply frames_bind; [apply frames_dict_get|]. intros old _.
    eapply frames_bind.
    { instantiate (1 := fun _ => True). intros h Hp. by split. }
    intros ne _. destruct ne; [|apply IH].
    eapply frames_bind; [by apply frames_dict_setitem|]. intros _ _. apply IH.
Qed.

Lemma frames_iterate budget fields ctx engine :
  h0 !! ctx = None ->
  frames h0 (Store.iterate budget fields ctx engine) (fun _ => True).
Proof.
  intros Hctx. revert engine.
  induction budget as [|budget IH]; intros engine; simpl.
  - by apply frames_ret.
  - eapply frames_bind; [apply frames_dict_entries|]. intros entries _.
    eapply frames_bind; [by apply frames_calc_loop|].
    intros [engine' changed] _. destruct changed; simpl; [apply IH|].
    by apply frames_ret.
Qed.

Lemma frames_compute_values fields inputs :
  frames h0 (Store.compute_values fields inputs) (fun l => h0 !! l = None).
Proof.
  unfold Store.compute_values.
  eapply frames_bind; [apply frames_dict_entries|]. intros entries _.
  eapply frames_bind; [apply frames_new|]. intros ctx Hctx.
  eapply frames_bind; [apply frames_list_items|]. intros items _.
  eapply frames_bind; [by apply frames_seed|]. intros _ _.
  eapply frames_bind; [by apply frames_iterate|]. intros _ _.
  by apply frames_ret.
Qed.

End Frame.

(** C8, amended.  No side effects on the arguments, unless a formula has
    one.  In the embedding with objects and references, a merge leaves every
    object of the store as it was, the catalogue, its entries and the scenario
    among them, and the list it returns did not exist before: overrides go to
    new copies of the catalogue entries.  The seeding loop writes to the new
    context only.  And with an interpreter whose calls change no object that
    exists when they are made, a whole evaluation leaves every object as it
    was, the fields list, the fields and the inputs mapping among them, and
    the context it returns did not exist before.  All of this holds as well
    when the function raises. *)
Theorem no_side_effects `{Store.Interpreter} :
  (forall globals_cfg scenario_cfg h,
     preserved h (snd (Store.merge_fields globals_cfg scenario_cfg h)) /\
     forall merged,
       fst (Store.merge_fields globals_cfg scenario_cfg h) = Ok merged ->
       h !! merged = None) /\
  (forall items ctx h0 h,
     h0 !! ctx = None -> preserved h0 h ->
     preserved h0 (snd (Store.seed items ctx h))) /\
  ((forall formula engine h,
      preserved h (snd (Store.interp_call formula engine h))) ->
   forall fields inputs h,
     preserved h (snd (Store.compute_values fields inputs h)) /\
     forall ctx, fst (Store.compute_values fields inputs h) = Ok ctx ->
                 h !! ctx = None).
Proof.
  split; [|split].
  - intros globals_cfg scenario_cfg h.
    apply (frames_merge_fields h globals_cfg scenario_cfg h), preserved_refl.
  - intros items ctx h0 h Hctx Hp. by apply (frames_seed h0 items ctx Hctx h).
  - intros Hcall fields inputs h.
    apply (frames_compute_values h Hcall fields inputs h), preserved_refl.
Qed.

Lemma name_interp_preserves formula engine h :
  preserved h (snd (Store.interp_call (Interpreter := name_interp)
                      formula engine h)).
Proof. simpl. destruct formula; apply preserved_refl. Qed.

Lemma no_side_effects_witness :
  fst (Store.compute_values (H := name_interp) (Store.PRef 1%positive)
         (Store.PRef 4%positive) example_store) = Ok 11%positive /\
  snd (Store.compute_values (H := name_interp) (Store.PRef 1%positive)
         (Store.PRef 4%positive) example_store) !! 11%positive
  = Some (Store.ODict (list_to_map
            [("x", Store.PInt 7); ("y", Store.PInt 7)])) /\
  snd (Store.compute_values (H := name_interp) (Store.PRef 1%positive)
         (Store.PRef 4%positive) example_store) !! 4%positive
  = Some (Store.ODict (list_to_map [("x", Store.PInt 7)])) /\
  fst (Store.merge_fields (Store.PRef 5%positive) (Store.PRef 7%positive)
         example_store) = Ok 11%positive /\
  snd (Store.merge_fields (Store.PRef 5%positive) (Store.PRef 7%positive)
         example_store) !! 11%positive
  = Some (Store.OList [Store.PRef 12%positive]) /\
  snd (Store.merge_fields (Store.PRef 5%positive) (Store.PRef 7%positive)
         example_store) !! 12%positive
  = Some (Store.ODict (list_to_map
            [("id", Store.PStr "x"); ("source", Store.PStr "user");
             ("default", Store.PInt 9)])) /\
  snd (Store.merge_fields (Store.PRef 5%positive) (Store.PRef 7%positive)
         example_store) !! 2%positive
  = Some (Store.ODict (list_to_map
            [("id", Store.PStr "x"); ("source", Store.PStr "user");
             ("default", Store.PInt 5)])).
Proof.
  destruct (no_side_effects (H := name_interp)) as (Hmf & _ & Hcv).
  specialize (Hcv name_interp_preserves).
  split; [vm_compute; reflexivity|].
  split; [vm_compute; reflexivity|].
  split; [|split; [vm_compute; reflexivity|split; [vm_compute; reflexivity|
    split; [vm_compute; reflexivity|]]]].
  - apply (proj1 (Hcv (Store.PRef 1%positive) (Store.PRef 4%positive)
                    example_store)).
    vm_compute; reflexivity.
  - apply (proj1 (Hmf (Store.PRef 5%positive) (Store.PRef 7%positive)
                    example_store)).
    vm_compute; reflexivity.
Defined.

(** C8 as stated fails.  The context is a shallow copy of the inputs: a list
    that the inputs hold is the list the context holds, the interpreter is
    given the context, and a formula that calls a method of that list changes
    the object the caller passed in.  The evaluation of the field
    [y = xs.append(0)] on the inputs [{xs: [1]}] returns a new context and
    leaves [[1, 0]] as the list of the inputs. *)
Lemma formula_changes_inputs :
  fst (Store.compute_values (H := append_interp) (Store.PRef 1%positive)
         (Store.PRef 3%positive) aliasing_store) = Ok 5%positive /\
  aliasing_store !! 3%positive
  = Some (Store.ODict (list_to_map [("xs", Store.PRef 4%positive)])) /\
  aliasing_store !! 4%positive = Some (Store.OList [Store.PInt 1]) /\
  snd (Store.compute_values (H := append_interp) (Store.PRef 1%positive)
         (Store.PRef 3%positive) aliasing_store) !! 4%positive
  = Some (Store.OList [Store.PInt 1; Store.PInt 0]) /\
  ~ preserved aliasing_store
      (snd (Store.compute_values (H := append_interp) (Store.PRef 1%positive)
              (Store.PRef 3%positive) aliasing_store)).
Proof.
  assert (Hafter :
    snd (Store.compute_values (H := append_interp) (Store.PRef 1%positive)
           (Store.PRef 3%positive) aliasing_store) !! 4%positive
    = Some (Store.OList [Store.PInt 1; Store.PInt 0]))
    by (vm_compute; reflexivity).
  split; [vm_compute; reflexivity|].
  split; [vm_compute; reflexivity|].
  split; [vm_compute; reflexivity|].
  split; [exact Hafter|].
  intros Hp.
  assert (Hbefore : aliasing_store !! 4%positive
                    = Some (Store.OList [Store.PInt 1]))
    by (vm_compute; reflexivity).
  pose proof (eq_trans (eq_sym Hafter) (Hp _ _ Hbefore)) as Heq.
  discriminate Heq.
Qed.

(** * Further properties of the code *)

(** ** What an evaluation changes *)

Section OtherKeys.
Context `{Interpreter}.

Lemma calc_loop_other_keys fields engine ctx changed engine' ctx' changed' k :
  calc_loop fields engine ctx changed = Ok (engine', ctx', changed') ->
  (forall f, f ∈ fields -> is_calc f = true -> field_id f <> Some k) ->
  ctx' !! k = ctx !! k.
Proof.
  revert engine ctx changed.
  induction fields as [|f rest IH]; intros engine ctx changed Hl Hk;
    simpl in Hl.
  - by injection Hl as _ <- _.
  - assert (Hrest : forall g, g ∈ rest -> is_calc g = true ->
                              field_id g <> Some k).
    { intros g Hg. apply Hk. by right. }
    pose proof (Hk f (list_elem_of_here _ _)) as Hf. unfold is_calc in Hf.
    destruct (py_eq _ _ && has_key f "formula"); [|by eapply IH].
    destruct (interp_call _ engine) as [[v|e] engine1]; simpl in Hl; [|done].
    unfold getitem_id in Hl.
    destruct (field_id f) as [i|] eqn:Hi; simpl in Hl; [|done].
    destruct (py_ne _ v); [|by eapply IH].
    rewrite (IH _ _ _ Hl Hrest). apply lookup_insert_ne.
    intros ->. by apply Hf.
Qed.

Lemma iterate_other_keys budget fields engine ctx n r k :
  iterate budget fields engine ctx n = Ok r ->
  (forall f, f ∈ fields -> is_calc f = true -> field_id f <> Some k) ->
  run_ctx r !! k = ctx !! k.
Proof.
  revert engine ctx n.
  induction budget as [|budget IH]; intros engine ctx n Hit Hk; simpl in Hit.
  - by injection Hit as <-.
  - unfold one_pass in Hit.
    destruct (calc_loop fields _ ctx false)
      as [[[engine' ctx'] changed]|e] eqn:Hp; simpl in Hit; [|done].
    pose proof (calc_loop_other_keys _ _ _ _ _ _ _ k Hp Hk) as Hsame.
    destruct changed; simpl in Hit.
    + by rewrite (IH _ _ _ Hit Hk).
    + by injection Hit as <-.
Qed.

End OtherKeys.

Lemma seed_with_user_ids dflt fields ctx ctx' :
  seed_with dflt fields ctx = Ok ctx' ->
  forall f, f ∈ fields -> is_user dflt f = true -> is_Some (field_id f).
Proof.
  intros Hs f Hf Hu.
  destruct (seed_with_ids _ _ _ _ f Hs Hf Hu) as (i & -> & _). by eexists.
Qed.

Lemma seed_with_lookup_inv dflt fields ctx ctx' k :
  seed_with dflt fields ctx = Ok ctx' ->
  ctx' !! k = match ctx !! k with
              | Some v => Some v
              | None => first_default dflt fields k
              end.
Proof.
  intros Hs.
  destruct (seed_with_lookup dflt fields ctx (seed_with_user_ids _ _ _ _ Hs))
    as (ctx2 & Hs2 & Hl).
  rewrite Hs in Hs2. injection Hs2 as <-. apply Hl.
Qed.

(** X1. An evaluation changes the entries of calc fields only.  For a key
    that is the id of no field with source "calc" and a formula, the context
    that either evaluator returns holds what the seeding left there: the
    input when the inputs have the key, else the default of the first field
    seeded under that id, else nothing. *)
Theorem evaluation_changes_only_calc_fields `{Interpreter}
    (fields : list field) (inputs ctx : context) (k : string) :
  (forall f, f ∈ fields -> is_calc f = true -> field_id f <> Some k) ->
  (ScenarioBuilder.compute_values fields inputs = Ok ctx ->
   ctx !! k = match inputs !! k with
              | Some v => Some v
              | None => first_default None fields k
              end) /\
  (fst <$> TemplateRenderer.compute_values (TemplateRenderer.init inputs)
             fields = Ok ctx ->
   ctx !! k = match inputs !! k with
              | Some v => Some v
              | None => first_default (Some (VStr "user")) fields k
              end).
Proof.
  intros Hk. split.
  - unfold compute_values, compute_values_run.
    destruct (seed fields inputs) as [ctx0|e] eqn:Hs; [|done].
    change (Ok ctx0 ≫= _) with (iterate 8 fields interp_new ctx0 0).
    destruct (iterate 8 fields interp_new ctx0 0) as [r|e] eqn:Hit; [|done].
    intros [= <-]. rewrite (iterate_other_keys _ _ _ _ _ _ k Hit Hk).
    rewrite seed_is_seed_with in Hs. by apply seed_with_lookup_inv.
  - unfold TemplateRenderer.compute_values.
    cbn [TemplateRenderer.init TemplateRenderer.r_values
         TemplateRenderer.r_overrides].
    destruct (TemplateRenderer.seed fields inputs) as [ctx0|e] eqn:Hs; [|done].
    change (Ok ctx0 ≫= ?g) with (g ctx0). cbv beta.
    rewrite TR_iterate_eq.
    destruct (iterate 8 fields interp_new ctx0 0) as [r|e] eqn:Hit; [|done].
    intros [= <-]. rewrite (iterate_other_keys _ _ _ _ _ _ k Hit Hk).
    rewrite TR_seed_is_seed_with in Hs. by apply seed_with_lookup_inv.
Qed.

Lemma evaluation_changes_only_calc_fields_witness :
  ScenarioBuilder.compute_values (H := asteval false)
    [user_field "n" (VInt 5); calc_field "q" "n + 1"] {["n" := VInt 7]}
  = Ok {["n" := VInt 7; "q" := VInt 8]} /\
  ({["n" := VInt 7; "q" := VInt 8]} : context) !! "n" = Some (VInt 7).
Proof.
  assert (Hrun : ScenarioBuilder.compute_values (H := asteval false)
            [user_field "n" (VInt 5); calc_field "q" "n + 1"]
            {["n" := VInt 7]}
          = Ok {["n" := VInt 7; "q" := VInt 8]}) by (vm_compute; reflexivity).
  split; [exact Hrun|].
  refine (eq_trans (proj1 (evaluation_changes_only_calc_fields
                             (H := asteval false) _ _ _ "n" _) Hrun) _).
  - intros f Hf Hc.
    repeat (apply elem_of_cons in Hf as [->|Hf]; [discriminate|]).
    by apply elem_of_nil in Hf.
  - vm_compute; reflexivity.
Defined.

(** ** Labels and units *)

Lemma build_gmap_last fields gm gm' k :
  build_gmap fields gm = Ok gm' ->
  gm' !! k = match last_with_id fields k with
             | Some g => Some g
             | None => gm !! k
             end.
Proof.
  revert gm. induction fields as [|f rest IH]; intros gm Hb;
    cbn [build_gmap last_with_id] in *.
  - by injection Hb as <-.
  - unfold getitem_id in Hb.
    destruct (field_id f) as [i|] eqn:Hi; cbn [mbind result_bind] in Hb;
      [|done].
    rewrite (IH _ Hb). destruct (last_with_id rest k) as [g|]; [done|].
    destruct (decide (i = k)) as [->|Hne].
    + by rewrite lookup_insert_eq, bool_decide_eq_true_2.
    + rewrite lookup_insert_ne by done.
      rewrite bool_decide_eq_false_2; [done|]. congruence.
Qed.

Lemma title_from_nonempty cased s : s <> "" -> title_from cased s <> "".
Proof. destruct s; [done|]. simpl. discriminate. Qed.

Lemma replace_underscores_nonempty s : s <> "" -> replace_underscores s <> "".
Proof. destruct s; [done|]. simpl. discriminate. Qed.

Lemma truthy_VStr s : s <> "" -> truthy (VStr s) = true.
Proof.
  intros Hs. simpl. apply negb_true_iff. by apply String.eqb_neq.
Qed.

(** X2. The order in which a label is looked for.  A field's own label, when
    it is truthy, is the label, whatever the configurations hold and even for
    a field without id.  Otherwise the entry of the scenario's
    [field_labels] for the field's id is the label, truthy or not, and the
    catalogue is not read.  Otherwise, on a catalogue whose fields all have
    an id, the label is the label of the last catalogue field of that id when
    there is such a field and its label is truthy; and when there is none, or
    its label is falsy, the label is, for an id of ASCII characters, the id
    with its underscores as spaces and in title case. *)
Theorem label_precedence (f : field) (gc : globals_cfg) (sc : scenario_file) :
  (truthy (get f "label") = true ->
   resolve_label f gc sc = Ok (get f "label")) /\
  (forall i l,
     truthy (get f "label") = false -> field_id f = Some i ->
     sf_field_labels sc !! i = Some l ->
     resolve_label f gc sc = Ok l) /\
  (forall i g,
     truthy (get f "label") = false -> field_id f = Some i ->
     sf_field_labels sc !! i = None ->
     (forall g', g' ∈ g_fields gc -> is_Some (field_id g')) ->
     last_with_id (g_fields gc) i = Some g ->
     truthy (get g "label") = true ->
     resolve_label f gc sc = Ok (get g "label")) /\
  (forall i,
     truthy (get f "label") = false -> field_id f = Some i ->
     sf_field_labels sc !! i = None ->
     (forall g', g' ∈ g_fields gc -> is_Some (field_id g')) ->
     match last_with_id (g_fields gc) i with
     | Some g => truthy (get g "label") = false
     | None => True
     end ->
     is_ascii i = true ->
     resolve_label f gc sc = Ok (VStr (str_title (replace_underscores i)))).
Proof.
  unfold resolve_label. split; [|split; [|split]].
  - by intros ->.
  - intros i l -> Hi Hl. unfold getitem_id. rewrite Hi. simpl. by rewrite Hl.
  - intros i g -> Hi Hl Hid Hlast Ht. unfold getitem_id. rewrite Hi. simpl.
    rewrite Hl.
    destruct (build_gmap_ok (g_fields gc) ∅ Hid) as [gm Hgm]. rewrite Hgm.
    simpl. rewrite (build_gmap_last _ _ _ i Hgm), Hlast. by rewrite Ht.
  - intros i -> Hi Hl Hid Hlast _. unfold getitem_id. rewrite Hi. simpl.
    rewrite Hl.
    destruct (build_gmap_ok (g_fields gc) ∅ Hid) as [gm Hgm]. rewrite Hgm.
    simpl. rewrite (build_gmap_last _ _ _ i Hgm).
    destruct (last_with_id (g_fields gc) i) as [g|].
    + by rewrite Hlast.
    + by rewrite lookup_empty.
Qed.

Lemma label_precedence_witness :
  resolve_label (mk_field "rate" [("label", VStr "Rate")])
    (GlobalsCfg []) (ScenarioFile (ScenarioCfg [] ∅ []) ∅ VNone None None)
  = Ok (VStr "Rate") /\
  resolve_label (mk_field "rate" [])
    (GlobalsCfg [mk_field "rate" [("label", VStr "First")];
                 mk_field "rate" [("label", VStr "Second")]])
    (ScenarioFile (ScenarioCfg [] ∅ []) ∅ VNone None None)
  = Ok (VStr "Second") /\
  resolve_label (mk_field "monthly_payment" [])
    (GlobalsCfg [mk_field "monthly_payment" [("label", VStr "")]])
    (ScenarioFile (ScenarioCfg [] ∅ []) ∅ VNone None None)
  = Ok (VStr "Monthly Payment").
Proof.
  split; [|split].
  - refine (eq_trans (proj1 (label_precedence
                               (mk_field "rate" [("label", VStr "Rate")])
                               _ _) _) _);
      vm_compute; reflexivity.
  - refine (eq_trans
              (proj1 (proj2 (proj2 (label_precedence (mk_field "rate" []) _ _)))
                 "rate" (mk_field "rate" [("label", VStr "Second")])
                 _ _ _ _ _ _) _);
      try (vm_compute; reflexivity).
    intros g Hg.
    repeat (apply elem_of_cons in Hg as [->|Hg]; [by eexists|]).
    by apply elem_of_nil in Hg.
  - refine (eq_trans
              (proj2 (proj2 (proj2 (label_precedence
                                      (mk_field "monthly_payment" []) _ _)))
                 "monthly_payment" _ _ _ _ _ _) _);
      try (vm_compute; reflexivity).
    intros g Hg.
    repeat (apply elem_of_cons in Hg as [->|Hg]; [by eexists|]).
    by apply elem_of_nil in Hg.
Defined.

(** X3. A label is found, and is not empty.  For a field with a non-empty
    id, on a catalogue whose fields all have an id and with a scenario whose
    [field_labels] gives this id no falsy label, [_resolve_label] returns a
    truthy value: never [None], never the empty string. *)
Theorem resolved_label_is_truthy (f : field) (gc : globals_cfg)
    (sc : scenario_file) (i : string) :
  field_id f = Some i -> i <> "" ->
  (forall l, sf_field_labels sc !! i = Some l -> truthy l = true) ->
  (forall g, g ∈ g_fields gc -> is_Some (field_id g)) ->
  exists l, resolve_label f gc sc = Ok l /\ truthy l = true.
Proof.
  intros Hi Hne Hlabels Hid. unfold resolve_label.
  destruct (truthy (get f "label")) eqn:Hown; [by eexists|].
  unfold getitem_id. rewrite Hi. simpl.
  destruct (sf_field_labels sc !! i) as [l|] eqn:Hl.
  { exists l. split; [done|]. by apply Hlabels. }
  destruct (build_gmap_ok (g_fields gc) ∅ Hid) as [gm Hgm]. rewrite Hgm. simpl.
  assert (Hderived : truthy (VStr (str_title (replace_underscores i))) = true).
  { apply truthy_VStr, title_from_nonempty.
    by apply replace_underscores_nonempty. }
  destruct (gm !! i) as [g|]; [|by eexists].
  destruct (truthy (get g "label")) eqn:Ht; by eexists.
Qed.

Lemma resolved_label_is_truthy_witness :
  exists l,
    resolve_label (mk_field "loan_term" [("label", VStr "")])
      (GlobalsCfg [mk_field "loan_term" [("label", VNone)]])
      (ScenarioFile (ScenarioCfg [] ∅ []) ∅ VNone None None)
    = Ok l /\ truthy l = true.
Proof.
  apply (resolved_label_is_truthy _ _ _ "loan_term").
  - reflexivity.
  - discriminate.
  - intros l Hl. vm_compute in Hl. discriminate.
  - intros g Hg. apply list_elem_of_singleton in Hg as ->. by eexists.
Defined.

(** ** The prepared scenario *)

Lemma merge_loop_inv gm sc ids merged out :
  merge_loop gm sc ids merged = Ok out ->
  forall fid, fid ∈ ids -> is_Some (gm !! fid).
Proof.
  intros Hm fid Hin. destruct (gm !! fid) eqn:Hg; [by eexists|].
  destruct (merge_loop_unknown gm sc ids fid Hin Hg)
    as (pre & k & post & _ & _ & _ & Hr).
  by rewrite Hr in Hm.
Qed.

Lemma merge_fields_inv gc sc merged :
  merge_fields gc sc = Ok merged ->
  exists sourced,
    merged = sourced ++ s_fields sc /\
    Forall2 (fun fid m =>
               exists g, g ∈ g_fields gc /\ field_id g = Some fid /\
                 m = sourced_field g (default ∅ (overrides sc !! fid)))
            (use_fields sc) sourced.
Proof.
  unfold merge_fields. intros Hm.
  destruct (build_gmap (g_fields gc) ∅) as [gm|e] eqn:Hgm; simpl in Hm; [|done].
  destruct (merge_loop gm sc (use_fields sc) []) as [out|e] eqn:Hl;
    simpl in Hm; [|done].
  injection Hm as <-.
  destruct (merge_loop_ok gm sc (use_fields sc) []
              (merge_loop_inv _ _ _ _ _ Hl)) as (sourced & Hl2 & Hall).
  rewrite Hl in Hl2. injection Hl2 as ->. simpl.
  exists sourced. split; [done|].
  eapply Forall2_impl; [exact Hall|]. intros fid m (g & Hg & ->).
  destruct (build_gmap_lookup _ _ _ _ _ Hgm Hg) as [[Hin Hgid]|Hempty];
    [by exists g|by rewrite lookup_empty in Hempty].
Qed.

Lemma sourced_field_not_calc g ov : is_calc (sourced_field g ov) = false.
Proof.
  unfold is_calc, get.
  by rewrite sourced_field_attrs, decide_True by done.
Qed.

Section Prepared.
Context `{Interpreter}.

Lemma prepare_fields_spec units gc sc values fields outs :
  prepare_fields units gc sc values fields = Ok outs ->
  Forall2 (fun f o =>
             field_id f = Some (fo_id o) /\
             fo_value o = ctx_get values (fo_id o) /\
             fo_source o = get f "source" /\
             fo_type o = get f "type" /\
             fo_unit o = default (get f "unit") (units !! fo_id o) /\
             resolve_label f gc sc = Ok (fo_label o))
          fields outs.
Proof.
  revert outs. induction fields as [|f rest IH]; intros outs Hp; simpl in Hp.
  - injection Hp as <-. constructor.
  - unfold resolve_unit, getitem_id in Hp.
    destruct (field_id f) as [i|] eqn:Hi; simpl in Hp; [|done].
    destruct (resolve_label f gc sc) as [label|e] eqn:Hlabel.
    2:{ by destruct (units !! i). }
    destruct (prepare_fields units gc sc values rest) as [prepared|e] eqn:Hrest.
    2:{ by destruct (units !! i). }
    specialize (IH _ eq_refl).
    destruct (units !! i) as [u|] eqn:Hu; simpl in Hp; injection Hp as <-;
      constructor; try done; simpl; by rewrite Hu.
Qed.

Lemma build_inv inputs units gc sc d :
  build inputs units gc sc = Ok d ->
  exists merged,
    merge_fields gc (sf_merge sc) = Ok merged /\
    compute_values merged inputs = Ok (sd_values d) /\
    prepare_fields units gc sc (sd_values d) merged = Ok (sd_fields d) /\
    iter_value (default (VList []) (sf_choices sc)) = Ok (sd_choices d).
Proof.
  unfold build. intros Hb.
  destruct (merge_fields gc (sf_merge sc)) as [merged|e] eqn:Hm;
    cbn [mbind result_bind] in Hb; [|done].
  destruct (compute_values merged inputs) as [values|e] eqn:Hv;
    cbn [mbind result_bind] in Hb; [|done].
  destruct (prepare_fields units gc sc values merged) as [prepared|e] eqn:Hp;
    cbn [mbind result_bind] in Hb; [|done].
  destruct (iter_value (default (VList []) (sf_choices sc)))
    as [choices|e] eqn:Hc; cbn [mbind result_bind] in Hb; [|done].
  injection Hb as <-. by exists merged.
Qed.

End Prepared.

(** X4. One output per merged field, in order.  When [build] returns, the
    ids of the prepared fields are the ids of [use_fields], in their order,
    followed by the ids of the scenario's own fields, in theirs. *)
Theorem build_outputs_in_order `{Interpreter} (inputs units : context)
    (gc : globals_cfg) (sc : scenario_file) (d : ScenarioData) :
  build inputs units gc sc = Ok d ->
  map (fun o => Some (fo_id o)) (sd_fields d)
  = map Some (use_fields (sf_merge sc)) ++ map field_id (s_fields (sf_merge sc)).
Proof.
  intros Hb. destruct (build_inv _ _ _ _ _ Hb) as (merged & Hm & _ & Hp & _).
  apply prepare_fields_spec in Hp.
  destruct (merge_fields_inv _ _ _ Hm) as (sourced & -> & Hall).
  assert (Hids : map field_id (sourced ++ s_fields (sf_merge sc))
                 = map (fun o => Some (fo_id o)) (sd_fields d)).
  { clear -Hp. induction Hp as [|f o fs os (Hid & _) _ IH]; [done|].
    simpl. by rewrite Hid, IH. }
  rewrite <- Hids, map_app. f_equal.
  clear -Hall. induction Hall as [|fid m ids ms (g & _ & Hg & ->) _ IH]; [done|].
  cbn [map]. by rewrite sourced_field_id, Hg, IH.
Qed.

Lemma build_outputs_in_order_witness :
  exists d,
    build (H := asteval false) ∅ ∅
      (GlobalsCfg [mk_field "rate" [("unit", VStr "%"); ("default", VInt 5)]])
      (ScenarioFile
         (ScenarioCfg ["rate"] ∅ [calc_field "double" "rate + rate"])
         ∅ VNone None None)
    = Ok d /\
    map (fun o => Some (fo_id o)) (sd_fields d) = [Some "rate"; Some "double"].
Proof.
  destruct (build (H := asteval false) ∅ ∅
      (GlobalsCfg [mk_field "rate" [("unit", VStr "%"); ("default", VInt 5)]])
      (ScenarioFile
         (ScenarioCfg ["rate"] ∅ [calc_field "double" "rate + rate"])
         ∅ VNone None None)) as [d|e] eqn:Hb; [|by vm_compute in Hb].
  exists d. split; [done|].
  apply (build_outputs_in_order (H := asteval false) _ _ _ _ _ Hb).
Defined.

Lemma Forall2_elem_of_r {A B} (P : A -> B -> Prop) l k y :
  Forall2 P l k -> y ∈ k -> exists x, x ∈ l /\ P x y.
Proof.
  induction 1 as [|x y' l k HP _ IH]; intros Hy.
  - by apply elem_of_nil in Hy.
  - apply elem_of_cons in Hy as [->|Hy].
    + exists x. split; [by left|done].
    + destruct (IH Hy) as (x' & Hx' & HP'). exists x'. split; [by right|done].
Qed.

Lemma Forall2_elem_of_l {A B} (P : A -> B -> Prop) l k x :
  Forall2 P l k -> x ∈ l -> exists y, y ∈ k /\ P x y.
Proof.
  induction 1 as [|x' y l k HP _ IH]; intros Hx.
  - by apply elem_of_nil in Hx.
  - apply elem_of_cons in Hx as [->|Hx].
    + exists y. split; [by left|done].
    + destruct (IH Hx) as (y' & Hy' & HP'). exists y'. split; [by right|done].
Qed.

Lemma compute_values_other_keys `{Interpreter} fields inputs ctx k :
  compute_values fields inputs = Ok ctx ->
  (forall f, f ∈ fields -> is_calc f = true -> field_id f <> Some k) ->
  ctx !! k = match inputs !! k with
             | Some v => Some v
             | None => first_default None fields k
             end.
Proof.
  unfold compute_values, compute_values_run. intros Hc Hk.
  destruct (seed fields inputs) as [ctx0|e] eqn:Hs; [|done].
  change (Ok ctx0 ≫= _) with (iterate 8 fields interp_new ctx0 0) in Hc.
  destruct (iterate 8 fields interp_new ctx0 0) as [r|e] eqn:Hit; [|done].
  injection Hc as <-. rewrite (iterate_other_keys _ _ _ _ _ _ k Hit Hk).
  rewrite seed_is_seed_with in Hs. by apply seed_with_lookup_inv.
Qed.

(** X5. The values of the prepared fields.  When [build] returns, the value
    of every prepared field is what the returned context holds for its id,
    [None] when the context lacks the id; and an input whose key is the id of
    no calc field of the scenario is in that context as it was given, and is
    the value of every prepared field of that id. *)
Theorem build_output_values `{Interpreter} (inputs units : context)
    (gc : globals_cfg) (sc : scenario_file) (d : ScenarioData) :
  build inputs units gc sc = Ok d ->
  (forall o, o ∈ sd_fields d ->
             fo_value o = ctx_get (sd_values d) (fo_id o)) /\
  (forall k v,
     inputs !! k = Some v ->
     (forall f, f ∈ s_fields (sf_merge sc) -> is_calc f = true ->
                field_id f <> Some k) ->
     sd_values d !! k = Some v /\
     forall o, o ∈ sd_fields d -> fo_id o = k -> fo_value o = v).
Proof.
  intros Hb. destruct (build_inv _ _ _ _ _ Hb) as (merged & Hm & Hv & Hp & _).
  apply prepare_fields_spec in Hp.
  assert (Hvalues : forall o, o ∈ sd_fields d ->
                      fo_value o = ctx_get (sd_values d) (fo_id o)).
  { intros o Ho.
    by destruct (Forall2_elem_of_r _ _ _ _ Hp Ho) as (f & _ & _ & Hval & _). }
  split; [exact Hvalues|].
  intros k v Hk Hcalc.
  assert (Hctx : sd_values d !! k = Some v).
  { rewrite (compute_values_other_keys _ _ _ k Hv); [by rewrite Hk|].
    destruct (merge_fields_inv _ _ _ Hm) as (sourced & -> & Hall).
    intros f Hf Hc. apply elem_of_app in Hf as [Hf|Hf]; [|by apply Hcalc].
    destruct (Forall2_elem_of_r _ _ _ _ Hall Hf) as (fid & _ & g & _ & _ & ->).
    by rewrite sourced_field_not_calc in Hc. }
  split; [exact Hctx|].
  intros o Ho <-. rewrite (Hvalues o Ho). unfold ctx_get. by rewrite Hctx.
Qed.

Lemma build_output_values_witness :
  exists d,
    build (H := asteval false) {["rate" := VInt 7]} ∅
      (GlobalsCfg [mk_field "rate" [("unit", VStr "%"); ("default", VInt 5)]])
      (ScenarioFile
         (ScenarioCfg ["rate"] ∅ [calc_field "double" "rate + rate"])
         ∅ VNone None None)
    = Ok d /\
    sd_values d !! "rate" = Some (VInt 7).
Proof.
  destruct (build (H := asteval false) {["rate" := VInt 7]} ∅
      (GlobalsCfg [mk_field "rate" [("unit", VStr "%"); ("default", VInt 5)]])
      (ScenarioFile
         (ScenarioCfg ["rate"] ∅ [calc_field "double" "rate + rate"])
         ∅ VNone None None)) as [d|e] eqn:Hb; [|by vm_compute in Hb].
  exists d. split; [done|].
  apply (proj2 (build_output_values (H := asteval false) _ _ _ _ _ Hb)
           "rate" (VInt 7)).
  - vm_compute; reflexivity.
  - intros f Hf Hc. apply list_elem_of_singleton in Hf as ->. discriminate.
Defined.

(** X6. The fields selected from the catalogue.  When [build] returns, the
    first prepared fields are those of [use_fields], one for each id and in
    that order: each has source "user" and the type of a catalogue field of
    its id, and its unit is the entry of the caller's [units] for the id when
    there is one, else the unit of the scenario's override for the id when
    there is one, else the unit of the catalogue field. *)
Theorem selected_fields_are_user_fields `{Interpreter}
    (inputs units : context) (gc : globals_cfg) (sc : scenario_file)
    (d : ScenarioData) :
  build inputs units gc sc = Ok d ->
  Forall2
    (fun fid o =>
       fo_id o = fid /\ fo_source o = VStr "user" /\
       exists g, g ∈ g_fields gc /\ field_id g = Some fid /\
         fo_type o = get g "type" /\
         fo_unit o =
         default
           (default (get g "unit")
                    (default ∅ (overrides (sf_merge sc) !! fid) !! "unit"))
           (units !! fid))
    (use_fields (sf_merge sc))
    (take (length (use_fields (sf_merge sc))) (sd_fields d)).
Proof.
  intros Hb. destruct (build_inv _ _ _ _ _ Hb) as (merged & Hm & _ & Hp & _).
  apply prepare_fields_spec in Hp.
  destruct (merge_fields_inv _ _ _ Hm) as (sourced & -> & Hall).
  apply Forall2_app_inv_l in Hp as (outs1 & outs2 & Hp1 & _ & ->).
  rewrite (Forall2_length _ _ _ Hall), (Forall2_length _ _ _ Hp1).
  rewrite take_app_length.
  clear -Hall Hp1. revert outs1 Hp1.
  induction Hall as [|fid m ids ms (g & Hg & Hgid & ->) _ IH];
    intros outs1 Hp1.
  - apply Forall2_nil_inv_l in Hp1 as ->. constructor.
  - apply Forall2_cons_inv_l in Hp1
      as (o & outs & (Hid & _ & Hsrc & Hty & Hunit & _) & Hrest & ->).
    constructor; [|by apply IH].
    rewrite sourced_field_id, Hgid in Hid. injection Hid as Hid.
    unfold get in Hsrc, Hty, Hunit. rewrite sourced_field_attrs in Hsrc, Hty, Hunit.
    rewrite decide_True in Hsrc by done.
    rewrite decide_False, decide_False in Hty by (intros [?|?]; done) || done.
    rewrite decide_False, decide_True in Hunit by (by left) || done.
    split; [done|]. split; [done|]. exists g.
    split; [done|]. split; [done|]. split; [done|].
    rewrite Hunit, <- Hid. unfold get.
    by destruct (default ∅ (overrides (sf_merge sc) !! fid) !! "unit").
Qed.

Lemma selected_fields_are_user_fields_witness :
  exists d o,
    build (H := asteval false) ∅ {["term" := VStr "months"]}
      (GlobalsCfg [mk_field "rate" [("unit", VStr "%"); ("source", VStr "calc")];
                   mk_field "term" [("unit", VStr "years")]])
      (ScenarioFile
         (ScenarioCfg ["rate"; "term"] {["rate" := {["unit" := VStr "bp"]}]} [])
         ∅ VNone None None)
    = Ok d /\
    take 2 (sd_fields d) = [o; MkFieldOutput "term" (VStr "Term") VNone
                                 (VStr "months") (VStr "user") VNone] /\
    fo_source o = VStr "user" /\ fo_unit o = VStr "bp".
Proof.
  destruct (build (H := asteval false) ∅ {["term" := VStr "months"]}
      (GlobalsCfg [mk_field "rate" [("unit", VStr "%"); ("source", VStr "calc")];
                   mk_field "term" [("unit", VStr "years")]])
      (ScenarioFile
         (ScenarioCfg ["rate"; "term"] {["rate" := {["unit" := VStr "bp"]}]} [])
         ∅ VNone None None)) as [d|e] eqn:Hb; [|by vm_compute in Hb].
  pose proof (selected_fields_are_user_fields (H := asteval false)
                _ _ _ _ _ Hb) as Hsel.
  cbn [sf_merge use_fields length] in Hsel.
  vm_compute in Hb. injection Hb as <-. cbn [sd_fields take] in *.
  apply Forall2_cons_inv_l in Hsel as (o & rest & (_ & Hsrc & _) & _ & Heq).
  injection Heq as <- <-.
  eexists _, _. split; [reflexivity|]. split; [reflexivity|].
  split; [exact Hsrc|]. reflexivity.
Defined.

(** ** When [build] returns *)

Section Returns.
Context `{Interpreter}.
Hypothesis call_returns :
  forall formula engine, exists v engine',
    interp_call formula engine = (Ok v, engine').

Lemma calc_loop_returns fields engine ctx changed :
  (forall f, f ∈ fields -> is_Some (field_id f)) ->
  exists r, calc_loop fields engine ctx changed = Ok r.
Proof.
  revert engine ctx changed.
  induction fields as [|f rest IH]; intros engine ctx changed Hid; simpl;
    [by eexists|].
  assert (Hrest : forall g, g ∈ rest -> is_Some (field_id g)).
  { intros g Hg. apply Hid. by right. }
  destruct (py_eq _ _ && has_key f "formula"); [|by apply IH].
  destruct (call_returns (get f "formula") engine) as (v & engine' & ->).
  simpl. destruct (Hid f (list_elem_of_here _ _)) as [i Hi].
  unfold getitem_id. rewrite Hi. simpl.
  destruct (py_ne _ v); by apply IH.
Qed.

Lemma iterate_returns budget fields engine ctx n :
  (forall f, f ∈ fields -> is_Some (field_id f)) ->
  exists r, iterate budget fields engine ctx n = Ok r.
Proof.
  intros Hid. revert engine ctx n.
  induction budget as [|budget IH]; intros engine ctx n; simpl; [by eexists|].
  unfold one_pass.
  destruct (calc_loop_returns fields (interp_update ctx engine) ctx false Hid)
    as ([[engine' ctx'] changed] & ->).
  simpl. destruct changed; simpl; [apply IH|by eexists].
Qed.

Lemma compute_values_returns fields inputs :
  (forall f, f ∈ fields -> is_Some (field_id f)) ->
  exists ctx, compute_values fields inputs = Ok ctx.
Proof.
  intros Hid. unfold compute_values, compute_values_run.
  destruct (seed_with_lookup None fields inputs) as (ctx0 & Hs & _).
  { intros f Hf _. by apply Hid. }
  rewrite seed_is_seed_with, Hs.
  change (Ok ctx0 ≫= _) with (iterate 8 fields interp_new ctx0 0).
  destruct (iterate_returns 8 fields interp_new ctx0 0 Hid) as [r ->].
  by eexists.
Qed.

Lemma resolve_label_returns f gc sc :
  is_Some (field_id f) ->
  (forall g, g ∈ g_fields gc -> is_Some (field_id g)) ->
  exists l, resolve_label f gc sc = Ok l.
Proof.
  intros [i Hi] Hcat. unfold resolve_label.
  destruct (truthy (get f "label")); [by eexists|].
  unfold getitem_id. rewrite Hi. simpl.
  destruct (sf_field_labels sc !! i); [by eexists|].
  destruct (build_gmap_ok (g_fields gc) ∅ Hcat) as [gm ->]. simpl.
  destruct (gm !! i) as [g|]; [|by eexists].
  destruct (truthy (get g "label")); by eexists.
Qed.

Lemma prepare_fields_returns units gc sc values fields :
  (forall f, f ∈ fields -> is_Some (field_id f)) ->
  (forall g, g ∈ g_fields gc -> is_Some (field_id g)) ->
  exists outs, prepare_fields units gc sc values fields = Ok outs.
Proof.
  intros Hid Hcat. induction fields as [|f rest IH]; simpl; [by eexists|].
  destruct IH as [outs ->]. { intros g Hg. apply Hid. by right. }
  pose proof (Hid f (list_elem_of_here _ _)) as Hf.
  destruct (resolve_label_returns f gc sc Hf Hcat) as [l ->].
  destruct Hf as [i Hi]. unfold resolve_unit, getitem_id. rewrite Hi. simpl.
  destruct (units !! i); by eexists.
Qed.

End Returns.

(** X7. When [build] returns.  Both configuration files being loaded, and
    their entries having the types of the data model (fields are objects,
    ids strings, [use_fields] a list, [overrides] and [field_labels]
    objects), with an interpreter whose calls all return (asteval as it is
    called here) and a catalogue whose fields all have an id, [build] returns
    a prepared scenario exactly when every id of [use_fields] is the id of a
    catalogue field, every field of the scenario's own list has an id, and
    the ["choices"] entry, when the scenario has one, can be iterated: it is
    a list, a string or an object, and not [null], a boolean or a number.
    Otherwise it raises. *)
Theorem build_returns_iff `{Interpreter} (inputs units : context)
    (gc : globals_cfg) (sc : scenario_file) :
  (forall formula engine, exists v engine',
     interp_call formula engine = (Ok v, engine')) ->
  (forall g, g ∈ g_fields gc -> is_Some (field_id g)) ->
  (exists d, build inputs units gc sc = Ok d) <->
  (forall fid, fid ∈ use_fields (sf_merge sc) ->
     exists g, g ∈ g_fields gc /\ field_id g = Some fid) /\
  (forall f, f ∈ s_fields (sf_merge sc) -> is_Some (field_id f)) /\
  match sf_choices sc with
  | None | Some (VList _) | Some (VStr _) | Some (VDict _) => True
  | Some VNone | Some (VBool _) | Some (VInt _) => False
  end.
Proof.
  intros Hcall Hcat. split.
  - intros [d Hb].
    destruct (build_inv _ _ _ _ _ Hb) as (merged & Hm & _ & Hp & Hc).
    apply prepare_fields_spec in Hp.
    destruct (merge_fields_inv _ _ _ Hm) as (sourced & -> & Hall).
    split; [|split].
    + intros fid Hfid.
      destruct (Forall2_elem_of_l _ _ _ _ Hall Hfid)
        as (m & _ & g & Hg & Hgid & _).
      by exists g.
    + intros f Hf.
      destruct (Forall2_elem_of_l _ _ _ f Hp) as (o & _ & Hid & _).
      { apply elem_of_app. by right. }
      by eexists.
    + by destruct (sf_choices sc) as [[]|].
  - intros (Huse & Hown & Hchoices). unfold build, merge_fields.
    destruct (build_gmap_ok (g_fields gc) ∅ Hcat) as [gm Hgm]. rewrite Hgm.
    destruct (merge_loop_ok gm (sf_merge sc) (use_fields (sf_merge sc)) [])
      as (sourced & Hl & Hall).
    { intros fid Hfid. apply (build_gmap_known _ _ _ fid Hgm). right.
      by apply Huse. }
    cbn [mbind result_bind]. rewrite Hl. cbn [mbind result_bind app].
    assert (Hid : forall f, f ∈ sourced ++ s_fields (sf_merge sc) ->
                            is_Some (field_id f)).
    { intros f Hf. apply elem_of_app in Hf as [Hf|Hf]; [|by apply Hown].
      destruct (Forall2_elem_of_r _ _ _ _ Hall Hf) as (fid & _ & g & Hg & ->).
      rewrite sourced_field_id.
      destruct (build_gmap_lookup _ _ _ _ _ Hgm Hg) as [[_ ->]|Hempty];
        [by eexists|by rewrite lookup_empty in Hempty]. }
    destruct (compute_values_returns Hcall _ inputs Hid) as [values ->].
    cbn [mbind result_bind].
    destruct (prepare_fields_returns units gc sc values _ Hid Hcat)
      as [outs ->].
    cbn [mbind result_bind].
    destruct (sf_choices sc) as [[]|]; try done; by eexists.
Qed.

Lemma asteval_call_returns formula engine :
  exists v engine',
    interp_call (Interpreter := asteval false) formula engine
    = (Ok v, engine').
Proof.
  simpl. unfold asteval_call.
  destruct (eval_expr engine formula); by eexists _, _.
Qed.

Lemma build_returns_iff_witness :
  exists d,
    build (H := asteval false) ∅ ∅
      (GlobalsCfg [mk_field "rate" [("default", VInt 5)]])
      (ScenarioFile
         (ScenarioCfg ["rate"] ∅ [calc_field "double" "rate + missing"])
         ∅ VNone None None)
    = Ok d.
Proof.
  apply (proj2 (build_returns_iff (H := asteval false) ∅ ∅
                  (GlobalsCfg [mk_field "rate" [("default", VInt 5)]])
                  (ScenarioFile
                     (ScenarioCfg ["rate"] ∅
                        [calc_field "double" "rate + missing"])
                     ∅ VNone None None)
                  asteval_call_returns
                  ltac:(intros g Hg; apply list_elem_of_singleton in Hg as ->;
                        by eexists))).
  split; [|split].
  - intros fid Hfid. apply list_elem_of_singleton in Hfid as ->.
    eexists. split; [apply list_elem_of_here|reflexivity].
  - intros f Hf. apply list_elem_of_singleton in Hf as ->. by eexists.
  - exact I.
Defined.

(** ** The payload of a template *)

Lemma row_cfg_rect' (P : row_cfg -> Prop) :
  (forall attrs cells children,
     Forall P children -> P (RowCfg attrs cells children)) ->
  forall cfg, P cfg.
Proof.
  intros Hrow. fix IH 1. intros [attrs cells children]. apply Hrow.
  induction children as [|c cs IHcs]; constructor; [apply IH|apply IHcs].
Qed.

Section PayloadProps.
Context `{Floats}.
Import TemplatePayload.

Lemma build_row_eq attrs cells children values :
  build_row (RowCfg attrs cells children) values =
  (i ← dict_getitem attrs "id";
   extra ← resolve_extra_label attrs values;
   cs ← build_cells cells values;
   kids ← match children with
          | [] => Ok None
          | _ => Some <$> build_rows children values
          end;
   Ok (Row i (default (VStr "") (assoc "label" attrs)) (assoc "type" attrs)
         match extra with
         | FValue VNone => None
         | _ => Some extra
         end cs kids)).
Proof.
  cbn [build_row].
  destruct (dict_getitem attrs "id") as [i|e]; [|done].
  destruct (resolve_extra_label attrs values) as [extra|e]; [|done].
  destruct (build_cells cells values) as [cs|e]; [|done].
  cbn [mbind result_bind].
  destruct children as [|c rest]; [done|].
  match goal with
  | |- context [?rows rest] =>
      assert (Hrows : forall l, rows l = build_rows l values)
  end.
  { induction l as [|c' l IH]; [done|]. cbn [build_rows]. by rewrite IH. }
  cbn [build_rows].
  by rewrite Hrows.
Qed.

Lemma build_cells_keys cells values cs :
  build_cells cells values = Ok cs -> map fst cs = map fst cells.
Proof.
  revert cs. induction cells as [|[k cfg] rest IH]; intros cs Hb;
    cbn [build_cells] in Hb.
  - by injection Hb as <-.
  - destruct (build_cell cfg values) as [c|e]; [|done].
    destruct (build_cells rest values) as [cs'|e]; [|done].
    cbn [mbind result_bind] in Hb. injection Hb as <-.
    cbn [map fst]. by rewrite (IH _ eq_refl).
Qed.

Lemma build_rows_skeleton rows values rs :
  Forall (fun cfg => forall r, build_row cfg values = Ok r ->
                               row_skeleton r = cfg_skeleton cfg) rows ->
  build_rows rows values = Ok rs ->
  map row_skeleton rs = map cfg_skeleton rows.
Proof.
  intros Hall. revert rs.
  induction Hall as [|cfg rest Hcfg _ IH]; intros rs Hb; cbn [build_rows] in Hb.
  - by injection Hb as <-.
  - destruct (build_row cfg values) as [r|e]; [|done].
    destruct (build_rows rest values) as [rs'|e]; [|done].
    cbn [mbind result_bind] in Hb. injection Hb as <-.
    cbn [map]. by rewrite (Hcfg _ eq_refl), (IH _ eq_refl).
Qed.

Lemma build_row_skeleton cfg values r :
  build_row cfg values = Ok r -> row_skeleton r = cfg_skeleton cfg.
Proof.
  revert r. induction cfg as [attrs cells children IH] using row_cfg_rect'.
  intros r. rewrite build_row_eq. unfold dict_getitem.
  destruct (assoc "id" attrs) as [i|] eqn:Hi; [|done].
  destruct (resolve_extra_label attrs values) as [extra|e]; [|done].
  destruct (build_cells cells values) as [cs|e] eqn:Hcs; [|done].
  cbn [mbind result_bind]. apply build_cells_keys in Hcs.
  destruct children as [|c rest].
  - cbn [mbind result_bind]. intros [= <-]. cbn [row_skeleton cfg_skeleton map].
    by rewrite Hi, Hcs.
  - destruct (build_rows (c :: rest) values) as [rs|e] eqn:Hrs; [|done].
    cbn [mbind result_bind fmap result_fmap]. intros [= <-].
    cbn [row_skeleton cfg_skeleton].
    by rewrite Hi, Hcs, (build_rows_skeleton _ _ _ IH Hrs).
Qed.

End PayloadProps.

(** X8. The payload follows the layout.  A row of the payload has the id of
    its row of the layout, a cell under each column key of that row, in the
    same order, and a child for each child row, in order and so on downwards;
    and without a filter on ids, [_build_tables] returns one table for each
    table of the layout, in order, with its id and the rows of its rows. *)
Theorem payload_follows_layout `{Floats} (values : context) :
  (forall cfg r,
     TemplatePayload.build_row cfg values = Ok r ->
     row_skeleton r = cfg_skeleton cfg) /\
  (forall tables out,
     TemplatePayload.build_tables None tables values = Ok out ->
     Forall2 (fun t tb =>
                assoc "id" (t_attrs t) = Some (TemplatePayload.tb_id tb) /\
                map row_skeleton (TemplatePayload.tb_rows tb)
                = map cfg_skeleton (t_rows t))
             tables out).
Proof.
  split; [intros cfg r; apply build_row_skeleton|].
  induction tables as [|t rest IH]; intros out Hb;
    cbn [TemplatePayload.build_tables TemplatePayload.selected
         mbind result_bind] in Hb.
  - injection Hb as <-. constructor.
  - unfold dict_getitem in Hb.
    destruct (assoc "id" (t_attrs t)) as [i|] eqn:Hi; [|done].
    destruct (TemplatePayload.build_rows (t_rows t) values) as [rows|e] eqn:Hr;
      [|done].
    destruct (TemplatePayload.build_tables None rest values) as [tbs|e];
      [|done].
    cbn [mbind result_bind] in Hb. injection Hb as <-.
    constructor; [|by apply IH]. split; [done|].
    cbn [TemplatePayload.tb_rows].
    apply (build_rows_skeleton _ values); [|done].
    apply Forall_forall. intros cfg _ r. apply build_row_skeleton.
Qed.

Lemma payload_follows_layout_witness :
  TemplatePayload.build_row (H := hundredths)
    (RowCfg [("id", VStr "fees"); ("label", VStr "Fees")]
            [("main", [("field", VStr "fee"); ("format", VStr "money")])]
            [RowCfg [("id", VStr "tax")] [] []])
    {["fee" := VInt 3]}
  = Ok (TemplatePayload.Row (VStr "fees") (VStr "Fees") None None
          [("main", TemplatePayload.Cell (TemplatePayload.FValue (VInt 3))
                      (VBool false))]
          (Some [TemplatePayload.Row (VStr "tax") (VStr "") None None []
                   None])) /\
  row_skeleton
    (TemplatePayload.Row (H := hundredths) (VStr "fees") (VStr "Fees") None
       None
       [("main", TemplatePayload.Cell (TemplatePayload.FValue (VInt 3))
                   (VBool false))]
       (Some [TemplatePayload.Row (VStr "tax") (VStr "") None None [] None]))
  = cfg_skeleton
      (RowCfg [("id", VStr "fees"); ("label", VStr "Fees")]
              [("main", [("field", VStr "fee"); ("format", VStr "money")])]
              [RowCfg [("id", VStr "tax")] [] []]).
Proof.
  assert (Hr : TemplatePayload.build_row (H := hundredths)
      (RowCfg [("id", VStr "fees"); ("label", VStr "Fees")]
              [("main", [("field", VStr "fee"); ("format", VStr "money")])]
              [RowCfg [("id", VStr "tax")] [] []])
      {["fee" := VInt 3]}
    = Ok (TemplatePayload.Row (VStr "fees") (VStr "Fees") None None
            [("main", TemplatePayload.Cell (TemplatePayload.FValue (VInt 3))
                        (VBool false))]
            (Some [TemplatePayload.Row (VStr "tax") (VStr "") None None []
                     None]))) by reflexivity.
  split; [exact Hr|].
  exact (proj1 (payload_follows_layout (H := hundredths) {["fee" := VInt 3]})
           _ _ Hr).
Defined.

(** X9. A filter on table ids.  With a set of ids, [_build_tables] returns
    what it returns without filter on the layout's tables whose id is a
    string of the set, error for error: a table that the filter leaves out
    is not looked at further, so that an error in it goes unnoticed, and a
    table without id is left out.  (An id that is a list or a dictionary
    makes the test itself fail.) *)
Theorem table_filter_is_selection `{Floats} (ids : gset string)
    (tables : list table_cfg) (values : context) :
  Forall (fun t => hashable (dict_get (t_attrs t) "id") = true) tables ->
  TemplatePayload.build_tables (Some ids) tables values
  = TemplatePayload.build_tables None (List.filter (kept ids) tables) values.
Proof.
  induction 1 as [|t rest Ht _ IH]; [done|].
  cbn [TemplatePayload.build_tables List.filter].
  unfold kept, TemplatePayload.selected.
  destruct (dict_get (t_attrs t) "id") as [| | |s| |] eqn:Hid;
    try discriminate Ht; cbn [mbind result_bind]; try exact IH.
  destruct (bool_decide (s ∈ ids)); [|exact IH].
  cbn [TemplatePayload.build_tables TemplatePayload.selected mbind result_bind].
  by rewrite IH.
Qed.

Lemma table_filter_is_selection_witness :
  TemplatePayload.build_tables (H := hundredths) (Some {["costs"]})
    [TableCfg [("title", VStr "no id")] [] [RowCfg [] [] []];
     TableCfg [("id", VStr "costs")] [] [];
     TableCfg [("id", VStr "rates")] [] [RowCfg [] [] []]] ∅
  = Ok [TemplatePayload.Table (VStr "costs") (VStr "") [] None None].
Proof.
  refine (eq_trans (table_filter_is_selection (H := hundredths)
                      {["costs"]} _ ∅ _) _).
  - repeat constructor.
  - reflexivity.
Defined.

(** ** Errors of the formatting *)

Section PayloadErrors.
Context `{Floats}.
Import TemplatePayload.



End PayloadErrors.



(** ** The cache of a renderer *)

Section PayloadCache.
Context `{Floats} `{Interpreter}.

Lemma TR_compute_values_cached self fields values self' :
  TemplateRenderer.compute_values self fields = Ok (values, self') ->
  forall fields',
    TemplateRenderer.compute_values self' fields' = Ok (values, self').
Proof.
  unfold TemplateRenderer.compute_values at 1.
  destruct (TemplateRenderer.r_values self) as [cached|] eqn:Hcache.
  - intros [= <- <-] fields'. unfold TemplateRenderer.compute_values.
    by rewrite Hcache.
  - destruct (TemplateRenderer.seed fields _) as [ctx|e];
      cbn [mbind result_bind]; [|done].
    destruct (TemplateRenderer.iterate 8 fields interp_new ctx 0) as [r|e];
      cbn [mbind result_bind]; [|done].
    by intros [= <- <-] fields'.
Qed.

End PayloadCache.

(** X12. A renderer evaluates once.  When [build_payload] has returned,
    calling it again on the same renderer returns the same payload and
    leaves the renderer as it is: the values are those of the first call,
    also when that evaluation used up its passes without a fixed point, and
    the fields are not evaluated again, whatever they are by then. *)
Theorem build_payload_is_repeatable `{Floats} `{Interpreter}
    (self : TemplateRenderer.renderer) (table_ids : option (gset string))
    (config : template_cfg) (p : TemplatePayload.payload)
    (self' : TemplateRenderer.renderer) :
  TemplatePayload.build_payload self table_ids config = Ok (p, self') ->
  TemplatePayload.build_payload self' table_ids config = Ok (p, self') /\
  forall fields',
    TemplatePayload.build_payload self' table_ids
      (TemplateCfg (c_title config) (c_currency config) fields'
         (c_inputs config) (c_notes config) (c_tables config)
         (c_layout_notes config))
    = Ok (p, self').
Proof.
  intros Hb.
  assert (Hany : forall fields',
    TemplatePayload.build_payload self' table_ids
      (TemplateCfg (c_title config) (c_currency config) fields'
         (c_inputs config) (c_notes config) (c_tables config)
         (c_layout_notes config))
    = Ok (p, self')).
  { intros fields'. unfold TemplatePayload.build_payload in *.
    destruct (TemplateRenderer.compute_values self (c_fields config))
      as [[values s]|e] eqn:Hc; cbn [mbind result_bind] in Hb; [|done].
    cbn [c_fields c_title c_currency c_inputs c_notes c_tables
         c_layout_notes].
    destruct (TemplatePayload.build_inputs config values) as [inputs|e]
      eqn:Hi; cbn [mbind result_bind] in Hb; [|done].
    destruct (TemplatePayload.build_tables table_ids (c_tables config) values)
      as [tables|e] eqn:Ht; cbn [mbind result_bind] in Hb; [|done].
    injection Hb as <- <-.
    rewrite (TR_compute_values_cached _ _ _ _ Hc fields').
    cbn [mbind result_bind].
    unfold TemplatePayload.build_inputs in *. cbn [c_inputs].
    rewrite Hi. cbn [mbind result_bind]. by rewrite Ht. }
  split; [|exact Hany].
  specialize (Hany (c_fields config)). by destruct config.
Qed.

Lemma build_payload_is_repeatable_witness :
  TemplatePayload.build_payload (H := hundredths) (H0 := asteval false)
    (TemplateRenderer.Renderer {["a" := VInt 0]} (Some {["a" := VInt 8]}))
    None
    (TemplateCfg VNone VNone [calc_field "a" "a + 1"] [] None
       [TableCfg [("id", VStr "t")] []
          [RowCfg [("id", VStr "r")] [("main", [("field", VStr "a")])] []]]
       VNone)
  = Ok (TemplatePayload.Payload VNone VNone []
          [TemplatePayload.Table (VStr "t") (VStr "")
             [TemplatePayload.Row (VStr "r") (VStr "") None None
                [("main", TemplatePayload.Cell
                            (TemplatePayload.FValue (VInt 8)) (VBool false))]
                None]
             None None]
          (VList []),
        TemplateRenderer.Renderer {["a" := VInt 0]} (Some {["a" := VInt 8]})).
Proof.
  refine (proj1 (build_payload_is_repeatable (H := hundredths)
                   (H0 := asteval false)
                   (TemplateRenderer.init {["a" := VInt 0]}) None _ _ _ _)).
  reflexivity.
Defined.

(** ** Overrides of the command line *)

Lemma split_once_app c k raw :
  contains c k = false ->
  contains c (k ++ String c raw) = true /\
  split_once c (k ++ String c raw) = (k, raw).
Proof.
  induction k as [|c' k IH]; simpl.
  - intros _. by rewrite Ascii.eqb_refl.
  - destruct (Ascii.eqb c' c); [done|]. simpl. intros Hk.
    destruct (IH Hk) as [-> ->]. done.
Qed.

Lemma split_once_inv c s :
  contains c s = true ->
  s = (fst (split_once c s) ++ String c (snd (split_once c s)))%string /\
  contains c (fst (split_once c s)) = false.
Proof.
  induction s as [|c' s IH]; simpl; [done|].
  destruct (Ascii.eqb c' c) eqn:Hc.
  - intros _. apply Ascii.eqb_eq in Hc as ->. done.
  - simpl. intros Hs. destruct (IH Hs) as [Heq Hk].
    destruct (split_once c s) as [before after]. simpl in *.
    rewrite Hc. split; [|done].
    change (String c' s = String c' (before ++ String c after)%string).
    by rewrite <- Heq.
Qed.

Section OverridesProps.
Context `{Library}.
Import Overrides.

Lemma parse_loop_union pairs m :
  parse_loop pairs m = (fun r => r ∪ m) <$> parse_loop pairs ∅.
Proof.
  revert m. induction pairs as [|item rest IH]; intros m; cbn [parse_loop].
  - cbn [fmap result_fmap]. by rewrite (left_id_L ∅ (∪)).
  - destruct (negb (contains "=" item)); [done|].
    destruct (split_once "=" item) as [key raw_value].
    destruct (auto_cast (strip raw_value)) as [v|e]; cbn [mbind result_bind];
      [|done].
    rewrite (IH (<[_ := _]> m)), (IH (<[_ := _]> ∅)).
    destruct (parse_loop rest ∅) as [r|e]; cbn [fmap result_fmap]; [|done].
    f_equal. rewrite insert_empty, (insert_union_singleton_l m).
    by rewrite (assoc_L (∪)).
Qed.

Lemma parse_loop_app l1 l2 m :
  parse_loop (l1 ++ l2) m = parse_loop l1 m ≫= parse_loop l2.
Proof.
  revert m. induction l1 as [|item rest IH]; intros m; cbn [parse_loop app];
    [done|].
  destruct (negb (contains "=" item)); [done|].
  destruct (split_once "=" item) as [key raw_value].
  destruct (auto_cast (strip raw_value)) as [v|e]; cbn [mbind result_bind];
    [apply IH|done].
Qed.

Lemma auto_cast_raise value e :
  auto_cast value = Raise e ->
  read_number value = None /\ json_loads value = LoadsError e.
Proof.
  unfold auto_cast. destruct (_ || _); [done|].
  destruct (read_number value); [done|].
  destruct (json_loads value); try done. by intros [= ->].
Qed.

End OverridesProps.

(** X13. Later overrides win.  Parsing a list of overrides that is one list
    followed by another gives the overrides of the second list together with
    those of the first whose key the second does not set; it fails when one
    of the two lists fails. *)
Theorem parse_overrides_app `{Floats} `{Library} (l1 l2 : list string) :
  Overrides.parse_overrides (l1 ++ l2)
  = (m1 ← Overrides.parse_overrides l1;
     m2 ← Overrides.parse_overrides l2;
     Ok (m2 ∪ m1)).
Proof.
  unfold Overrides.parse_overrides. rewrite parse_loop_app.
  destruct (Overrides.parse_loop l1 ∅) as [m1|e]; cbn [mbind result_bind];
    [|done].
  rewrite parse_loop_union.
  by destruct (Overrides.parse_loop l2 ∅).
Qed.

(** X14. When the overrides are parsed.  [_parse_overrides] returns a mapping
    exactly when every item contains "=" and the cast of what follows its
    first "=", stripped, returns.  It raises the [ValueError] of the first
    item without "=", whatever follows it, when the items before it are
    parsed.  A cast that does not return raises what [json.loads] raised
    besides [JSONDecodeError], on a text that is not read as a number. *)
Theorem parse_overrides_format `{Floats} `{Library} (pairs : list string) :
  ((exists m, Overrides.parse_overrides pairs = Ok m) <->
   Forall (fun item =>
             contains "=" item = true /\
             exists v, Overrides.auto_cast (strip (snd (split_once "=" item)))
                       = Ok v) pairs) /\
  (forall pre item post,
     pairs = pre ++ item :: post ->
     Forall (fun item =>
               contains "=" item = true /\
               exists v, Overrides.auto_cast
                           (strip (snd (split_once "=" item))) = Ok v) pre ->
     contains "=" item = false ->
     Overrides.parse_overrides pairs = Raise (Overrides.ValueError item)) /\
  (forall pre item post e,
     pairs = pre ++ item :: post ->
     Forall (fun item =>
               contains "=" item = true /\
               exists v, Overrides.auto_cast
                           (strip (snd (split_once "=" item))) = Ok v) pre ->
     contains "=" item = true ->
     Overrides.auto_cast (strip (snd (split_once "=" item))) = Raise e ->
     Overrides.parse_overrides pairs = Raise e /\
     json_loads (strip (snd (split_once "=" item))) = LoadsError e).
Proof.
  assert (Hpre : forall pre rest m,
    Forall (fun item =>
              contains "=" item = true /\
              exists v, Overrides.auto_cast
                          (strip (snd (split_once "=" item))) = Ok v) pre ->
    exists m', Overrides.parse_loop (pre ++ rest) m
               = Overrides.parse_loop rest m').
  { intros pre rest m Hall. revert m.
    induction Hall as [|x pre [Hx [v Hv]] _ IH]; intros m;
      cbn [Overrides.parse_loop app]; [by eexists|].
    rewrite Hx. cbn [negb].
    destruct (split_once "=" x) as [key raw_value]. cbn [snd] in Hv.
    rewrite Hv. cbn [mbind result_bind]. apply IH. }
  split; [|split].
  - unfold Overrides.parse_overrides.
    generalize (∅ : gmap string jvalue).
    induction pairs as [|item rest IH]; intros m; cbn [Overrides.parse_loop].
    + split; [constructor|by eexists].
    + destruct (contains "=" item) eqn:Hitem; cbn [negb].
      * destruct (split_once "=" item) as [key raw_value] eqn:Hsplit.
        destruct (Overrides.auto_cast (strip raw_value)) as [v|e] eqn:Hv;
          cbn [mbind result_bind].
        -- rewrite IH. split.
           ++ intros Hall. constructor; [|done].
              split; [done|]. exists v. by rewrite Hsplit.
           ++ intros Hall. by apply Forall_cons in Hall as [_ ?].
        -- split; [by intros [? ?]|].
           intros Hall. apply Forall_cons in Hall as [[_ [v Hv']] _].
           rewrite Hsplit in Hv'. cbn [snd] in Hv'. congruence.
      * split; [by intros [? ?]|].
        intros Hall. apply Forall_cons in Hall as [[? _] _]. congruence.
  - intros pre item post -> Hall Hitem. unfold Overrides.parse_overrides.
    destruct (Hpre pre (item :: post) ∅ Hall) as [m' ->].
    cbn [Overrides.parse_loop]. by rewrite Hitem.
  - intros pre item post e -> Hall Hitem Hcast.
    split; [|by apply auto_cast_raise in Hcast as [_ ?]].
    unfold Overrides.parse_overrides.
    destruct (Hpre pre (item :: post) ∅ Hall) as [m' ->].
    cbn [Overrides.parse_loop]. rewrite Hitem. cbn [negb].
    destruct (split_once "=" item) as [key raw_value]. cbn [snd] in Hcast.
    by rewrite Hcast.
Qed.

Lemma parse_overrides_format_witness :
  Overrides.parse_overrides (H := hundredths) (H0 := ascii_library)
    ["rate=7"; "oops"; "term=12"]
  = Raise (Overrides.ValueError (H0 := ascii_library) "oops").
Proof.
  apply (proj1 (proj2 (parse_overrides_format (H := hundredths)
                         (H0 := hundredths) (H1 := ascii_library) ["rate=7"; "oops"; "term=12"]))
           ["rate=7"] "oops" ["term=12"]).
  - reflexivity.
  - constructor; [|constructor]. split; [reflexivity|].
    exists (JInt 7). reflexivity.
  - reflexivity.
Defined.

(** X15. Key and value of an override.  An item is split at its first "=":
    for a key without "=", the item made of the key, "=" and any text, which
    may itself contain "=", sets the stripped key to the cast of the stripped
    text when that cast returns, and fails as the cast does otherwise; and
    every item that contains "=" is of that form. *)
Theorem parse_overrides_splits_at_first_eq `{Floats} `{Library} :
  (forall key raw_value,
     contains "=" key = false ->
     Overrides.parse_overrides [(key ++ "=" ++ raw_value)%string]
     = (v ← Overrides.auto_cast (strip raw_value);
        Ok {[strip key := v]})) /\
  (forall item,
     contains "=" item = true ->
     exists key raw_value,
       item = (key ++ "=" ++ raw_value)%string /\
       contains "=" key = false /\
       Overrides.parse_overrides [item]
       = (v ← Overrides.auto_cast (strip raw_value);
          Ok {[strip key := v]})).
Proof.
  split.
  - intros key raw_value Hkey.
    destruct (split_once_app "=" key raw_value Hkey) as [Hc Hs].
    unfold Overrides.parse_overrides. cbn [Overrides.parse_loop].
    change (key ++ "=" ++ raw_value)%string
      with (key ++ String "=" raw_value)%string.
    rewrite Hc, Hs. cbn [negb].
    destruct (Overrides.auto_cast (strip raw_value)); cbn [mbind result_bind];
      [|done].
    by rewrite insert_empty.
  - intros item Hitem. destruct (split_once_inv "=" item Hitem) as [Heq Hkey].
    exists (fst (split_once "=" item)), (snd (split_once "=" item)).
    split; [exact Heq|]. split; [exact Hkey|].
    unfold Overrides.parse_overrides. cbn [Overrides.parse_loop].
    rewrite Hitem. cbn [negb].
    destruct (split_once "=" item) as [key raw_value]. cbn [fst snd].
    destruct (Overrides.auto_cast (strip raw_value)); cbn [mbind result_bind];
      [|done].
    by rewrite insert_empty.
Qed.

Lemma parse_overrides_splits_at_first_eq_witness :
  Overrides.parse_overrides (H := hundredths) (H0 := ascii_library)
    ["label = a=b"]
  = Ok {["label" := JStr "a=b"]}.
Proof.
  refine (eq_trans (proj1 (parse_overrides_splits_at_first_eq
                             (H := hundredths) (H0 := hundredths)
                             (H1 := ascii_library))
                      "label " " a=b" _) _);
    reflexivity.
Defined.

(** X16. Booleans among the overrides.  For a text that is "true" or "false"
    once in lower case, [_auto_cast] returns that boolean, without any
    attempt to read a number or JSON.  It returns a boolean for these texts
    and, besides, for the texts that are not read as a number and that
    [json.loads] reads as that boolean, and for no other. *)
Theorem auto_cast_booleans `{Floats} `{Library} (value : string) (b : bool) :
  (str_lower value = (if b then "true" else "false") ->
   Overrides.auto_cast value = Ok (JBool b)) /\
  (Overrides.auto_cast value = Ok (JBool b) <->
   str_lower value = (if b then "true" else "false") \/
   (str_lower value <> "true" /\ str_lower value <> "false" /\
    Overrides.read_number value = None /\
    json_loads value = Loaded (JBool b))).
Proof.
  assert (Hlow : str_lower value = (if b then "true" else "false") ->
                 Overrides.auto_cast value = Ok (JBool b)).
  { intros Hl. unfold Overrides.auto_cast. rewrite Hl. by destruct b. }
  split; [exact Hlow|]. split.
  - unfold Overrides.auto_cast.
    destruct (String.eqb (str_lower value) "true") eqn:Htrue.
    { apply String.eqb_eq in Htrue. cbn [orb]. intros [= <-]. by left. }
    destruct (String.eqb (str_lower value) "false") eqn:Hfalse.
    { apply String.eqb_eq in Hfalse. cbn [orb]. intros [= <-]. by left. }
    cbn [orb]. apply String.eqb_neq in Htrue, Hfalse.
    destruct (Overrides.read_number value) as [number|] eqn:Hn.
    { unfold Overrides.read_number in Hn.
      destruct (contains "." value).
      - destruct (float_of_str value); [|done].
        cbn [fmap option_fmap option_map] in Hn. injection Hn as <-. done.
      - destruct (int_of_str value); [|done].
        cbn [fmap option_fmap option_map] in Hn. injection Hn as <-. done. }
    destruct (json_loads value) as [v| |e] eqn:Hj; try done.
    intros [= ->]. right. done.
  - intros [Hl|(Htrue & Hfalse & Hn & Hj)]; [by apply Hlow|].
    unfold Overrides.auto_cast.
    apply String.eqb_neq in Htrue, Hfalse. rewrite Htrue, Hfalse. cbn [orb].
    by rewrite Hn, Hj.
Qed.

Lemma auto_cast_booleans_witness :
  Overrides.auto_cast (H := hundredths) (H0 := ascii_library) "True"
  = Ok (JBool true).
Proof.
  apply (proj1 (auto_cast_booleans (H := hundredths) (H0 := hundredths)
                  (H1 := ascii_library)
                  "True" true)).
  reflexivity.
Defined.

(** X17. A field that the values lack.  A cell that names a field absent
    from the values has the value [None], whatever its format and whatever
    ["value"] entry it has besides; and a row whose extra label names such a
    field has no extra label in the payload.  Neither is an error. *)
Theorem missing_field_is_None `{Floats} (values : context) (k : string) :
  values !! k = None ->
  (forall cell_cfg,
     assoc "field" cell_cfg = Some (VStr k) ->
     TemplatePayload.build_cell cell_cfg values
     = Ok (TemplatePayload.Cell (TemplatePayload.FValue VNone)
             (default (VBool false) (assoc "editable" cell_cfg)))) /\
  (forall attrs extra cells children r,
     assoc "extra_label" attrs = Some (VDict extra) ->
     assoc "field" extra = Some (VStr k) ->
     TemplatePayload.build_row (RowCfg attrs cells children) values = Ok r ->
     row_extra_label r = None).
Proof.
  intros Hk. split.
  - intros cell_cfg Hfield. unfold TemplatePayload.build_cell.
    rewrite Hfield. cbn [values_get]. unfold ctx_get. rewrite Hk.
    cbn [from_option id mbind result_bind].
    by unfold TemplatePayload.format_value.
  - intros attrs extra cells children r Hextra Hfield.
    rewrite build_row_eq. unfold dict_getitem.
    destruct (assoc "id" attrs) as [i|]; [|done]. cbn [mbind result_bind].
    unfold TemplatePayload.resolve_extra_label, dict_get.
    rewrite Hextra. cbn [from_option id]. rewrite Hfield.
    cbn [values_get]. unfold ctx_get. rewrite Hk.
    cbn [from_option id mbind result_bind].
    unfold TemplatePayload.format_value.
    cbn [is_None orb mbind result_bind].
    destruct (TemplatePayload.build_cells cells values) as [cs|e]; [|done].
    cbn [mbind result_bind].
    destruct (match children with
              | [] => Ok None
              | _ :: _ => Some <$> TemplatePayload.build_rows children values
              end) as [kids|e]; [|done].
    cbn [mbind result_bind]. by intros [= <-].
Qed.

Lemma missing_field_is_None_witness :
  TemplatePayload.build_cell (H := hundredths)
    [("field", VStr "fee"); ("value", VInt 1); ("format", VStr "money");
     ("editable", VBool true)] ∅
  = Ok (TemplatePayload.Cell (TemplatePayload.FValue VNone) (VBool true)).
Proof.
  refine (eq_trans (proj1 (missing_field_is_None (H := hundredths) ∅ "fee" _)
                      _ _) _);
    reflexivity.
Defined.

(** ** The HTML preview *)

Lemma str_app_cons (x : ascii) (a b : string) :
  (String x a ++ b = String x (a ++ b))%string.
Proof. reflexivity. Qed.

Lemma str_app_assoc (a b c : string) :
  ((a ++ b) ++ c = a ++ (b ++ c))%string.
Proof.
  induction a as [|x a IH]; [done|]. by rewrite !str_app_cons, IH.
Qed.

Lemma str_app_nil_r (a : string) : (a ++ "" = a)%string.
Proof. induction a as [|x a IH]; [done|]. by rewrite str_app_cons, IH. Qed.

Lemma contains_app c a b :
  contains c (a ++ b)%string = contains c a || contains c b.
Proof.
  induction a as [|x a IH]; [done|].
  rewrite str_app_cons. cbn [contains]. by rewrite IH, orb_assoc.
Qed.

Lemma html_escape_markup_free s : markup_free (html_escape s).
Proof.
  unfold markup_free.
  induction s as [|c s (IH1 & IH2 & IH3 & IH4)]; cbn [html_escape]; [done|].
  rewrite !contains_app, IH1, IH2, IH3, IH4, !orb_false_r.
  destruct (Ascii.eqb c "&"); [done|].
  destruct (Ascii.eqb c "<") eqn:Hlt; [done|].
  destruct (Ascii.eqb c ">") eqn:Hgt; [done|].
  destruct (Ascii.eqb c (Ascii.ascii_of_nat 34)) eqn:Hdq; [done|].
  destruct (Ascii.eqb c "'") eqn:Hsq; [done|].
  cbn [contains]. by rewrite Hlt, Hgt, Hdq, Hsq.
Qed.

(** X18. A cell cannot bring markup.  [_render_cell] returns one [td]
    element whose class is "value-cell", followed by "readonly" unless the
    cell is editable, and whose content holds none of the characters [<],
    [>], the double and the single quote, whatever the value of the cell;
    the content is empty for a missing cell and for the value [None]. *)
Theorem cell_is_markup_free `{Printer}
    (cell_cfg : option TemplatePayload.cell) :
  exists display,
    markup_free display /\
    HtmlPreview.render_cell cell_cfg
    = ("<td class=" ++ dq
       ++ (if truthy (from_option TemplatePayload.cell_editable (VBool false)
                        cell_cfg)
           then "value-cell" else "value-cell readonly")
       ++ dq ++ ">" ++ display ++ "</td>")%string /\
    (from_option TemplatePayload.cell_value
       (TemplatePayload.FValue VNone) cell_cfg
     = TemplatePayload.FValue VNone -> display = "").
Proof.
  unfold HtmlPreview.render_cell.
  set (value := match cell_cfg with
                | Some c => TemplatePayload.cell_value c
                | None => TemplatePayload.FValue VNone
                end).
  set (editable := match cell_cfg with
                   | Some c => TemplatePayload.cell_editable c
                   | None => VBool false
                   end).
  assert (Hv : from_option TemplatePayload.cell_value
                 (TemplatePayload.FValue VNone) cell_cfg = value)
    by (by destruct cell_cfg).
  assert (He : from_option TemplatePayload.cell_editable (VBool false)
                 cell_cfg = editable) by (by destruct cell_cfg).
  rewrite Hv, He.
  exists (match value with
          | TemplatePayload.FValue VNone => EmptyString
          | _ => html_escape (HtmlPreview.py_str value)
          end).
  split; [|split].
  - destruct value as [[]|]; try apply html_escape_markup_free. done.
  - by destruct (truthy editable).
  - by intros ->.
Qed.

Lemma row_rect' `{Floats} (P : TemplatePayload.row -> Prop) :
  (forall i label type extra cells children,
     Forall P (default [] children) ->
     P (TemplatePayload.Row i label type extra cells children)) ->
  forall r, P r.
Proof.
  intros Hrow. fix IH 1. intros [i label type extra cells children].
  apply Hrow. destruct children as [rows|]; [|constructor].
  induction rows as [|c cs IHcs]; constructor; [apply IH|apply IHcs].
Qed.

Section Preorder.
Context `{Printer}.

Lemma rows_html_app col_defs l1 l2 :
  rows_html col_defs (l1 ++ l2)
  = (h1 ← rows_html col_defs l1;
     h2 ← rows_html col_defs l2;
     Ok (h1 ++ h2)%string).
Proof.
  induction l1 as [|[r depth] l1 IH]; cbn [rows_html app mbind result_bind].
  - by destruct (rows_html col_defs l2).
  - destruct (HtmlPreview.row_html r col_defs depth) as [h|e]; [|done].
    cbn [mbind result_bind]. rewrite IH.
    destruct (rows_html col_defs l1) as [h1|e]; [|done].
    cbn [mbind result_bind].
    destruct (rows_html col_defs l2) as [h2|e]; [|done].
    cbn [mbind result_bind]. by rewrite str_app_assoc.
Qed.

End Preorder.

(** X19. Children follow their parent.  [_render_row] returns the rows of
    the tree one after the other, every row before its children and the
    children in their order, each rendered on its own with its depth in the
    tree as indentation; an error is that of the first row, in this order,
    that cannot be rendered. *)
Theorem render_row_is_preorder `{Printer} (r : TemplatePayload.row)
    (col_defs : list value) (depth : nat) :
  HtmlPreview.render_row r col_defs depth
  = rows_html col_defs (preorder r depth).
Proof.
  revert depth.
  induction r as [i label type extra cells children IH] using row_rect'.
  intros depth. cbn [HtmlPreview.render_row preorder rows_html].
  destruct (HtmlPreview.row_html _ col_defs depth) as [own|e]; [|done].
  cbn [mbind result_bind].
  destruct children as [rows|].
  2:{ cbn [rows_html mbind result_bind]. done. }
  cbn [default from_option id] in IH.
  match goal with
  | |- context [?loop rows EmptyString] =>
      assert (Hloop : forall acc,
        loop rows acc =
        (fun hs => (acc ++ hs)%string) <$>
        rows_html col_defs
          ((fix below (l : list TemplatePayload.row) :=
              match l with
              | [] => []
              | child :: l' => preorder child (S depth) ++ below l'
              end) rows))
  end.
  { induction IH as [|c cs Hc _ IHcs]; intros acc.
    - cbn [rows_html fmap result_fmap]. by rewrite str_app_nil_r.
    - rewrite Hc, rows_html_app.
      destruct (rows_html col_defs (preorder c (S depth))) as [h|e]; [|done].
      cbn [mbind result_bind]. rewrite IHcs.
      match goal with
      | |- context [rows_html col_defs ?l] =>
          destruct (rows_html col_defs l) as [hs|e]; [|done]
      end.
      cbn [mbind result_bind fmap result_fmap]. by rewrite str_app_assoc. }
  rewrite Hloop.
  match goal with
  | |- context [rows_html col_defs ?l] =>
      destruct (rows_html col_defs l) as [hs|e]; [|done]
  end.
  done.
Qed.

(** X20. The preview needs a title and a currency.  The payload that
    [build_payload] returns always has the entries "title" and "currency",
    [None] when the configuration has none, so that the defaults of
    [_render_payload] never apply: for a configuration whose title is not a
    string, and for one whose title is a string and whose currency is not,
    [_render_payload] raises [AttributeError] on the payload. *)
Theorem preview_needs_title `{Printer} `{Interpreter}
    (self : TemplateRenderer.renderer) (table_ids : option (gset string))
    (config : template_cfg) (p : TemplatePayload.payload)
    (self' : TemplateRenderer.renderer) :
  TemplatePayload.build_payload self table_ids config = Ok (p, self') ->
  ((forall s, c_title config <> VStr s) ->
   HtmlDocument.render_payload p
   = Raise (AttributeError (c_title config) "replace")) /\
  (forall t,
     c_title config = VStr t -> (forall s, c_currency config <> VStr s) ->
     HtmlDocument.render_payload p
     = Raise (AttributeError (c_currency config) "replace")).
Proof.
  intros Hb. unfold TemplatePayload.build_payload in Hb.
  destruct (TemplateRenderer.compute_values self (c_fields config))
    as [[values s]|e]; cbn [mbind result_bind] in Hb; [|done].
  destruct (TemplatePayload.build_inputs config values) as [inputs|e];
    cbn [mbind result_bind] in Hb; [|done].
  destruct (TemplatePayload.build_tables table_ids (c_tables config) values)
    as [tables|e]; cbn [mbind result_bind] in Hb; [|done].
  injection Hb as <- <-. unfold HtmlDocument.render_payload.
  cbn [TemplatePayload.p_title TemplatePayload.p_currency]. split.
  - intros Htitle. destruct (c_title config) as [| | |t| |]; try done.
    by destruct (Htitle t).
  - intros t -> Hcurrency. cbn [escape_value mbind result_bind].
    destruct (c_currency config) as [| | |c| |]; try done.
    by destruct (Hcurrency c).
Qed.

Lemma preview_needs_title_witness :
  TemplatePayload.build_payload (H := hundredths) (H0 := asteval false)
    (TemplateRenderer.init ∅) None
    (TemplateCfg VNone (VStr "VND") [] [] None [] VNone)
  = Ok (TemplatePayload.Payload VNone (VStr "VND") [] [] (VList []),
        TemplateRenderer.Renderer ∅ (Some ∅)) /\
  HtmlDocument.render_payload (H0 := hundredths_printer)
    (TemplatePayload.Payload VNone (VStr "VND") [] [] (VList []))
  = Raise (AttributeError VNone "replace").
Proof.
  assert (Hb : TemplatePayload.build_payload (H := hundredths)
                 (H0 := asteval false) (TemplateRenderer.init ∅) None
                 (TemplateCfg VNone (VStr "VND") [] [] None [] VNone)
               = Ok (TemplatePayload.Payload VNone (VStr "VND") [] []
                       (VList []),
                     TemplateRenderer.Renderer ∅ (Some ∅))) by reflexivity.
  split; [exact Hb|].
  apply (proj1 (preview_needs_title (H0 := hundredths_printer)
                  (H1 := asteval false) _ _ _ _ _ Hb)).
  intros s. discriminate.
Defined.

(** ** The context of a stable evaluation *)

Lemma calc_loop_satisfied (eval : context -> value -> result value)
    fs (engine : context) ctx changed engine' ctx' :
  calc_loop (H := pure_interp eval) fs engine ctx changed
  = Ok (engine', ctx', false) ->
  forall f, f ∈ fs -> is_calc f = true ->
    exists v i, eval engine (get f "formula") = Ok v /\
                field_id f = Some i /\ py_ne (ctx_get ctx i) v = false.
Proof.
  revert ctx changed. induction fs as [|g rest IH]; intros ctx changed Hl f Hf Hc.
  { by apply elem_of_nil in Hf. }
  cbn [calc_loop] in Hl. fold (is_calc g) in Hl.
  destruct (is_calc g) eqn:Hg.
  2:{ apply elem_of_cons in Hf as [->|Hf]; [congruence|by eapply IH]. }
  cbn [interp_call pure_interp] in Hl.
  destruct (eval engine (get g "formula")) as [v|e] eqn:Hv;
    cbn [mbind result_bind] in Hl; [|done].
  unfold getitem_id in Hl.
  destruct (field_id g) as [i|] eqn:Hi; cbn [mbind result_bind] in Hl; [|done].
  destruct (py_ne (ctx_get ctx i) v) eqn:Hne.
  { by apply (calc_loop_changed (H := pure_interp eval)) in Hl. }
  apply elem_of_cons in Hf as [->|Hf]; [by exists v, i|by eapply IH].
Qed.

(** X21. A stable context satisfies every formula.  With an interpreter
    whose calls compute from the formula and the symbol table alone, when an
    evaluation ends on a pass that changed nothing, every calc field of the
    list has an id and its formula, evaluated on the returned context, gives
    a value equal to the one the context holds for that id ([None] when it
    holds none). *)
Theorem stable_context_satisfies_formulas
    (eval : context -> value -> result value) (fields : list field)
    (inputs : context) (r : run) :
  ScenarioBuilder.compute_values_run (H := pure_interp eval) fields inputs
  = Ok r ->
  run_stable r = true ->
  forall f, f ∈ fields -> is_calc f = true ->
    exists v i, eval (run_ctx r) (get f "formula") = Ok v /\
                field_id f = Some i /\
                py_eq (ctx_get (run_ctx r) i) v = true.
Proof.
  intros Hrun Hstable f Hf Hc. unfold compute_values_run in Hrun.
  destruct (seed fields inputs) as [ctx0|e] eqn:Hs; [|done].
  change (Ok ctx0 ≫= _)
    with (iterate (H := pure_interp eval) 8 fields interp_new ctx0 0) in Hrun.
  pose proof (iterate_spec (H := pure_interp eval) fields ctx0 8 0 interp_new
                ctx0 (reaches_start (H := pure_interp eval) fields ctx0))
    as Hit.
  rewrite Hrun in Hit. destruct Hit as (_ & _ & Hex).
  destruct Hex as [_ (engine1 & ctx1 & engine2 & Hreach & Hpass)]; [lia|].
  rewrite Hstable in Hpass. cbn [negb] in Hpass.
  destruct (reaches_keys eval fields ctx0 _ engine1 ctx1 Hreach) as [Hsub _].
  unfold one_pass in Hpass.
  pose proof (calc_loop_unchanged (H := pure_interp eval) _ _ _ _ _ _ Hpass)
    as Hsame.
  cbn [interp_update pure_interp] in Hpass.
  rewrite (union_absorb _ _ Hsub) in Hpass.
  destruct (calc_loop_satisfied eval _ _ _ _ _ _ Hpass f Hf Hc)
    as (v & i & Hv & Hi & Hne).
  exists v, i. rewrite Hsame. split; [done|]. split; [done|].
  unfold py_ne in Hne. by apply negb_false_iff in Hne.
Qed.

Lemma stable_context_satisfies_formulas_witness :
  exists v i,
    asteval_call false {["n" := VInt 5; "q" := VInt 6]}
      (get (calc_field "q" "n + 1") "formula") = Ok v /\
    field_id (calc_field "q" "n + 1") = Some i /\
    py_eq (ctx_get {["n" := VInt 5; "q" := VInt 6]} i) v = true.
Proof.
  pose proof (stable_context_satisfies_formulas (asteval_call false)
                [user_field "n" (VInt 5); calc_field "q" "n + 1"] ∅
                (Run {["n" := VInt 5; "q" := VInt 6]} 2 true)) as Hfix.
  cbn [run_ctx run_stable] in Hfix.
  apply (Hfix ltac:(vm_compute; reflexivity) eq_refl
              (calc_field "q" "n + 1")).
  - apply list_elem_of_In. simpl. tauto.
  - vm_compute; reflexivity.
Defined.

(** ** Catalogue fields that share an id *)

(** X22. Catalogue fields that share an id.  When the merge returns, the
    field it made for an id of [use_fields] is the copy, with the overrides
    and the source "user", of the last catalogue field that has this id:
    an earlier catalogue field of the same id is never used. *)
Theorem merge_uses_last_catalogue_field (gc : globals_cfg)
    (sc : scenario_cfg) (merged : list field) :
  ScenarioBuilder.merge_fields gc sc = Ok merged ->
  exists sourced,
    merged = sourced ++ s_fields sc /\
    Forall2 (fun fid m =>
               exists g, last_with_id (g_fields gc) fid = Some g /\
                 m = sourced_field g (default ∅ (overrides sc !! fid)))
            (use_fields sc) sourced.
Proof.
  unfold merge_fields. intros Hm.
  destruct (build_gmap (g_fields gc) ∅) as [gm|e] eqn:Hgm;
    cbn [mbind result_bind] in Hm; [|done].
  destruct (merge_loop gm sc (use_fields sc) []) as [out|e] eqn:Hl;
    cbn [mbind result_bind] in Hm; [|done].
  injection Hm as <-.
  destruct (merge_loop_ok gm sc (use_fields sc) []
              (merge_loop_inv _ _ _ _ _ Hl)) as (sourced & Hl2 & Hall).
  rewrite Hl in Hl2. injection Hl2 as ->. cbn [app].
  exists sourced. split; [done|].
  eapply Forall2_impl; [exact Hall|]. intros fid m (g & Hg & ->).
  exists g. split; [|done].
  rewrite (build_gmap_last _ _ _ fid Hgm) in Hg.
  destruct (last_with_id (g_fields gc) fid); [done|].
  by rewrite lookup_empty in Hg.
Qed.

Lemma merge_uses_last_catalogue_field_witness :
  exists sourced,
    [mk_field "rate" [("unit", VStr "bp"); ("source", VStr "user")]]
    = sourced ++ [] /\
    Forall2 (fun fid m =>
               exists g,
                 last_with_id [mk_field "rate" [("unit", VStr "%")];
                               mk_field "rate" [("unit", VStr "bp")]] fid
                 = Some g /\
                 m = sourced_field g
                       (default ∅ ((∅ : gmap string (gmap string value))
                                   !! fid)))
            ["rate"] sourced.
Proof.
  pose proof (merge_uses_last_catalogue_field
                (GlobalsCfg [mk_field "rate" [("unit", VStr "%")];
                             mk_field "rate" [("unit", VStr "bp")]])
                (ScenarioCfg ["rate"] ∅ [])
                [mk_field "rate" [("unit", VStr "bp");
                                  ("source", VStr "user")]]) as Hlast.
  cbn [g_fields use_fields overrides s_fields] in Hlast.
  apply Hlast. vm_compute; reflexivity.
Defined.

(** ** What a pass computes from *)

Lemma calc_loop_origin (eval : context -> value -> result value)
    fs (st : context) ctx changed st' ctx' changed' k v :
  calc_loop (H := pure_interp eval) fs st ctx changed
  = Ok (st', ctx', changed') ->
  ctx' !! k = Some v ->
  ctx !! k = Some v \/
  exists f, f ∈ fs /\ is_calc f = true /\ field_id f = Some k /\
            eval st (get f "formula") = Ok v.
Proof.
  revert ctx changed. induction fs as [|g rest IH]; intros ctx changed Hl Hk.
  { cbn [calc_loop] in Hl. injection Hl as _ <- _. by left. }
  cbn [calc_loop] in Hl. fold (is_calc g) in Hl.
  assert (Hrest : forall ctx1 changed1,
    calc_loop (H := pure_interp eval) rest st ctx1 changed1
    = Ok (st', ctx', changed') ->
    ctx1 !! k = Some v \/
    exists f, f ∈ g :: rest /\ is_calc f = true /\ field_id f = Some k /\
              eval st (get f "formula") = Ok v).
  { intros ctx1 changed1 Hl1.
    destruct (IH _ _ Hl1 Hk) as [?|(f & Hf & ?)]; [by left|].
    right. exists f. split; [by right|done]. }
  destruct (is_calc g) eqn:Hg; [|by eapply Hrest].
  cbn [interp_call pure_interp] in Hl.
  destruct (eval st (get g "formula")) as [w|e] eqn:Hw;
    cbn [mbind result_bind] in Hl; [|done].
  unfold getitem_id in Hl.
  destruct (field_id g) as [i|] eqn:Hi; cbn [mbind result_bind] in Hl; [|done].
  destruct (py_ne (ctx_get ctx i) w); [|by eapply Hrest].
  destruct (Hrest _ _ Hl) as [Hins|?]; [|by right].
  destruct (decide (i = k)) as [->|Hne].
  - rewrite lookup_insert_eq in Hins. injection Hins as ->.
    right. exists g. split; [by left|done].
  - rewrite lookup_insert_ne in Hins by done. by left.
Qed.

(** X23. A pass computes from the values of the pass before.  With an
    interpreter whose calls compute from the formula and the symbol table
    alone, every entry of the context after a pass is an entry it had before
    the pass, or the value of the formula of a calc field of that id
    evaluated on the symbol table as the pass found it: a value written
    during a pass is not seen by the formulas that follow in the same
    pass. *)
Theorem pass_reads_previous_values
    (eval : context -> value -> result value) (fields : list field)
    (engine ctx engine' ctx' : context) (changed : bool) (k : string)
    (v : value) :
  ScenarioBuilder.one_pass (H := pure_interp eval) fields engine ctx
  = Ok (engine', ctx', changed) ->
  ctx' !! k = Some v ->
  ctx !! k = Some v \/
  exists f, f ∈ fields /\ is_calc f = true /\ field_id f = Some k /\
            eval (ctx ∪ engine) (get f "formula") = Ok v.
Proof.
  unfold one_pass. cbn [interp_update pure_interp]. intros Hp Hk.
  by apply (calc_loop_origin eval _ _ _ _ _ _ _ _ _ Hp).
Qed.

Lemma pass_reads_previous_values_witness :
  ScenarioBuilder.one_pass (H := asteval false)
    [calc_field "a" "x + 1"; calc_field "b" "a + 1"] ∅
    {["x" := VInt 1; "a" := VInt 0]}
  = Ok (({["x" := VInt 1; "a" := VInt 0]} : context),
        ({["x" := VInt 1; "a" := VInt 2; "b" := VInt 1]} : context), true) /\
  (({["x" := VInt 1; "a" := VInt 0]} : context) !! "b" = Some (VInt 1) \/
   exists f,
     f ∈ [calc_field "a" "x + 1"; calc_field "b" "a + 1"] /\
     is_calc f = true /\ field_id f = Some "b" /\
     asteval_call false ({["x" := VInt 1; "a" := VInt 0]} ∪ ∅)
       (get f "formula") = Ok (VInt 1)).
Proof.
  assert (Hp : ScenarioBuilder.one_pass (H := asteval false)
      [calc_field "a" "x + 1"; calc_field "b" "a + 1"] ∅
      {["x" := VInt 1; "a" := VInt 0]}
    = Ok (({["x" := VInt 1; "a" := VInt 0]} : context),
          ({["x" := VInt 1; "a" := VInt 2; "b" := VInt 1]} : context), true))
    by (vm_compute; reflexivity).
  split; [exact Hp|].
  apply (pass_reads_previous_values (asteval_call false) _ _ _ _ _ _ "b"
           (VInt 1) Hp).
  vm_compute; reflexivity.
Defined.

(** ** How [build] fails *)

Lemma merge_loop_raise gm sc ids merged e :
  merge_loop gm sc ids merged = Raise e -> exists k, e = KeyError k.
Proof.
  revert merged. induction ids as [|fid rest IH]; intros merged;
    cbn [merge_loop]; [done|].
  destruct (gm !! fid) as [g|]; [apply IH|].
  intros [= <-]. by eexists.
Qed.

Lemma seed_with_raise dflt fields ctx e :
  seed_with dflt fields ctx = Raise e -> e = KeyError "id".
Proof.
  revert ctx. induction fields as [|f rest IH]; intros ctx;
    cbn [seed_with]; [done|].
  destruct (is_user dflt f); [|apply IH].
  unfold getitem_id. destruct (field_id f) as [i|]; cbn [mbind result_bind].
  - destruct (ctx_mem ctx i); apply IH.
  - by intros [= <-].
Qed.

Section BuildFailures.
Context `{Interpreter}.
Hypothesis call_returns :
  forall formula engine, exists v engine',
    interp_call formula engine = (Ok v, engine').

Lemma calc_loop_raise fields engine ctx changed e :
  calc_loop fields engine ctx changed = Raise e -> e = KeyError "id".
Proof.
  revert engine ctx changed.
  induction fields as [|f rest IH]; intros engine ctx changed;
    cbn [calc_loop]; [done|].
  destruct (py_eq _ _ && has_key f "formula"); [|apply IH].
  destruct (call_returns (get f "formula") engine) as (v & engine' & ->).
  cbn [mbind result_bind]. unfold getitem_id.
  destruct (field_id f) as [i|]; cbn [mbind result_bind].
  - destruct (py_ne _ v); apply IH.
  - by intros [= <-].
Qed.

Lemma iterate_raise budget fields engine ctx n e :
  iterate budget fields engine ctx n = Raise e -> e = KeyError "id".
Proof.
  revert engine ctx n.
  induction budget as [|budget IH]; intros engine ctx n; cbn [iterate];
    [done|].
  unfold one_pass.
  destruct (calc_loop fields _ ctx false) as [[[engine' ctx'] changed]|e']
    eqn:Hp; cbn [mbind result_bind].
  - destruct changed; cbn [negb]; [apply IH|done].
  - intros [= <-]. by apply calc_loop_raise in Hp.
Qed.

Lemma compute_values_raise fields inputs e :
  compute_values fields inputs = Raise e -> e = KeyError "id".
Proof.
  unfold compute_values, compute_values_run. rewrite seed_is_seed_with.
  destruct (seed_with None fields inputs) as [ctx0|e'] eqn:Hs.
  - change (Ok ctx0 ≫= _) with (iterate 8 fields interp_new ctx0 0).
    destruct (iterate 8 fields interp_new ctx0 0) as [r|e'] eqn:Hit; [done|].
    cbn [fmap result_fmap]. intros [= <-]. by apply iterate_raise in Hit.
  - cbn [mbind result_bind fmap result_fmap]. intros [= <-].
    by apply seed_with_raise in Hs.
Qed.

Lemma resolve_label_raise f gc sc e :
  resolve_label f gc sc = Raise e -> e = KeyError "id".
Proof.
  unfold resolve_label. destruct (truthy (get f "label")); [done|].
  unfold getitem_id. destruct (field_id f) as [i|]; cbn [mbind result_bind].
  2:{ by intros [= <-]. }
  destruct (sf_field_labels sc !! i); [done|].
  destruct (build_gmap (g_fields gc) ∅) as [gm|e'] eqn:Hgm;
    cbn [mbind result_bind].
  - destruct (gm !! i) as [g|]; [|done]. by destruct (truthy (get g "label")).
  - intros [= <-]. by apply build_gmap_raise in Hgm.
Qed.

Lemma prepare_fields_raise units gc sc values fields e :
  prepare_fields units gc sc values fields = Raise e -> e = KeyError "id".
Proof.
  induction fields as [|f rest IH]; cbn [prepare_fields]; [done|].
  unfold resolve_unit, getitem_id.
  destruct (field_id f) as [i|]; cbn [mbind result_bind].
  2:{ by intros [= <-]. }
  assert (Hunit : exists u,
            match units !! i with
            | Some u => Ok u
            | None => Ok (get f "unit")
            end = Ok u) by (destruct (units !! i); by eexists).
  destruct Hunit as [u ->]. cbn [mbind result_bind].
  destruct (resolve_label f gc sc) as [l|e'] eqn:Hl; cbn [mbind result_bind].
  2:{ intros [= <-]. by apply resolve_label_raise in Hl. }
  destruct (prepare_fields units gc sc values rest) as [outs|e'];
    cbn [mbind result_bind]; [done|].
  intros [= <-]. by apply IH.
Qed.

End BuildFailures.

(** X24. How [build] fails.  Both configuration files being loaded, and
    their entries having the types of the data model (fields are objects,
    ids strings, [use_fields] a list, [overrides] and [field_labels]
    objects), with an interpreter whose calls all return (asteval as it is
    called here), an exception of [build] is a [KeyError], that of an id of
    [use_fields] that the catalogue lacks or that of the key "id" for a field
    without id, or else the [TypeError] of a ["choices"] entry that cannot be
    iterated: [null], a boolean or a number. *)
Theorem build_exceptions `{Interpreter} (inputs units : context)
    (gc : globals_cfg) (sc : scenario_file) (e : exn) :
  (forall formula engine, exists v engine',
     interp_call formula engine = (Ok v, engine')) ->
  build inputs units gc sc = Raise e ->
  e = KeyError "id" \/
  (exists fid, fid ∈ use_fields (sf_merge sc) /\ e = KeyError fid /\
     forall g, g ∈ g_fields gc -> field_id g <> Some fid) \/
  (exists v, sf_choices sc = Some v /\
     match v with
     | VNone | VBool _ | VInt _ => True
     | VStr _ | VList _ | VDict _ => False
     end /\
     e = Exn "TypeError"
           [VStr ("'" ++ type_name v ++ "' object is not iterable")]).
Proof.
  intros Hcall. unfold build, merge_fields.
  destruct (build_gmap (g_fields gc) ∅) as [gm|e'] eqn:Hgm;
    cbn [mbind result_bind].
  2:{ intros [= <-]. left. by apply build_gmap_raise in Hgm. }
  destruct (merge_loop gm (sf_merge sc) (use_fields (sf_merge sc)) [])
    as [merged|e'] eqn:Hl; cbn [mbind result_bind].
  2:{ intros [= <-]. right. left.
      destruct (decide (Forall (fun fid => is_Some (gm !! fid))
                          (use_fields (sf_merge sc)))) as [Hall|Hnot].
      - destruct (merge_loop_ok gm (sf_merge sc) _ []
                    (proj1 (Forall_forall _ _) Hall)) as (? & Hok & _).
        congruence.
      - apply not_Forall_Exists in Hnot; [|apply _].
        apply Exists_exists in Hnot as (fid & Hfid & Hnone).
        apply eq_None_not_Some in Hnone.
        destruct (merge_loop_unknown gm (sf_merge sc) _ fid Hfid Hnone)
          as (pre & k & post & Huse & Hk & _ & Hr).
        rewrite Hr in Hl. injection Hl as <-.
        exists k. split; [rewrite Huse; set_solver|]. split; [done|].
        intros g Hg Hgid.
        assert (is_Some (gm !! k)) as [? ?]; [|congruence].
        apply (build_gmap_known _ _ _ k Hgm). right. by exists g. }
  destruct (compute_values (merged ++ s_fields (sf_merge sc)) inputs)
    as [values|e'] eqn:Hv; cbn [mbind result_bind].
  2:{ intros [= <-]. left. by apply (compute_values_raise Hcall) in Hv. }
  destruct (prepare_fields units gc sc values _) as [outs|e'] eqn:Hp;
    cbn [mbind result_bind].
  2:{ intros [= <-]. left. by apply prepare_fields_raise in Hp. }
  destruct (sf_choices sc) as [v|]; cbn [from_option id]; [|done].
  destruct v; cbn [iter_value mbind result_bind]; try done;
    intros [= <-]; right; right; by eexists.
Qed.

Lemma build_exceptions_witness :
  build (H := asteval false) ∅ ∅
    (GlobalsCfg [mk_field "rate" [("default", VInt 5)]])
    (ScenarioFile (ScenarioCfg ["rate"; "term"] ∅ []) ∅ VNone None None)
  = Raise (KeyError "term") /\
  (KeyError "term" = KeyError "id" \/
   (exists fid,
      fid ∈ ["rate"; "term"] /\ KeyError "term" = KeyError fid /\
      forall g, g ∈ [mk_field "rate" [("default", VInt 5)]] ->
                field_id g <> Some fid) \/
   (exists v, None = Some v /\
      match v with
      | VNone | VBool _ | VInt _ => True
      | VStr _ | VList _ | VDict _ => False
      end /\
      KeyError "term"
      = Exn "TypeError"
          [VStr ("'" ++ type_name v ++ "' object is not iterable")])) /\
  build (H := asteval false) ∅ ∅
    (GlobalsCfg [mk_field "rate" [("default", VInt 5)]])
    (ScenarioFile (ScenarioCfg ["rate"] ∅ []) ∅ VNone None (Some VNone))
  = Raise (Exn "TypeError" [VStr "'NoneType' object is not iterable"]).
Proof.
  assert (Hb : build (H := asteval false) ∅ ∅
                 (GlobalsCfg [mk_field "rate" [("default", VInt 5)]])
                 (ScenarioFile (ScenarioCfg ["rate"; "term"] ∅ []) ∅ VNone
                    None None)
               = Raise (KeyError "term")) by (vm_compute; reflexivity).
  split; [exact Hb|]. split.
  - exact (build_exceptions (H := asteval false) _ _ _ _ _
             asteval_call_returns Hb).
  - vm_compute; reflexivity.
Defined.
